(** * create_package.py: packaging a Unity asset tree without the editor

    A shallow embedding of [create_package.py] and the properties of its
    three functions [extract_guid], [get_all_assets] and
    [create_unitypackage].

    Modelling choices, all of them visible in the definitions below:
    - Python [str] values that are paths are [string]s holding the bytes
      of the path (the file system encoding is UTF-8 with
      [surrogateescape], so a [str] can be written as UTF-8 text exactly
      when these bytes are valid UTF-8); file contents are [string]s of
      bytes; a text read from a file is a list of Unicode code points
      ([N]).
    - [os.path] is [posixpath].  The file system is a tree whose root is
      the working directory of the script, so that a path names the same
      node with or without a leading separator; every node is a
      directory that can be listed or a regular file (no symbolic links,
      no special files).  A file carries whether the process may read it,
      and the owner's write permission of its mode; the process is not
      the superuser and owns what it copies.
    - The source tree is only read.  The directory made by
      [tempfile.mkdtemp], the archive written by [tarfile] and the console
      are the mutable state, threaded through a state-and-exception monad.
      The temporary file system has room for what is staged, names in it
      are at most [NAME_MAX] bytes long, and files made in it get the
      owner's read and write permission unless a mode is copied onto
      them.
    - What the environment decides is a field of [FS.world]: whether
      [mkdtemp] and [tarfile.open] succeed, which lines [print] can write
      to standard output, and the order in which [os.listdir] lists the
      temporary directory.
    - The gzip/tar byte format is not modelled: an archive is the list of
      its members in the order [TarFile.add] appends them. *)

From Stdlib Require Import NArith Ascii String.
From stdpp Require Import gmap strings list fin_maps sorting.

Local Open Scope N_scope.
Local Open Scope nat_scope.

(** ** Python [str] methods used by the script *)
Module Str.

(** [s.startswith(c)] for a one-character [c]. *)
Definition startswith_char (c : ascii) (s : string) : bool :=
  match s with
  | String x _ => Ascii.eqb x c
  | EmptyString => false
  end.

(** [s.endswith(suffix)]. *)
Definition endswith (s suffix : string) : bool :=
  let n := String.length s in
  let k := String.length suffix in
  if Nat.leb k n then String.eqb (String.substring (n - k) k s) suffix
  else false.

(** [s.replace(old, new)] for one-character [old] and [new]. *)
Fixpoint replace (old new : ascii) (s : string) : string :=
  match s with
  | EmptyString => EmptyString
  | String x r =>
      String (if Ascii.eqb x old then new else x) (replace old new r)
  end.

(** [s.split(sep)] for a one-character [sep]. *)
Fixpoint split (sep : ascii) (s : string) : list string :=
  match s with
  | EmptyString => [EmptyString]
  | String x r =>
      if Ascii.eqb x sep then EmptyString :: split sep r
      else match split sep r with
           | h :: t => String x h :: t
           | [] => [String x EmptyString]
           end
  end.

(** [s[:n]]. *)
Definition take (n : nat) (s : string) : string := String.substring 0 n s.

(** Does the string hold a NUL character? *)
Fixpoint has_nul (s : string) : bool :=
  match s with
  | EmptyString => false
  | String x r => Ascii.eqb x "000"%char || has_nul r
  end.

(** Truthiness of a string: [bool(s)]. *)
Definition truthy (s : string) : bool :=
  match s with EmptyString => false | _ => true end.

End Str.

(** ** [posixpath] *)
Module OsPath.

Definition sep : ascii := "/"%char.

(** [posixpath.join(a, b)]. *)
Definition join (a b : string) : string :=
  if Str.startswith_char sep b then b
  else if negb (Str.truthy a) || Str.endswith a "/" then a +:+ b
  else a +:+ "/" +:+ b.

End OsPath.

(** ** Exceptions, and what the script prints *)

(** Exceptions the model can raise. *)
Inductive exn : Type :=
| FileNotFoundError (p : string)
| IsADirectoryError (p : string)
| PermissionError (p : string)
| UnicodeDecodeError
| UnicodeEncodeError
| ValueError
| OSError (what : string).

Global Instance exn_eq_dec : EqDecision exn.
Proof. solve_decision. Defined.

(** The lines the script prints.  The size in the last line of the
    summary depends on the compressed bytes and is left out. *)
Inductive message : Type :=
| MsgCreating (output_path : string)
| MsgAssetsFolder (assets_folder : string)
| MsgFound (n : nat)
| MsgErrorReading (meta_file_path : string) (e : exn)
| MsgSkipping (asset_path : string)
| MsgAdding (asset_path guid8 : string)
| MsgCreatingArchive
| MsgCreated
| MsgOutput (output_path : string)
| MsgSize.

(** ** The file system that the script reads *)
Module FS.

(** A file has a read permission, the owner's write permission of its
    mode, and its bytes; a directory lists its entries in the order
    [os.scandir] returns them. *)
#[local] Set Warnings "-register-all".
Inductive node : Type :=
| File (readable owner_write : bool) (content : string)
| Dir (entries : list (string * node)).

Definition is_dir (n : node) : bool :=
  match n with Dir _ => true | File _ _ _ => false end.

(** The environment of one run: the tree under the working directory;
    whether [tempfile.mkdtemp] can make a directory; which paths
    [tarfile.open(_, "w:gz")] can create; the exception that [print]
    raises on a line, if any ([UnicodeEncodeError] when standard output
    cannot encode it); and the order of [os.listdir] on the temporary
    directory: from the sub-directories in the order of their creation,
    a rank for each name, the names being listed by increasing rank. *)
Record world : Type := World {
  cwd : list (string * node);
  tmp_available : bool;
  can_write : string → bool;
  print_error : message → option exn;
  listdir_rank : list string → string → nat
}.

Fixpoint lookup_entry (name : string) (es : list (string * node))
  : option node :=
  match es with
  | [] => None
  | (n, x) :: es' => if String.eqb n name then Some x else lookup_entry name es'
  end.

(** Path resolution, component by component.  [stack] holds the
    directories above [cur]; at the root [..] stays at the root.  Empty
    components and [.] need the current node to be a directory, so
    [file/] does not resolve. *)
Fixpoint resolve_from (stack : list node) (cur : node) (comps : list string)
  : option node :=
  match comps with
  | [] => Some cur
  | c :: cs =>
      match cur with
      | File _ _ _ => None
      | Dir es =>
          if String.eqb c EmptyString || String.eqb c "."
          then resolve_from stack cur cs
          else if String.eqb c ".." then
            match stack with
            | [] => resolve_from [] cur cs
            | up :: stack' => resolve_from stack' up cs
            end
          else
            match lookup_entry c es with
            | Some n => resolve_from (cur :: stack) n cs
            | None => None
            end
      end
  end.

(** What a path names, if anything.  The empty path names nothing. *)
Definition resolve (w : world) (p : string) : option node :=
  if Str.truthy p then resolve_from [] (Dir (cwd w)) (Str.split OsPath.sep p)
  else None.

(** The owner's write permission of the file that [p] names; what is not
    a file has it. *)
Definition owner_write (w : world) (p : string) : bool :=
  match resolve w p with
  | Some (File _ ow _) => ow
  | _ => true
  end.

(** [os.path.exists(p)]. *)
Definition exists_ (w : world) (p : string) : bool :=
  match resolve w p with Some _ => true | None => false end.

Definition dirnames (es : list (string * node)) : list string :=
  map fst (filter (λ e, is_dir (snd e) = true) es).

Definition filenames (es : list (string * node)) : list string :=
  map fst (filter (λ e, is_dir (snd e) = false) es).

(** [os.walk(top)], top-down: the triple of the directory itself, then
    the walks of its sub-directories in listing order. *)
Fixpoint walk_node (top : string) (n : node) {struct n}
  : list (string * list string * list string) :=
  match n with
  | File _ _ _ => []
  | Dir es =>
      (top, dirnames es, filenames es) ::
      (fix walk_entries (l : list (string * node)) :=
         match l with
         | [] => []
         | (name, child) :: l' =>
             match child with
             | Dir _ => walk_node (OsPath.join top name) child ++ walk_entries l'
             | File _ _ _ => walk_entries l'
             end
         end) es
  end.

(** A [top] that is missing or not a directory makes [os.scandir] fail,
    which [os.walk] swallows: nothing is yielded. *)
Definition walk (w : world) (top : string)
  : list (string * list string * list string) :=
  match resolve w top with
  | Some n => walk_node top n
  | None => []
  end.

End FS.

(** ** Asset records and [get_all_assets] *)

(** The dictionary built for each asset: keys ['path'], ['meta'],
    ['is_folder'] and ['asset'] ([None] for a folder). *)
Record asset_record : Type := Asset {
  path : string;
  meta : string;
  is_folder : bool;
  asset : option string
}.

Global Instance asset_record_eq_dec : EqDecision asset_record.
Proof. solve_decision. Defined.

Definition backslash : ascii := "\"%char.
Definition slash : ascii := "/"%char.

Definition folder_record (root dir_meta : string) : asset_record :=
  {| path := Str.replace backslash slash root;
     meta := dir_meta;
     is_folder := true;
     asset := None |}.

Definition file_record (file_path meta_path : string) : asset_record :=
  {| path := Str.replace backslash slash file_path;
     meta := meta_path;
     is_folder := false;
     asset := Some file_path |}.

(** The inner loop over [files] of one walked directory. *)
Fixpoint file_assets (w : FS.world) (root : string) (files : list string)
  : list asset_record :=
  match files with
  | [] => []
  | file :: files' =>
      if Str.endswith file ".meta" then file_assets w root files'
      else
        let file_path := OsPath.join root file in
        let meta_path := file_path +:+ ".meta" in
        if FS.exists_ w meta_path
        then file_record file_path meta_path :: file_assets w root files'
        else file_assets w root files'
  end.

(** The body of the loop over [os.walk(base_path)]. *)
Definition walked_assets (w : FS.world)
    (item : string * list string * list string) : list asset_record :=
  let '(root, _, files) := item in
  let dir_meta := root +:+ ".meta" in
  (if FS.exists_ w dir_meta then [folder_record root dir_meta] else [])
  ++ file_assets w root files.

Definition get_all_assets (w : FS.world) (base_path : string)
  : list asset_record :=
  let assets := concat (map (walked_assets w) (FS.walk w base_path)) in
  let root_meta := base_path +:+ ".meta" in
  if FS.exists_ w root_meta
  then folder_record base_path root_meta :: assets
  else assets.

(** ** Reading a file as text *)
Module Text.

(** [open(p, 'rb').read()]: the bytes of a readable regular file. *)
Definition read_bytes (w : FS.world) (p : string) : exn + string :=
  match FS.resolve w p with
  | None => inl (FileNotFoundError p)
  | Some (FS.Dir _) => inl (IsADirectoryError p)
  | Some (FS.File false _ _) => inl (PermissionError p)
  | Some (FS.File true _ c) => inr c
  end.

Definition bytes_of (s : string) : list N :=
  map N_of_ascii (String.list_ascii_of_string s).

Definition is_cont (b : N) : bool := (128 <=? b)%N && (b <=? 191)%N.

(** Strict UTF-8, as the ['utf-8'] codec with [errors='strict']: no
    overlong forms, no surrogates, nothing above U+10FFFF. *)
Fixpoint utf8_decode (bs : list N) : option (list N) :=
  match bs with
  | [] => Some []
  | b0 :: r =>
      if (b0 <? 128)%N then cons b0 <$> utf8_decode r
      else if (194 <=? b0)%N && (b0 <=? 223)%N then
        match r with
        | b1 :: r1 =>
            if is_cont b1
            then cons ((b0 - 192) * 64 + (b1 - 128))%N <$> utf8_decode r1
            else None
        | _ => None
        end
      else if (224 <=? b0)%N && (b0 <=? 239)%N then
        match r with
        | b1 :: b2 :: r2 =>
            let lo := if (b0 =? 224)%N then 160%N else 128%N in
            let hi := if (b0 =? 237)%N then 159%N else 191%N in
            if (lo <=? b1)%N && (b1 <=? hi)%N && is_cont b2
            then cons ((b0 - 224) * 4096 + (b1 - 128) * 64 + (b2 - 128))%N
                   <$> utf8_decode r2
            else None
        | _ => None
        end
      else if (240 <=? b0)%N && (b0 <=? 244)%N then
        match r with
        | b1 :: b2 :: b3 :: r3 =>
            let lo := if (b0 =? 240)%N then 144%N else 128%N in
            let hi := if (b0 =? 244)%N then 143%N else 191%N in
            if (lo <=? b1)%N && (b1 <=? hi)%N && is_cont b2 && is_cont b3
            then cons ((b0 - 240) * 262144 + (b1 - 128) * 4096
                       + (b2 - 128) * 64 + (b3 - 128))%N
                   <$> utf8_decode r3
            else None
        | _ => None
        end
      else None
  end.

(** Universal newlines of text mode ([newline=None]): [\r\n] and a lone
    [\r] are read as [\n]. *)
Fixpoint universal_newlines (cs : list N) : list N :=
  match cs with
  | [] => []
  | c :: r =>
      if (c =? 13)%N then
        match r with
        | d :: r' =>
            if (d =? 10)%N then 10%N :: universal_newlines r'
            else 10%N :: universal_newlines r
        | [] => [10%N]
        end
      else c :: universal_newlines r
  end.

(** [open(p, 'r', encoding='utf-8').read()]. *)
Definition read_text (w : FS.world) (p : string) : exn + list N :=
  match read_bytes w p with
  | inl e => inl e
  | inr c =>
      match utf8_decode (bytes_of c) with
      | Some cs => inr (universal_newlines cs)
      | None => inl UnicodeDecodeError
      end
  end.

(** Can the [str] whose bytes are [s] be encoded as UTF-8?  A path with
    bytes that are not UTF-8 holds lone surrogates as a [str], which the
    ['utf-8'] codec refuses. *)
Definition encodable (s : string) : bool :=
  match utf8_decode (bytes_of s) with Some _ => true | None => false end.

(** A text of ASCII code points back as a [string]. *)
Definition to_string (cs : list N) : string :=
  String.string_of_list_ascii (map ascii_of_N cs).

End Text.

(** ** The fragment of [re] that the script uses *)
Module Re.

(** Patterns: a literal character, a character class, concatenation, the
    greedy star and one capturing group. *)
Inductive regex : Type :=
| Lit (c : N)
| Class (p : N → bool)
| Cat (r1 r2 : regex)
| Star (r : regex)
| Group (r : regex).

(** [r+] *)
Definition Plus (r : regex) : regex := Cat r (Star r).

(** The text captured by the group, if it has taken part in the match. *)
Definition captures : Type := option (list N).
Definition cont : Type := list N → captures → option captures.
Definition matcher : Type := list N → captures → cont → option captures.

(** Greedy iteration with backtracking: one more round of [m] first, and
    the continuation when that fails.  A round has to consume input. *)
Fixpoint star_loop (m : matcher) (k : cont) (fuel : nat)
    (s : list N) (cap : captures) : option captures :=
  match fuel with
  | O => k s cap
  | S fuel' =>
      match m s cap (λ s' cap',
              if decide (length s' < length s)
              then star_loop m k fuel' s' cap' else None) with
      | Some res => Some res
      | None => k s cap
      end
  end.

(** Backtracking matcher at the start of [s], in continuation-passing
    style; the first success is the answer, as in [sre]. *)
Fixpoint rmatch (r : regex) : matcher :=
  λ s cap k,
  match r with
  | Lit c =>
      match s with
      | x :: s' => if (x =? c)%N then k s' cap else None
      | [] => None
      end
  | Class p =>
      match s with
      | x :: s' => if p x then k s' cap else None
      | [] => None
      end
  | Cat r1 r2 => rmatch r1 s cap (λ s' cap', rmatch r2 s' cap' k)
  | Star r1 => star_loop (rmatch r1) k (length s) s cap
  | Group r1 =>
      rmatch r1 s cap (λ s' _, k s' (Some (take (length s - length s') s)))
  end.

(** [re.match(r, s)]: the captures of a match at the start of [s]. *)
Definition match_ (r : regex) (s : list N) : option captures :=
  rmatch r s None (λ _ cap, Some cap).

(** [re.search(r, s)]: the match at the leftmost position that has one. *)
Fixpoint search (r : regex) (s : list N) : option captures :=
  match match_ r s with
  | Some cap => Some cap
  | None =>
      match s with
      | [] => None
      | _ :: s' => search r s'
      end
  end.

(** A literal string in front of [r]. *)
Definition literal (lit : string) (r : regex) : regex :=
  foldr (λ c acc, Cat (Lit c) acc) r (Text.bytes_of lit).

(** [\s] on [str]: the characters for which [str.isspace()] holds. *)
Definition is_space (c : N) : bool :=
  ((9 <=? c) && (c <=? 13) || (28 <=? c) && (c <=? 32)
   || (c =? 133) || (c =? 160) || (c =? 5760)
   || (8192 <=? c) && (c <=? 8202)
   || (c =? 8232) || (c =? 8233) || (c =? 8239) || (c =? 8287)
   || (c =? 12288))%N.

(** [[a-f0-9]] *)
Definition is_hex (c : N) : bool :=
  ((97 <=? c) && (c <=? 102) || (48 <=? c) && (c <=? 57))%N.

End Re.

(** [r'guid:\s*([a-f0-9]+)'] *)
Definition guid_pattern : Re.regex :=
  Re.literal "guid:"
    (Re.Cat (Re.Star (Re.Class Re.is_space))
            (Re.Group (Re.Plus (Re.Class Re.is_hex)))).

(** ** State, exceptions and the console *)

(** A member of the tar archive: a directory or a regular file. *)
Inductive member : Type :=
| MDir (name : string)
| MFile (name : string) (content : string).

Definition member_name (m : member) : string :=
  match m with MDir n => n | MFile n _ => n end.

(** The temporary directory ([None] while it does not exist) maps the name
    of each sub-directory to the files in it; [read_only] holds the files
    of it, as (sub-directory, file), whose mode lacks the owner's write
    permission; [created] lists its sub-directories in the order of their
    creation; [out] is the archive file written so far, with its path;
    [console] is standard output. *)
Record state : Type := State {
  tmp : option (gmap string (gmap string string));
  read_only : gset (string * string);
  created : list string;
  out : option (string * list member);
  console : list message
}.

Definition initial_state : state :=
  {| tmp := None; read_only := ∅; created := []; out := None; console := [] |}.

Definition set_tmp (t : option (gmap string (gmap string string)))
    (s : state) : state :=
  {| tmp := t; read_only := read_only s; created := created s;
     out := out s; console := console s |}.
Definition set_read_only (ro : gset (string * string)) (s : state) : state :=
  {| tmp := tmp s; read_only := ro; created := created s;
     out := out s; console := console s |}.
Definition set_created (l : list string) (s : state) : state :=
  {| tmp := tmp s; read_only := read_only s; created := l;
     out := out s; console := console s |}.
Definition set_out (o : option (string * list member)) (s : state) : state :=
  {| tmp := tmp s; read_only := read_only s; created := created s;
     out := o; console := console s |}.
Definition add_console (ms : list message) (s : state) : state :=
  {| tmp := tmp s; read_only := read_only s; created := created s;
     out := out s; console := console s ++ ms |}.

(** The content of the temporary directory, empty while it is missing. *)
Definition tmp_dir (s : state) : gmap string (gmap string string) :=
  default ∅ (tmp s).

Inductive outcome (A : Type) : Type :=
| Ok (a : A)
| Raise (e : exn).
Arguments Ok {A} a.
Arguments Raise {A} e.

(** Computations that read and write the state and may raise. *)
Definition M (A : Type) : Type := state → outcome A * state.

Definition ret {A} (a : A) : M A := λ s, (Ok a, s).
Definition raise {A} (e : exn) : M A := λ s, (Raise e, s).
Definition bind {A B} (m : M A) (f : A → M B) : M B :=
  λ s, match m s with
       | (Ok a, s') => f a s'
       | (Raise e, s') => (Raise e, s')
       end.

Notation "'let*' x := m 'in' k" := (bind m (λ x, k))
  (at level 10, x name, m at level 99, k at level 200).
Notation "m >> k" := (bind m (λ _, k))
  (at level 100, right associativity).

(** [try: body / except Exception as e: handler e] *)
Definition try_except {A} (body : M A) (handler : exn → M A) : M A :=
  λ s, match body s with
       | (Ok a, s') => (Ok a, s')
       | (Raise e, s') => handler e s'
       end.

(** [try: body / finally: cleanup]: [cleanup] runs on both exits; the
    exception of [body] is raised again after it, unless [cleanup] raises
    itself. *)
Definition try_finally {A} (body : M A) (cleanup : M unit) : M A :=
  λ s, match body s with
       | (r, s') =>
           match cleanup s' with
           | (Ok _, s'') => (r, s'')
           | (Raise e, s'') => (Raise e, s'')
           end
       end.

(** [for x in l: body x] *)
Fixpoint for_each {A} (l : list A) (body : A → M unit) : M unit :=
  match l with
  | [] => ret tt
  | x :: l' => body x >> for_each l' body
  end.

(** [print(line)]: the line is encoded before anything is written, so a
    line that standard output cannot take leaves the console as it is. *)
Definition print (w : FS.world) (m : message) : M unit :=
  λ s, match FS.print_error w m with
       | Some e => (Raise e, s)
       | None => (Ok tt, add_console [m] s)
       end.

(** Lifts a read of the source tree. *)
Definition lift {A} (r : exn + A) : M A :=
  match r with inl e => raise e | inr a => ret a end.

(** ** [extract_guid] *)

(** The [print] of the handler is not guarded: what it raises leaves
    [extract_guid]. *)
Definition extract_guid (w : FS.world) (meta_file_path : string)
  : M (option string) :=
  try_except
    (let* content := lift (Text.read_text w meta_file_path) in
     match Re.search guid_pattern content with
     | Some (Some group1) => ret (Some (Text.to_string group1))
     | _ => ret None
     end)
    (λ e, print w (MsgErrorReading meta_file_path e) >> ret None).

(** ** The temporary directory *)

(** [tempfile.mkdtemp()]: a new, empty directory. *)
Definition mkdtemp (w : FS.world) : M unit :=
  λ s, if FS.tmp_available w
       then (Ok tt, {| tmp := Some ∅; read_only := ∅; created := [];
                       out := out s; console := console s |})
       else (Raise (OSError "mkdtemp"), s).

(** The longest name of a directory entry, in bytes. *)
Definition NAME_MAX : nat := 255.

(** [os.makedirs(os.path.join(temp_dir, name), exist_ok=True)]: a name
    longer than [NAME_MAX] is refused ([ENAMETOOLONG]); nothing happens
    when the directory is there; missing parents are made too. *)
Definition makedirs (name : string) : M unit :=
  λ s, if NAME_MAX <? String.length name then (Raise (OSError name), s)
       else match tmp_dir s !! name with
            | Some _ => (Ok tt, s)
            | None =>
                (Ok tt,
                 set_created (created s ++ [name])
                   (set_tmp (Some (<[name := ∅]> (tmp_dir s))) s))
            end.

(** [open(os.path.join(temp_dir, dir, file), 'w')], in text or binary
    mode: the file is made empty; a file that is there is truncated, which
    its mode has to permit. *)
Definition open_w (dir file : string) : M unit :=
  λ s, match tmp_dir s !! dir with
       | Some files =>
           if bool_decide (is_Some (files !! file) ∧ (dir, file) ∈ read_only s)
           then (Raise (PermissionError (OsPath.join dir file)), s)
           else (Ok tt,
                 set_tmp (Some (<[dir := <[file := EmptyString]> files]>
                                  (tmp_dir s))) s)
       | None => (Raise (FileNotFoundError (OsPath.join dir file)), s)
       end.

(** Writing [content] into the open file [file] of the sub-directory
    [dir]. *)
Definition write_file (dir file content : string) : M unit :=
  λ s, match tmp_dir s !! dir with
       | Some files =>
           (Ok tt,
            set_tmp (Some (<[dir := <[file := content]> files]> (tmp_dir s))) s)
       | None => (Raise (FileNotFoundError (OsPath.join dir file)), s)
       end.

(** [with open(_, 'w', encoding='utf-8') as f: f.write(text)]: the text is
    encoded when it is written, after the file was made empty. *)
Definition write_text (dir file text : string) : M unit :=
  open_w dir file >>
  if Text.encodable text then write_file dir file text
  else raise UnicodeEncodeError.

(** [os.chmod] as [shutil.copystat] calls it: the copy gets the owner's
    write permission of the source. *)
Definition chmod (dir file : string) (owner_write : bool) : M unit :=
  λ s, (Ok tt,
        set_read_only
          (if owner_write then read_only s ∖ {[(dir, file)]}
           else read_only s ∪ {[(dir, file)]}) s).

(** [shutil.copy2(src, os.path.join(temp_dir, dir, file))]: the source is
    opened first, then the destination; the content is copied, then the
    mode. *)
Definition copy2 (w : FS.world) (src dir file : string) : M unit :=
  let* content := lift (Text.read_bytes w src) in
  open_w dir file >>
  write_file dir file content >>
  chmod dir file (FS.owner_write w src).

(** [shutil.rmtree(temp_dir)] *)
Definition rmtree : M unit :=
  λ s, match tmp s with
       | Some _ =>
           (Ok tt, {| tmp := None; read_only := ∅; created := [];
                      out := out s; console := console s |})
       | None => (Raise (FileNotFoundError "temp_dir"), s)
       end.

(** ** The archive *)

Definition string_le (a b : string) : Prop := String.leb a b = true.
Global Instance string_le_dec : RelDecision string_le.
Proof. intros a b. unfold string_le. apply _. Defined.

(** [tar.add(item_path, arcname=item)] on a directory of regular files: the
    directory member, then its files under [arcname], sorted by name. *)
Definition tar_members (item : string) (files : gmap string string)
  : list member :=
  MDir item ::
  map (λ f, MFile (OsPath.join item f) (default EmptyString (files !! f)))
      (merge_sort string_le (map fst (map_to_list files))).

(** [tarfile.open(output_path, "w:gz")] creates the file, empty. *)
Definition tar_open (w : FS.world) (output_path : string) : M unit :=
  λ s, if FS.can_write w output_path
       then (Ok tt, set_out (Some (output_path, [])) s)
       else (Raise (OSError output_path), s).

(** Listing by increasing rank. *)
Definition rank_le (rank : string → nat) (a b : string) : Prop :=
  rank a ≤ rank b.
Global Instance rank_le_dec rank : RelDecision (rank_le rank).
Proof. intros a b. unfold rank_le. apply _. Defined.

(** The names of [t] in the order in which the file system lists them. *)
Definition listing (w : FS.world) (created : list string)
    (t : gmap string (gmap string string)) : list string :=
  merge_sort (rank_le (FS.listdir_rank w created)) (map fst (map_to_list t)).

(** [os.listdir(temp_dir)]. *)
Definition listdir (w : FS.world) : M (list string) :=
  λ s, match tmp s with
       | Some t => (Ok (listing w (created s) t), s)
       | None => (Raise (FileNotFoundError "temp_dir"), s)
       end.

Definition tar_add (item : string) : M unit :=
  λ s, match tmp s with
       | Some t =>
           match t !! item, out s with
           | Some files, Some (p, ms) =>
               (Ok tt, set_out (Some (p, ms ++ tar_members item files)) s)
           | Some _, None => (Raise (OSError "tar"), s)
           | None, _ => (Raise (FileNotFoundError item), s)
           end
       | None => (Raise (FileNotFoundError item), s)
       end.

(** ** [create_unitypackage] *)

(** The body of the loop over [assets]. *)
Definition stage_asset (w : FS.world) (a : asset_record) : M unit :=
  let* guid := extract_guid w (meta a) in
  match guid with
  | None => print w (MsgSkipping (path a))
  | Some guid =>
      if negb (Str.truthy guid) then print w (MsgSkipping (path a))
      else
        print w (MsgAdding (path a) (Str.take 8 guid)) >>
        makedirs guid >>
        write_text guid "pathname" (path a) >>
        copy2 w (meta a) guid "asset.meta" >>
        match asset a with
        | Some file_path =>
            if negb (is_folder a) && Str.truthy file_path
            then copy2 w file_path guid "asset"
            else ret tt
        | None => ret tt
        end
  end.

(** The [with tarfile.open(output_path, "w:gz") as tar] block. *)
Definition archiver (w : FS.world) (output_path : string) : M unit :=
  tar_open w output_path >>
  let* items := listdir w in
  for_each items tar_add.

(** The staging phase: the loop over [assets]. *)
Definition staging (w : FS.world) (assets : list asset_record) : M unit :=
  for_each assets (stage_asset w).

(** The [try] block of [create_unitypackage]. *)
Definition try_block (w : FS.world) (output_path : string)
    (assets : list asset_record) : M unit :=
  staging w assets >>
  print w MsgCreatingArchive >>
  archiver w output_path >>
  print w MsgCreated >>
  print w (MsgOutput output_path) >>
  print w MsgSize.

(** The call [get_all_assets(assets_folder)]: [os.walk] raises
    [ValueError] on a path that holds a NUL character, which
    [get_all_assets] does not catch. *)
Definition call_get_all_assets (w : FS.world) (base_path : string)
  : M (list asset_record) :=
  if Str.has_nul base_path then raise ValueError
  else ret (get_all_assets w base_path).

Definition create_unitypackage (w : FS.world)
    (output_path assets_folder : string) : M unit :=
  print w (MsgCreating output_path) >>
  print w (MsgAssetsFolder assets_folder) >>
  let* assets := call_get_all_assets w assets_folder in
  print w (MsgFound (length assets)) >>
  mkdtemp w >>
  try_finally (try_block w output_path assets) rmtree.

(** The script itself: [create_unitypackage(PACKAGE_NAME, ASSETS_FOLDER)]. *)
Definition PACKAGE_NAME : string := "Deffatest_v1.0.0.unitypackage".
Definition ASSETS_FOLDER : string := "Assets/Deffatest".

Definition main (w : FS.world) : outcome unit * state :=
  create_unitypackage w PACKAGE_NAME ASSETS_FOLDER initial_state.

(** ** Reading the pattern without the matcher

    What [guid:\s*([a-f0-9]+)] says about a text, as plain list functions:
    the statements below are phrased with these. *)

(** The longest prefix of [s] whose characters satisfy [p], and the rest. *)
Fixpoint run (p : N → bool) (s : list N) : list N :=
  match s with
  | x :: s' => if p x then x :: run p s' else []
  | [] => []
  end.

Fixpoint skip (p : N → bool) (s : list N) : list N :=
  match s with
  | x :: s' => if p x then skip p s' else s
  | [] => []
  end.

Fixpoint strip_prefix (pre s : list N) : option (list N) :=
  match pre, s with
  | [], _ => Some s
  | c :: pre', x :: s' => if (x =? c)%N then strip_prefix pre' s' else None
  | _ :: _, [] => None
  end.

Definition guid_colon : list N := Text.bytes_of "guid:".
Arguments guid_colon : simpl never.

(** The token that a match starting exactly at the head of [s] captures. *)
Definition guid_at (s : list N) : option (list N) :=
  match strip_prefix guid_colon s with
  | Some r =>
      match run Re.is_hex (skip Re.is_space r) with
      | [] => None
      | tok => Some tok
      end
  | None => None
  end.

(** The token of the leftmost position that has a match. *)
Fixpoint first_guid (s : list N) : option (list N) :=
  match guid_at s with
  | Some tok => Some tok
  | None =>
      match s with
      | [] => None
      | _ :: s' => first_guid s'
      end
  end.

(** [text] has, after [pre], the word [guid:], then the white space [ws],
    then a character of [[a-f0-9]]. *)
Definition guid_occurrence (text pre ws : list N) (c : N) (rest : list N)
  : Prop :=
  text = pre ++ guid_colon ++ ws ++ c :: rest
  ∧ Forall (λ x, Re.is_space x = true) ws
  ∧ Re.is_hex c = true.

(** [tok] is a maximal run of [[a-f0-9]] in front of [rest]. *)
Definition maximal_hex_run (tok rest : list N) : Prop :=
  Forall (λ x, Re.is_hex x = true) tok
  ∧ match rest with
    | [] => True
    | x :: _ => Re.is_hex x = false
    end.

(** The value [extract_guid] returns, without the console. *)
Definition guid_of (w : FS.world) (meta_file_path : string) : option string :=
  match Text.read_text w meta_file_path with
  | inl _ => None
  | inr content => Text.to_string <$> first_guid content
  end.

(** ** Notions used in the statements *)

(** The diagnostics [extract_guid] prints for a path: the error of a failed
    read, nothing otherwise. *)
Definition read_diagnostics (w : FS.world) (p : string) : list message :=
  match Text.read_text w p with
  | inl e => [MsgErrorReading p e]
  | inr _ => []
  end.

(** The file that the loop body copies as [asset]: the value of
    ['asset'] when [not asset['is_folder'] and asset['asset']] holds. *)
Definition wanted_asset (a : asset_record) : option string :=
  match asset a with
  | Some file_path =>
      if negb (is_folder a) && Str.truthy file_path then Some file_path else None
  | None => None
  end.

(** The state in which the loop starts: the temporary directory is there
    and empty. *)
Definition fresh_state : state :=
  {| tmp := Some ∅; read_only := ∅; created := []; out := None; console := [] |}.

(** The state after [tempfile.mkdtemp]. *)
Definition started (s : state) : state :=
  {| tmp := Some ∅; read_only := ∅; created := [];
     out := out s; console := console s |}.

(** Standard output takes each of the lines [ms]. *)
Definition prints (w : FS.world) (ms : list message) : bool :=
  forallb (λ m, bool_decide (FS.print_error w m = None)) ms.

(** The state in which [tempfile.mkdtemp] is called. *)
Definition announced (w : FS.world) (output_path assets_folder : string)
    (s : state) : state :=
  add_console [MsgCreating output_path; MsgAssetsFolder assets_folder;
               MsgFound (length (get_all_assets w assets_folder))] s.

(** What stops [create_unitypackage] before [tempfile.mkdtemp] is called,
    if anything: the first of its [print]s that raises, or the
    [ValueError] of [os.walk]. *)
Definition prelude_error (w : FS.world) (output_path assets_folder : string)
  : option exn :=
  match FS.print_error w (MsgCreating output_path) with
  | Some e => Some e
  | None =>
      match FS.print_error w (MsgAssetsFolder assets_folder) with
      | Some e => Some e
      | None =>
          if Str.has_nul assets_folder then Some ValueError
          else FS.print_error w
                 (MsgFound (length (get_all_assets w assets_folder)))
      end
  end.

(** Does the name hold a separator? *)
Fixpoint has_sep (s : string) : bool :=
  match s with
  | EmptyString => false
  | String c r => Ascii.eqb c OsPath.sep || has_sep r
  end.

(** A name of a directory entry: one non-empty path component. *)
Definition file_name (s : string) : Prop :=
  s ≠ EmptyString ∧ has_sep s = false.

(** A member at the top of the archive: its name is one component. *)
Definition top_level (m : member) : bool :=
  match Str.split OsPath.sep (member_name m) with
  | [_] => true
  | _ => false
  end.

(** The members [archiver] writes for a temporary directory [t] whose
    sub-directories were created in the order [created]. *)
Definition archive_of (w : FS.world) (created : list string)
    (t : gmap string (gmap string string)) : list member :=
  flat_map (λ g, tar_members g (default ∅ (t !! g))) (listing w created t).

(** *** One round of the loop

    What a round that returns has done, and when a round returns. *)

(** The files of the sub-directory after the round of [a], from the files
    [e0] it had. *)
Definition round_files (w : FS.world) (a : asset_record)
    (e0 : gmap string string) : gmap string string :=
  let bytes :=
    match Text.read_bytes w (meta a) with
    | inr b => b
    | inl _ => EmptyString
    end in
  let e1 := <["asset.meta" := bytes]> (<["pathname" := path a]> e0) in
  match wanted_asset a with
  | Some file_path =>
      match Text.read_bytes w file_path with
      | inr c => <["asset" := c]> e1
      | inl _ => e1
      end
  | None => e1
  end.

(** The temporary directory after the round of [a]. *)
Definition round_tmp (w : FS.world) (a : asset_record)
    (o : option (gmap string (gmap string string)))
  : option (gmap string (gmap string string)) :=
  match guid_of w (meta a) with
  | Some g =>
      let t := default ∅ o in
      Some (<[g := round_files w a (default ∅ (t !! g))]> t)
  | None => o
  end.

(** The files without write permission after the round of [a] in the
    sub-directory [g]: the copies have the permission of their source. *)
Definition round_read_only (w : FS.world) (a : asset_record) (g : string)
    (ro : gset (string * string)) : gset (string * string) :=
  let ro1 :=
    if FS.owner_write w (meta a) then ro ∖ {[(g, "asset.meta")]}
    else ro ∪ {[(g, "asset.meta")]} in
  match wanted_asset a with
  | Some file_path =>
      if FS.owner_write w file_path then ro1 ∖ {[(g, "asset")]}
      else ro1 ∪ {[(g, "asset")]}
  | None => ro1
  end.

(** The lines the round of [a] prints. *)
Definition round_lines (w : FS.world) (a : asset_record) : list message :=
  match guid_of w (meta a) with
  | Some g => [MsgAdding (path a) (Str.take 8 g)]
  | None => read_diagnostics w (meta a) ++ [MsgSkipping (path a)]
  end.

(** The state after the round of [a], when it returns. *)
Definition round_state (w : FS.world) (a : asset_record) (s : state) : state :=
  match guid_of w (meta a) with
  | Some g =>
      {| tmp := round_tmp w a (tmp s);
         read_only := round_read_only w a g (read_only s);
         created :=
           if bool_decide (is_Some (tmp_dir s !! g)) then created s
           else created s ++ [g];
         out := out s;
         console := console s ++ round_lines w a |}
  | None => add_console (round_lines w a) s
  end.

(** The file [f] of the sub-directory [g] is there and cannot be
    written. *)
Definition locked (s : state) (g f : string) : bool :=
  bool_decide (is_Some (default ∅ (tmp_dir s !! g) !! f) ∧ (g, f) ∈ read_only s).

(** Can the content that the round of [a] copies as [asset] be read? *)
Definition content_read (w : FS.world) (a : asset_record) : outcome unit :=
  match guid_of w (meta a), wanted_asset a with
  | Some _, Some file_path =>
      match Text.read_bytes w file_path with
      | inr _ => Ok tt
      | inl e => Raise e
      end
  | _, _ => Ok tt
  end.

(** The first exception that printing the lines [ms] raises, if any. *)
Fixpoint first_print_error (w : FS.world) (ms : list message) : option exn :=
  match ms with
  | [] => None
  | m :: ms' =>
      match FS.print_error w m with
      | Some e => Some e
      | None => first_print_error w ms'
      end
  end.

(** What the round of [a] raises in the state [s], if anything: the
    exception of a line that cannot be printed; for an asset with an
    identifier, then, that of an identifier too long for a name, of a path
    that cannot be written as UTF-8, of a content that cannot be read, or
    of a file to be overwritten that has no write permission. *)
Definition round_error (w : FS.world) (a : asset_record) (s : state)
  : option exn :=
  match first_print_error w (round_lines w a) with
  | Some e => Some e
  | None =>
      match guid_of w (meta a) with
      | Some g =>
          if NAME_MAX <? String.length g then Some (OSError g)
          else if locked s g "pathname"
          then Some (PermissionError (OsPath.join g "pathname"))
          else if negb (Text.encodable (path a)) then Some UnicodeEncodeError
          else if locked s g "asset.meta"
          then Some (PermissionError (OsPath.join g "asset.meta"))
          else
            match wanted_asset a with
            | Some file_path =>
                match Text.read_bytes w file_path with
                | inl e => Some e
                | inr _ =>
                    if locked s g "asset"
                    then Some (PermissionError (OsPath.join g "asset"))
                    else None
                end
            | None => None
            end
      | None => None
      end
  end.

(** ** Sample environments and trees *)

(** Standard output with the encoding [utf-8] and the error handler
    [strict]: a line that holds a path is refused when the bytes of the
    path are not UTF-8. *)
Definition utf8_console (m : message) : option exn :=
  match m with
  | MsgCreating p | MsgAssetsFolder p | MsgErrorReading p _ | MsgSkipping p
  | MsgAdding p _ | MsgOutput p =>
      if Text.encodable p then None else Some UnicodeEncodeError
  | _ => None
  end.

Definition is_ascii (s : string) : bool :=
  forallb (λ b, (b <? 128)%N) (Text.bytes_of s).

(** Standard output with the encoding [ascii]: the line [MsgCreated]
    holds a check mark, and is refused. *)
Definition ascii_console (m : message) : option exn :=
  match m with
  | MsgCreating p | MsgAssetsFolder p | MsgErrorReading p _ | MsgSkipping p
  | MsgAdding p _ | MsgOutput p =>
      if is_ascii p then None else Some UnicodeEncodeError
  | MsgCreated => Some UnicodeEncodeError
  | _ => None
  end.

(** A file system that lists a directory in the order of creation, as
    tmpfs does; names that were not created come last. *)
Fixpoint creation_rank (created : list string) (name : string) : nat :=
  match created with
  | [] => 0
  | c :: r => if String.eqb c name then 0 else S (creation_rank r name)
  end.

(** The order of creation, reversed. *)
Definition reverse_creation_rank (created : list string) (name : string) : nat :=
  length created - creation_rank created name.

Definition world_of (cwd : list (string * FS.node)) : FS.world :=
  {| FS.cwd := cwd;
     FS.tmp_available := true;
     FS.can_write := λ _, true;
     FS.print_error := utf8_console;
     FS.listdir_rank := creation_rank |}.

(** The scenario of the specification: [Assets/Deffatest] with
    [Scripts/Foo.cs], the side-cars of [Foo.cs], [Scripts] and of the root,
    and a [Broken.cs] whose side-car has no [guid:] line.  The identifier
    of the root is written in hexadecimal digits here. *)
Definition sample_tree : list (string * FS.node) :=
  [("Assets", FS.Dir
     [("Deffatest.meta", FS.File true true "guid: 0007ee789");
      ("Deffatest", FS.Dir
         [("Scripts.meta", FS.File true true "guid: def456");
          ("Scripts", FS.Dir
             [("Foo.cs", FS.File true true "class Foo {}");
              ("Foo.cs.meta", FS.File true true "guid: abc123")]);
          ("Broken.cs", FS.File true true "class Broken {}");
          ("Broken.cs.meta", FS.File true true "fileFormatVersion: 2")])])].

Definition sample_world : FS.world := world_of sample_tree.

Definition foo_cs : asset_record :=
  file_record "Assets/Deffatest/Scripts/Foo.cs"
              "Assets/Deffatest/Scripts/Foo.cs.meta".

(** The state of the sample run when the archive is opened. *)
Definition sample_staged : state :=
  (staging sample_world (get_all_assets sample_world "Assets/Deffatest")
     fresh_state).2.

(** A file and a directory whose side-cars carry the same identifier: the
    walk reaches [A/f.txt] before [A/sub]. *)
Definition collision_world : FS.world :=
  world_of
    [("A", FS.Dir
       [("f.txt", FS.File true true "data");
        ("f.txt.meta", FS.File true true "guid: abc");
        ("sub", FS.Dir []);
        ("sub.meta", FS.File true true "guid: abc")])].

(** The same tree checked out without write permission. *)
Definition read_only_collision_world : FS.world :=
  world_of
    [("A", FS.Dir
       [("f.txt", FS.File true false "data");
        ("f.txt.meta", FS.File true false "guid: abc");
        ("sub", FS.Dir []);
        ("sub.meta", FS.File true false "guid: abc")])].

(** The scenario of the specification with a side-car of the root that
    has no write permission. *)
Definition read_only_root_world : FS.world :=
  world_of
    [("Assets", FS.Dir
       [("Deffatest.meta", FS.File true false "guid: 0007ee789");
        ("Deffatest", FS.Dir
           [("Foo.cs", FS.File true true "class Foo {}");
            ("Foo.cs.meta", FS.File true true "guid: abc123")])])].

(** Side-cars for [extract_guid]: no white space after the colon;
    upper-case digits after lower-case ones; upper-case digits only; a
    no-break space (U+00A0, bytes C2 A0) after the colon; a carriage return
    and a line feed after it; a byte that is not UTF-8; a file that cannot
    be read; a directory; a missing file whose name is not UTF-8 (the
    byte FF). *)
Definition guid_world : FS.world :=
  world_of
    [("tight.meta", FS.File true true "guid:abc");
     ("mixed.meta", FS.File true true "guid: 0a1bCDEF");
     ("upper.meta", FS.File true true "guid: ABCDEF");
     ("nbsp.meta",
        FS.File true true ("guid:" +:+ String "194" (String "160" "abc")));
     ("crlf.meta",
        FS.File true true ("guid:" +:+ String "013" (String "010" "abc")));
     ("binary.meta", FS.File true true (String "255" "guid: abc"));
     ("locked.meta", FS.File false true "guid: abc");
     ("folder.meta", FS.Dir [])].

Definition unprintable_meta : string := String "255" ".meta".

(** A run that aborts after the temporary directory was made: the archive
    cannot be created. *)
Definition readonly_world : FS.world :=
  {| FS.cwd := sample_tree;
     FS.tmp_available := true;
     FS.can_write := λ _, false;
     FS.print_error := utf8_console;
     FS.listdir_rank := creation_rank |}.

(** The scenario of the specification on a console that takes ASCII
    only. *)
Definition ascii_world : FS.world :=
  {| FS.cwd := sample_tree;
     FS.tmp_available := true;
     FS.can_write := λ _, true;
     FS.print_error := ascii_console;
     FS.listdir_rank := creation_rank |}.

(** The scenario of the specification on a file system that lists the
    newest sub-directory first. *)
Definition newest_first_world : FS.world :=
  {| FS.cwd := sample_tree;
     FS.tmp_available := true;
     FS.can_write := λ _, true;
     FS.print_error := utf8_console;
     FS.listdir_rank := reverse_creation_rank |}.

(** A run that aborts inside the loop: the content of an asset cannot be
    read, after its side-car was. *)
Definition locked_world : FS.world :=
  world_of
    [("Assets", FS.Dir
       [("Deffatest", FS.Dir
           [("a.txt", FS.File false true "secret");
            ("a.txt.meta", FS.File true true "guid: 0123")])])].

(** The assets folder is missing, its side-car is not. *)
Definition orphan_world : FS.world :=
  world_of
    [("Assets", FS.Dir [("Deffatest.meta", FS.File true true "guid: 0abc")])].

(** [n] times the digit [0]. *)
Fixpoint zeros (n : nat) : string :=
  match n with
  | O => EmptyString
  | S n' => String "0" (zeros n')
  end.

(** The assets folder is missing; its side-car gives an identifier of 256
    digits. *)
Definition long_identifier_world : FS.world :=
  world_of
    [("Assets", FS.Dir
       [("Deffatest.meta", FS.File true true ("guid: " +:+ zeros 256))])].

(** A file whose name is not UTF-8 (the byte FF), with a side-car that has
    no [guid:] line, and one with a side-car that has one. *)
Definition unprintable_world : FS.world :=
  world_of
    [("A", FS.Dir
       [(String "255" ".cs", FS.File true true "class B {}");
        (String "255" ".cs.meta", FS.File true true "fileFormatVersion: 2");
        (String "254" ".cs", FS.File true true "class C {}");
        (String "254" ".cs.meta", FS.File true true "guid: c0de")])].

Definition unprintable_asset : asset_record :=
  file_record ("A/" +:+ String "255" ".cs") ("A/" +:+ String "255" ".cs.meta").

(** A file whose name holds a backslash. *)
Definition backslash_world : FS.world :=
  world_of
    [("A", FS.Dir
       [("b\c.cs", FS.File true true "class C {}");
        ("b\c.cs.meta", FS.File true true "guid: 5c")])].

Definition backslash_asset : asset_record :=
  file_record "A/b\c.cs" "A/b\c.cs.meta".

(** ** The wording of the specification, where the code differs *)

(** The pattern as the specification words it: [guid:], white space, a
    lower-case hexadecimal token. *)
Definition spec_guid_pattern : Re.regex :=
  Re.literal "guid:"
    (Re.Cat (Re.Plus (Re.Class Re.is_space))
            (Re.Group (Re.Plus (Re.Class Re.is_hex)))).

(** What the specification says of a readable file without a match of
    that pattern: the result is [None]. *)
Definition absent_without_spec_match (w : FS.world) (p : string) : Prop :=
  ∀ text s,
    Text.read_text w p = inr text →
    Re.search spec_guid_pattern text = None →
    (extract_guid w p s).1 = Ok None.

(** What the specification says of an asset without identifier: its round
    returns, so that the run continues. *)
Definition skipped_asset_continues (w : FS.world) (a : asset_record) : Prop :=
  guid_of w (meta a) = None →
  ∀ s, ∃ s', stage_asset w a s = (Ok tt, s').

(** The sub-directory that the round of [a] makes in an empty temporary
    directory: the files that reflect [a] alone. *)
Definition entry_of (w : FS.world) (a : asset_record)
  : option (gmap string string) :=
  match guid_of w (meta a) with
  | Some g => tmp_dir (stage_asset w a fresh_state).2 !! g
  | None => None
  end.

(** What the specification says of two assets with one identifier: the
    entry that survives the staging phase is the entry of the later one. *)
Definition later_entry_survives (w : FS.world) (assets : list asset_record)
  : Prop :=
  ∀ s' i j a b g,
    staging w assets fresh_state = (Ok tt, s') →
    i < j → assets !! i = Some a → assets !! j = Some b →
    guid_of w (meta a) = Some g → guid_of w (meta b) = Some g →
    (∀ k c, j < k → assets !! k = Some c → guid_of w (meta c) ≠ Some g) →
    tmp_dir s' !! g = entry_of w b.

(** What the specification says of a missing assets folder: the run
    returns, where the temporary directory and the archive can be made. *)
Definition missing_folder_run_returns (w : FS.world)
    (output_path assets_folder : string) : Prop :=
  FS.resolve w assets_folder = None →
  FS.tmp_available w = true →
  FS.can_write w output_path = true →
  ∀ s, ∃ s', create_unitypackage w output_path assets_folder s = (Ok tt, s').

(** ** Tools for the proofs *)

(** The greedy star of a class, unfolded on the input. *)
Fixpoint star_class (p : N → bool) (k : Re.cont) (s : list N)
    (cap : Re.captures) : option Re.captures :=
  match s with
  | x :: s' =>
      if p x then
        match star_class p k s' cap with
        | Some r => Some r
        | None => k s cap
        end
      else k s cap
  | [] => k s cap
  end.

(** Induction on the nodes of a tree. *)
Section node_induction.
Variable P : FS.node → Prop.
Hypothesis P_file : ∀ r ow c, P (FS.File r ow c).
Hypothesis P_dir : ∀ es, Forall (λ e, P e.2) es → P (FS.Dir es).
Fixpoint node_induction (n : FS.node) : P n :=
  match n with
  | FS.File r ow c => P_file r ow c
  | FS.Dir es =>
      P_dir es
        ((fix all (l : list (string * FS.node)) : Forall (λ e, P e.2) l :=
            match l with
            | [] => @List.Forall_nil _ (λ e, P e.2)
            | (name, child) :: l' =>
                @List.Forall_cons _ (λ e, P e.2) (name, child) l'
                  (node_induction child) (all l')
            end) es)
  end.
End node_induction.

(** The sub-directory loop of [walk_node], named. *)
Fixpoint walk_entries (top : string) (l : list (string * FS.node))
  : list (string * list string * list string) :=
  match l with
  | [] => []
  | (name, child) :: l' =>
      match child with
      | FS.Dir _ => FS.walk_node (OsPath.join top name) child ++ walk_entries top l'
      | FS.File _ _ _ => walk_entries top l'
      end
  end.

(** ** Notions used in the further properties *)

(** The characters of a [string]. *)
Definition chars (s : string) : list ascii := String.list_ascii_of_string s.

(** A character of [[a-f0-9]]. *)
Definition hex_char (c : ascii) : Prop := Re.is_hex (N_of_ascii c) = true.

(** The three names a staging entry may hold. *)
Definition entry_name (f : string) : Prop :=
  f = "pathname" ∨ f = "asset.meta" ∨ f = "asset".

(** What holds of the temporary directory [t] once the rounds of [l] have
    run on an empty one. *)
Definition staged_by (w : FS.world) (l : list asset_record)
    (t : gmap string (gmap string string)) : Prop :=
  (∀ a g, a ∈ l → guid_of w (meta a) = Some g → is_Some (t !! g))
  ∧ ∀ g e, t !! g = Some e →
      (∃ a bytes, a ∈ l ∧ guid_of w (meta a) = Some g
         ∧ Text.read_bytes w (meta a) = inr bytes
         ∧ e !! "pathname" = Some (path a)
         ∧ e !! "asset.meta" = Some bytes)
      ∧ (∀ f, is_Some (e !! f) → entry_name f)
      ∧ (∀ c, e !! "asset" = Some c →
           ∃ b file_path, b ∈ l ∧ guid_of w (meta b) = Some g
             ∧ wanted_asset b = Some file_path
             ∧ Text.read_bytes w file_path = inr c)
      ∧ ((∃ b, b ∈ l ∧ guid_of w (meta b) = Some g
              ∧ is_Some (wanted_asset b)) →
         is_Some (e !! "asset")).

(** ** The console *)

(** A progress line: the line of an asset that is added or skipped. *)
Definition progress (m : message) : bool :=
  match m with
  | MsgAdding _ _ | MsgSkipping _ => true
  | _ => false
  end.

(** The progress line of an asset. *)
Definition progress_line (w : FS.world) (a : asset_record) : message :=
  match guid_of w (meta a) with
  | Some g => MsgAdding (path a) (Str.take 8 g)
  | None => MsgSkipping (path a)
  end.

(** ** Names of a file system *)

(** No entry of the tree has a name that begins with the separator: in a
    file system a name holds no separator at all. *)
Fixpoint relative_names (n : FS.node) : bool :=
  match n with
  | FS.File _ _ _ => true
  | FS.Dir es =>
      (fix all (l : list (string * FS.node)) : bool :=
         match l with
         | [] => true
         | (name, child) :: l' =>
             negb (Str.startswith_char OsPath.sep name)
             && relative_names child && all l'
         end) es
  end.

(** * Properties *)

(** ** The library functions on small inputs *)

Example join_examples :
  OsPath.join "a" "b" = "a/b" ∧ OsPath.join "a/" "b" = "a/b"
  ∧ OsPath.join EmptyString "b" = "b" ∧ OsPath.join "a" "/b" = "/b"
  ∧ OsPath.join "a" EmptyString = "a/".
Proof. repeat split. Qed.

Example exists_examples :
  FS.exists_ collision_world EmptyString = false
  ∧ FS.exists_ collision_world "A/f.txt" = true
  ∧ FS.exists_ collision_world "A/f.txt/" = false
  ∧ FS.exists_ collision_world "A/sub/" = true
  ∧ FS.exists_ collision_world "A/./sub/.." = true
  ∧ FS.exists_ collision_world "A/f.txt/.." = false
  ∧ FS.exists_ collision_world "A/none" = false.
Proof. repeat split. Qed.

Example walk_examples :
  FS.walk collision_world "A"
  = [("A", ["sub"], ["f.txt"; "f.txt.meta"; "sub.meta"]); ("A/sub", [], [])]
  ∧ FS.walk collision_world "missing" = []
  ∧ FS.walk collision_world EmptyString = []
  ∧ FS.walk collision_world "A/f.txt" = [].
Proof. repeat split. Qed.

Example search_examples :
  Re.search guid_pattern (Text.bytes_of "guid: XYZ guid:  0a1bCD")
  = Some (Some (Text.bytes_of "0a1b"))
  ∧ Re.search guid_pattern (Text.bytes_of "guid: ABC") = None
  ∧ Re.search spec_guid_pattern (Text.bytes_of "guid: abc")
    = Some (Some (Text.bytes_of "abc"))
  ∧ Re.search spec_guid_pattern (Text.bytes_of "guid:abc") = None.
Proof. repeat split. Qed.

(** The identifier [root789] that the scenario of the specification gives
    to the root is not hexadecimal: such a side-car has no match. *)
Example search_root789 :
  Re.search guid_pattern (Text.bytes_of "guid: root789") = None.
Proof. reflexivity. Qed.

(** ** The matcher on [guid_pattern] *)

Lemma hex_not_space c : Re.is_hex c = true → Re.is_space c = false.
Proof.
  unfold Re.is_hex, Re.is_space. intros H.
  apply not_true_is_false. intros Hs.
  repeat first
    [ rewrite orb_true_iff in H | rewrite andb_true_iff in H
    | rewrite N.leb_le in H
    | rewrite orb_true_iff in Hs | rewrite andb_true_iff in Hs
    | rewrite N.leb_le in Hs | rewrite N.eqb_eq in Hs ].
  lia.
Qed.

Lemma space_not_hex c : Re.is_space c = true → Re.is_hex c = false.
Proof.
  intros Hs. destruct (Re.is_hex c) eqn:E; [|done].
  apply hex_not_space in E. congruence.
Qed.

Lemma run_skip p s : run p s ++ skip p s = s.
Proof. induction s as [|x s IH]; simpl; [done|]. destruct (p x); simpl; congruence. Qed.

Lemma run_Forall p s : Forall (λ x, p x = true) (run p s).
Proof.
  induction s as [|x s IH]; simpl; [constructor|].
  destruct (p x) eqn:E; constructor; auto.
Qed.

Lemma skip_head p s : match skip p s with [] => True | x :: _ => p x = false end.
Proof. induction s as [|x s IH]; simpl; [done|]. destruct (p x) eqn:E; auto. Qed.

Lemma run_app p a b :
  Forall (λ x, p x = true) a →
  match b with [] => True | x :: _ => p x = false end →
  run p (a ++ b) = a ∧ skip p (a ++ b) = b.
Proof.
  induction 1 as [|x a Hx Ha IH]; intros Hb; simpl.
  - destruct b as [|y b]; simpl; [done|]. by rewrite Hb.
  - rewrite Hx. destruct (IH Hb) as [-> ->]. done.
Qed.

Lemma take_run p s : take (length s - length (skip p s)) s = run p s.
Proof.
  rewrite <- (run_skip p s) at 1 3.
  rewrite length_app.
  replace (length (run p s) + length (skip p s) - length (skip p s))
    with (length (run p s)) by lia.
  by rewrite take_app_length.
Qed.

Lemma star_loop_class p k fuel s cap :
  length s ≤ fuel →
  Re.star_loop (Re.rmatch (Re.Class p)) k fuel s cap = star_class p k s cap.
Proof.
  revert s cap. induction fuel as [|fuel IH]; intros s cap Hlen.
  - destruct s; simpl in *; [done | lia].
  - destruct s as [|x s]; simpl; [done|].
    destruct (p x); [|done].
    rewrite decide_True by lia.
    rewrite IH by (simpl in Hlen; lia). done.
Qed.

(** When the continuation cannot start on a character of the class, the
    star has to swallow the whole run. *)
Lemma star_class_blocked p k s cap :
  (∀ x s' cap', p x = true → k (x :: s') cap' = None) →
  star_class p k s cap = k (skip p s) cap.
Proof.
  intros Hk. induction s as [|x s IH]; simpl; [done|].
  destruct (p x) eqn:E; [|done].
  rewrite IH. destruct (k (skip p s) cap) eqn:Ek; [done|].
  by apply Hk.
Qed.

(** When the continuation always succeeds, the longest run wins. *)
Lemma star_class_greedy p k s cap :
  (∀ s' cap', is_Some (k s' cap')) →
  star_class p k s cap = k (skip p s) cap.
Proof.
  intros Hk. induction s as [|x s IH]; simpl; [done|].
  destruct (p x) eqn:E; [|done].
  rewrite IH. by destruct (Hk (skip p s) cap) as [r ->].
Qed.

Lemma rmatch_literal l r s cap k :
  Re.rmatch (foldr (λ c acc, Re.Cat (Re.Lit c) acc) r l) s cap k
  = match strip_prefix l s with
    | Some s' => Re.rmatch r s' cap k
    | None => None
    end.
Proof.
  revert s. induction l as [|c l IH]; intros s; simpl; [done|].
  destruct s as [|x s]; [done|].
  destruct (x =? c)%N; [apply IH | done].
Qed.

Lemma rmatch_Cat r1 r2 s cap k :
  Re.rmatch (Re.Cat r1 r2) s cap k
  = Re.rmatch r1 s cap (λ s' cap', Re.rmatch r2 s' cap' k).
Proof. reflexivity. Qed.

Lemma rmatch_Star r s cap k :
  Re.rmatch (Re.Star r) s cap k
  = Re.star_loop (Re.rmatch r) k (length s) s cap.
Proof. reflexivity. Qed.

Lemma rmatch_Group r s cap k :
  Re.rmatch (Re.Group r) s cap k
  = Re.rmatch r s cap (λ s' _, k s' (Some (take (length s - length s') s))).
Proof. reflexivity. Qed.

Lemma rmatch_Class p s cap k :
  Re.rmatch (Re.Class p) s cap k
  = match s with
    | x :: s' => if p x then k s' cap else None
    | [] => None
    end.
Proof. reflexivity. Qed.

(** A match of the pattern at the head of [s] captures [guid_at s]. *)
Lemma match_guid_pattern s :
  Re.match_ guid_pattern s = Some <$> guid_at s.
Proof.
  unfold Re.match_, guid_pattern, Re.literal, guid_at.
  rewrite rmatch_literal. fold guid_colon.
  destruct (strip_prefix guid_colon s) as [r|]; [|done].
  rewrite rmatch_Cat, rmatch_Star, star_loop_class by done.
  rewrite star_class_blocked.
  2:{ intros x s' cap' Hx. rewrite rmatch_Group. unfold Re.Plus.
      rewrite rmatch_Cat, rmatch_Class.
      by rewrite (space_not_hex x Hx). }
  rewrite rmatch_Group. unfold Re.Plus. rewrite rmatch_Cat, rmatch_Class.
  destruct (skip Re.is_space r) as [|x t] eqn:Esk; [done|].
  simpl run. destruct (Re.is_hex x) eqn:Ex; [|done].
  rewrite rmatch_Star, star_loop_class by done.
  rewrite star_class_greedy by (intros; eexists; done).
  simpl. do 3 f_equal.
  pose proof (take_run Re.is_hex (x :: t)) as Ht. simpl in Ht.
  rewrite Ex in Ht. exact Ht.
Qed.

Lemma first_guid_unfold s :
  first_guid s
  = match guid_at s with
    | Some tok => Some tok
    | None => match s with [] => None | _ :: s' => first_guid s' end
    end.
Proof. by destruct s. Qed.

Lemma search_unfold r s :
  Re.search r s
  = match Re.match_ r s with
    | Some cap => Some cap
    | None => match s with [] => None | _ :: s' => Re.search r s' end
    end.
Proof. by destruct s. Qed.

Lemma search_guid_pattern s :
  Re.search guid_pattern s = Some <$> first_guid s.
Proof.
  induction s as [|x s IH];
    rewrite search_unfold, first_guid_unfold, match_guid_pattern;
    destruct (guid_at _); simpl; auto.
Qed.

Lemma strip_prefix_Some l s r : strip_prefix l s = Some r ↔ s = l ++ r.
Proof.
  revert s. induction l as [|c l IH]; intros s; simpl.
  - split; congruence.
  - destruct s as [|x s]; [done|].
    destruct (N.eqb_spec x c) as [->|Hne].
    + rewrite IH. split; congruence.
    + split; [done | congruence].
Qed.

Lemma strip_prefix_app l r : strip_prefix l (l ++ r) = Some r.
Proof. by apply strip_prefix_Some. Qed.

(** [guid_at] against the plain reading of the pattern. *)
Lemma guid_at_Some s tok :
  guid_at s = Some tok ↔
  ∃ ws rest, s = guid_colon ++ ws ++ tok ++ rest
    ∧ Forall (λ x, Re.is_space x = true) ws
    ∧ tok ≠ [] ∧ maximal_hex_run tok rest.
Proof.
  unfold guid_at. split.
  - destruct (strip_prefix guid_colon s) as [r|] eqn:Er; [|done].
    apply strip_prefix_Some in Er.
    destruct (run Re.is_hex (skip Re.is_space r)) as [|c tk] eqn:Et; [done|].
    intros [= <-].
    exists (run Re.is_space r), (skip Re.is_hex (skip Re.is_space r)).
    rewrite <- Et, run_skip, run_skip. repeat split; auto.
    + apply run_Forall.
    + by rewrite Et.
    + apply run_Forall.
    + apply skip_head.
  - intros (ws & rest & -> & Hws & Hne & Hhex & Hrest).
    rewrite strip_prefix_app.
    destruct tok as [|c tk]; [done|].
    destruct (run_app Re.is_space ws ((c :: tk) ++ rest) Hws) as [_ ->].
    { simpl. apply hex_not_space. by inversion Hhex. }
    destruct (run_app Re.is_hex (c :: tk) rest Hhex Hrest) as [-> _]. done.
Qed.

Lemma guid_at_None s :
  guid_at s = None ↔ ∀ ws c rest, ¬ guid_occurrence s [] ws c rest.
Proof.
  split.
  - intros Hn ws c rest (Hs & Hws & Hc). cbn in Hs.
    unfold guid_at in Hn. subst s. rewrite strip_prefix_app in Hn.
    destruct (run_app Re.is_space ws (c :: rest) Hws) as [_ Hsk].
    { by apply hex_not_space. }
    rewrite Hsk in Hn. cbn in Hn. by rewrite Hc in Hn.
  - intros Hno. destruct (guid_at s) as [tok|] eqn:E; [|done].
    apply guid_at_Some in E as (ws & rest & -> & Hws & Hne & Hhex & _).
    destruct tok as [|c tk]; [done|].
    exfalso. apply (Hno ws c (tk ++ rest)). repeat split; auto.
    by inversion Hhex.
Qed.

Lemma guid_occurrence_cons x text pre ws c rest :
  guid_occurrence (x :: text) (x :: pre) ws c rest
  ↔ guid_occurrence text pre ws c rest.
Proof.
  unfold guid_occurrence. cbn. split.
  - intros ([= ->] & ? & ?). done.
  - intros (-> & ? & ?). done.
Qed.

(** No position of the text has a match. *)
Lemma first_guid_None text :
  first_guid text = None ↔ ∀ pre ws c rest, ¬ guid_occurrence text pre ws c rest.
Proof.
  induction text as [|x text IH].
  - rewrite first_guid_unfold. split.
    + intros _ pre ws c rest (Hs & _). destruct pre; discriminate.
    + intros Hno. destruct (guid_at []) eqn:E; [|done].
      exfalso. assert (guid_at [] = None) as Hn; [|congruence].
      apply guid_at_None. intros ws c rest. apply Hno.
  - rewrite first_guid_unfold. split.
    + destruct (guid_at (x :: text)) eqn:E; [done|].
      intros Hn pre ws c rest Hocc.
      destruct pre as [|y pre].
      * rewrite guid_at_None in E. by apply (E ws c rest).
      * assert (y = x) as -> by (destruct Hocc as ([= ->] & _); done).
        rewrite guid_occurrence_cons in Hocc.
        rewrite IH in Hn. by apply (Hn pre ws c rest).
    + intros Hno.
      assert (guid_at (x :: text) = None) as ->.
      { apply guid_at_None. intros ws c rest. apply Hno. }
      apply IH. intros pre ws c rest Hocc.
      apply (Hno (x :: pre) ws c rest). by apply guid_occurrence_cons.
Qed.

(** The leftmost position that has a match decides the token. *)
Lemma first_guid_leftmost pre ws tok rest :
  Forall (λ x, Re.is_space x = true) ws →
  tok ≠ [] → maximal_hex_run tok rest →
  (∀ pre' ws' c' rest',
     guid_occurrence (pre ++ guid_colon ++ ws ++ tok ++ rest) pre' ws' c' rest' →
     length pre ≤ length pre') →
  first_guid (pre ++ guid_colon ++ ws ++ tok ++ rest) = Some tok.
Proof.
  intros Hws Hne Hmax. induction pre as [|x pre IH]; intros Hmin.
  - rewrite first_guid_unfold.
    assert (guid_at ([] ++ guid_colon ++ ws ++ tok ++ rest) = Some tok) as ->; [|done].
    apply guid_at_Some. by exists ws, rest.
  - rewrite first_guid_unfold.
    assert (guid_at ((x :: pre) ++ guid_colon ++ ws ++ tok ++ rest) = None) as ->.
    { apply guid_at_None. intros ws' c' rest' Hocc.
      apply Hmin in Hocc. cbn in Hocc. lia. }
    cbn. apply IH. intros pre' ws' c' rest' Hocc.
    apply (guid_occurrence_cons x) in Hocc. apply Hmin in Hocc.
    cbn in Hocc. lia.
Qed.

(** Conversely, what [first_guid] returns comes from the leftmost match. *)
Lemma first_guid_Some text tok :
  first_guid text = Some tok →
  ∃ pre ws rest,
    text = pre ++ guid_colon ++ ws ++ tok ++ rest
    ∧ Forall (λ x, Re.is_space x = true) ws
    ∧ tok ≠ [] ∧ maximal_hex_run tok rest
    ∧ ∀ pre' ws' c' rest',
        guid_occurrence text pre' ws' c' rest' → length pre ≤ length pre'.
Proof.
  induction text as [|x text IH]; rewrite first_guid_unfold.
  - destruct (guid_at []) eqn:E; [|done]. intros [= ->].
    apply guid_at_Some in E as (ws & rest & Hs & Hws & Hne & Hmax).
    exists [], ws, rest. do 4 (split; [done|]). intros. cbn. lia.
  - destruct (guid_at (x :: text)) eqn:E.
    + intros [= ->].
      apply guid_at_Some in E as (ws & rest & Hs & Hws & Hne & Hmax).
      exists [], ws, rest. do 4 (split; [done|]). intros. cbn. lia.
    + intros Hf. destruct (IH Hf) as (pre & ws & rest & -> & Hws & Hne & Hmax & Hmin).
      exists (x :: pre), ws, rest. do 4 (split; [done|]).
      intros pre' ws' c' rest' Hocc. destruct pre' as [|y pre'].
      * rewrite guid_at_None in E. by destruct (E ws' c' rest').
      * assert (y = x) as -> by (destruct Hocc as ([= ->] & _); done).
        rewrite guid_occurrence_cons in Hocc. apply Hmin in Hocc. cbn. lia.
Qed.

(** ** Running [extract_guid] *)

Lemma add_console_nil s : add_console [] s = s.
Proof. destruct s. unfold add_console. simpl. by rewrite app_nil_r. Qed.

Lemma add_console_app ms1 ms2 s :
  add_console ms2 (add_console ms1 s) = add_console (ms1 ++ ms2) s.
Proof. unfold add_console. simpl. by rewrite app_assoc. Qed.

Lemma extract_guid_run w p s :
  extract_guid w p s
  = match Text.read_text w p with
    | inl e =>
        match FS.print_error w (MsgErrorReading p e) with
        | None => (Ok None, add_console [MsgErrorReading p e] s)
        | Some e' => (Raise e', s)
        end
    | inr _ => (Ok (guid_of w p), s)
    end.
Proof.
  unfold extract_guid, try_except, bind, lift, guid_of, print.
  destruct (Text.read_text w p) as [e|text]; simpl.
  - by destruct (FS.print_error w (MsgErrorReading p e)).
  - rewrite search_guid_pattern. by destruct (first_guid text).
Qed.

Lemma guid_of_Some w p g :
  guid_of w p = Some g ↔
  ∃ text tok, Text.read_text w p = inr text
    ∧ first_guid text = Some tok ∧ g = Text.to_string tok.
Proof.
  unfold guid_of. destruct (Text.read_text w p) as [e|text].
  - split; [done | by intros (? & ? & ? & _)].
  - split.
    + destruct (first_guid text) as [tok|] eqn:E; simpl; [|done].
      intros [= <-]. by exists text, tok.
    + intros (? & tok & [= <-] & -> & ->). done.
Qed.

Lemma guid_of_readable w p g :
  guid_of w p = Some g → ∃ c, Text.read_bytes w p = inr c.
Proof.
  intros (text & tok & Hr & _)%guid_of_Some.
  unfold Text.read_text in Hr.
  destruct (Text.read_bytes w p) as [e|c]; [done | eauto].
Qed.

Lemma guid_of_nonempty w p g : guid_of w p = Some g → g ≠ EmptyString.
Proof.
  intros (text & tok & _ & Hf & ->)%guid_of_Some.
  apply first_guid_Some in Hf as (_ & _ & _ & _ & _ & Hne & _).
  destruct tok; [done|]. discriminate.
Qed.

Lemma guid_of_truthy w p g : guid_of w p = Some g → Str.truthy g = true.
Proof. intros H%guid_of_nonempty. by destruct g. Qed.

Lemma read_diagnostics_guid w p g :
  guid_of w p = Some g → read_diagnostics w p = [].
Proof.
  intros (text & tok & Hr & _)%guid_of_Some.
  unfold read_diagnostics. by rewrite Hr.
Qed.

Lemma extract_guid_Some w p g s :
  guid_of w p = Some g → extract_guid w p s = (Ok (Some g), s).
Proof.
  intros Hg. rewrite extract_guid_run.
  destruct (guid_of_Some w p g) as [(text & tok & -> & _) _]; [done|].
  by rewrite Hg.
Qed.

(** ** Sequences of computations *)

Lemma bind_ok {A B} (m : M A) (f : A → M B) s a s' :
  m s = (Ok a, s') → bind m f s = f a s'.
Proof. unfold bind. by intros ->. Qed.

Lemma bind_raise {A B} (m : M A) (f : A → M B) s e s' :
  m s = (Raise e, s') → bind m f s = (Raise e, s').
Proof. unfold bind. by intros ->. Qed.

Lemma bind_Ok_inv {A B} (m : M A) (f : A → M B) s b s' :
  bind m f s = (Ok b, s') →
  ∃ a s1, m s = (Ok a, s1) ∧ f a s1 = (Ok b, s').
Proof.
  unfold bind. destruct (m s) as [[a|e] s1]; [eauto | done].
Qed.

(** One step of a sequence: runs the first computation with [tac], which
    has to show that it returns. *)
Ltac run_step tac := etrans; [apply bind_ok; tac|].

Lemma print_run w m s :
  FS.print_error w m = None → print w m s = (Ok tt, add_console [m] s).
Proof. unfold print. by intros ->. Qed.

Lemma print_Ok w m s u s' :
  print w m s = (Ok u, s') →
  FS.print_error w m = None ∧ s' = add_console [m] s.
Proof.
  unfold print. destruct (FS.print_error w m); [done|]. by intros [= <- <-].
Qed.

Lemma prints_cons w m ms :
  prints w (m :: ms) = true ↔ FS.print_error w m = None ∧ prints w ms = true.
Proof.
  unfold prints. simpl. rewrite andb_true_iff, bool_decide_eq_true. done.
Qed.

Lemma prints_app w ms1 ms2 :
  prints w (ms1 ++ ms2) = true ↔ prints w ms1 = true ∧ prints w ms2 = true.
Proof. unfold prints. by rewrite forallb_app, andb_true_iff. Qed.

Lemma prints_elem w ms :
  prints w ms = true ↔ ∀ m, m ∈ ms → FS.print_error w m = None.
Proof.
  unfold prints. rewrite forallb_forall. split.
  - intros H m Hm. apply list_elem_of_In in Hm.
    by eapply bool_decide_eq_true_1, H.
  - intros H m Hm. apply bool_decide_eq_true_2, H. by apply list_elem_of_In.
Qed.

Lemma first_print_error_None w ms :
  first_print_error w ms = None ↔ prints w ms = true.
Proof.
  induction ms as [|m ms IH]; [done|].
  rewrite prints_cons. simpl.
  destruct (FS.print_error w m); [|by rewrite IH; intuition].
  split; [done | by intros [? _]].
Qed.

(** ** The temporary directory *)

Lemma makedirs_run name s :
  makedirs name s
  = if NAME_MAX <? String.length name then (Raise (OSError name), s)
    else
      (Ok tt,
       set_created
         (if bool_decide (is_Some (tmp_dir s !! name)) then created s
          else created s ++ [name])
         (set_tmp
            (Some (<[name := default ∅ (tmp_dir s !! name)]> (tmp_dir s))) s)).
Proof.
  unfold makedirs. destruct (NAME_MAX <? String.length name); [done|].
  destruct (tmp_dir s !! name) as [e|] eqn:E; simpl.
  - rewrite insert_id by done.
    unfold tmp_dir in *. destruct s as [[t|] ro cr o c]; simpl in *; [done|].
    by rewrite lookup_empty in E.
  - done.
Qed.

Lemma locked_spec s dir file files :
  tmp_dir s !! dir = Some files →
  locked s dir file
  = bool_decide (is_Some (files !! file) ∧ (dir, file) ∈ read_only s).
Proof. unfold locked. by intros ->. Qed.

Lemma put_file_run dir file content s files :
  tmp_dir s !! dir = Some files →
  (open_w dir file >> write_file dir file content) s
  = if locked s dir file
    then (Raise (PermissionError (OsPath.join dir file)), s)
    else (Ok tt,
          set_tmp (Some (<[dir := <[file := content]> files]> (tmp_dir s))) s).
Proof.
  intros Hd. rewrite (locked_spec _ _ _ _ Hd). unfold bind, open_w. rewrite Hd.
  destruct (bool_decide _); [done|].
  unfold write_file, tmp_dir. simpl. rewrite lookup_insert_eq.
  by rewrite !insert_insert_eq.
Qed.

Lemma write_text_run dir file text s files :
  tmp_dir s !! dir = Some files →
  write_text dir file text s
  = if locked s dir file
    then (Raise (PermissionError (OsPath.join dir file)), s)
    else if Text.encodable text
    then (Ok tt,
          set_tmp (Some (<[dir := <[file := text]> files]> (tmp_dir s))) s)
    else (Raise UnicodeEncodeError,
          set_tmp (Some (<[dir := <[file := EmptyString]> files]> (tmp_dir s)))
            s).
Proof.
  intros Hd. unfold write_text.
  destruct (Text.encodable text).
  - by apply put_file_run.
  - rewrite (locked_spec _ _ _ _ Hd). unfold bind, open_w. rewrite Hd.
    by destruct (bool_decide _).
Qed.

Lemma copy2_run w src dir file s files :
  tmp_dir s !! dir = Some files →
  copy2 w src dir file s
  = match Text.read_bytes w src with
    | inl e => (Raise e, s)
    | inr c =>
        if locked s dir file
        then (Raise (PermissionError (OsPath.join dir file)), s)
        else
          (Ok tt,
           set_read_only
             (if FS.owner_write w src then read_only s ∖ {[(dir, file)]}
              else read_only s ∪ {[(dir, file)]})
             (set_tmp (Some (<[dir := <[file := c]> files]> (tmp_dir s))) s))
    end.
Proof.
  intros Hd. unfold copy2.
  destruct (Text.read_bytes w src) as [e|c]; [done|].
  change (bind (lift (inr c)) ?f s) with (f c s).
  rewrite (locked_spec _ _ _ _ Hd).
  unfold bind at 1. unfold open_w. rewrite Hd.
  destruct (bool_decide _); [done|].
  unfold bind, write_file, chmod, tmp_dir. simpl. rewrite lookup_insert_eq.
  by rewrite !insert_insert_eq.
Qed.

Lemma elem_of_chmod (ro : gset (string * string)) x y (b : bool) :
  x ≠ y → x ∈ (if b then ro ∖ {[y]} else ro ∪ {[y]}) ↔ x ∈ ro.
Proof.
  intros Hne. destruct b.
  - rewrite elem_of_difference, elem_of_singleton. tauto.
  - rewrite elem_of_union, elem_of_singleton. tauto.
Qed.

(** ** One round of the staging loop *)

Lemma stage_asset_skip w a s :
  guid_of w (meta a) = None →
  stage_asset w a s
  = match first_print_error w (round_lines w a) with
    | Some e =>
        (Raise e,
         match Text.read_text w (meta a) with
         | inl e' =>
             match FS.print_error w (MsgErrorReading (meta a) e') with
             | None => add_console [MsgErrorReading (meta a) e'] s
             | Some _ => s
             end
         | inr _ => s
         end)
    | None => (Ok tt, add_console (round_lines w a) s)
    end.
Proof.
  intros Hg. unfold stage_asset, bind, round_lines, read_diagnostics.
  rewrite extract_guid_run, Hg.
  destruct (Text.read_text w (meta a)) as [e|text]; simpl.
  - destruct (FS.print_error w (MsgErrorReading (meta a) e)); [done|].
    unfold print. destruct (FS.print_error w (MsgSkipping (path a))); [done|].
    by rewrite add_console_app.
  - unfold print. by destruct (FS.print_error w (MsgSkipping (path a))).
Qed.

Lemma copy_wanted w a g :
  match asset a with
  | Some file_path =>
      if negb (is_folder a) && Str.truthy file_path
      then copy2 w file_path g "asset"
      else ret tt
  | None => ret tt
  end
  = match wanted_asset a with
    | Some file_path => copy2 w file_path g "asset"
    | None => ret tt
    end.
Proof.
  unfold wanted_asset. destruct (asset a) as [fp|]; [|done].
  by destruct (negb (is_folder a) && Str.truthy fp).
Qed.

(** A round in full: its outcome is the one [round_error] gives, and when
    it returns the state is [round_state]; the archive is not touched. *)
Lemma stage_asset_run w a s :
  ∃ s',
    stage_asset w a s
    = (match round_error w a s with Some e => Raise e | None => Ok tt end, s')
    ∧ (round_error w a s = None → s' = round_state w a s)
    ∧ out s' = out s
    ∧ (is_Some (tmp s) → is_Some (tmp s'))
    ∧ (∀ g', guid_of w (meta a) ≠ Some g' →
         tmp_dir s' !! g' = tmp_dir s !! g')
    ∧ (∀ g', is_Some (tmp_dir s !! g') → is_Some (tmp_dir s' !! g'))
    ∧ (∀ g', is_Some (tmp_dir s' !! g') →
         is_Some (tmp_dir s !! g') ∨ guid_of w (meta a) = Some g').
Proof.
  unfold round_error, round_state.
  destruct (guid_of w (meta a)) as [g|] eqn:Hg.
  2:{ rewrite (stage_asset_skip _ _ _ Hg).
      destruct (first_print_error w (round_lines w a)) as [e|];
        eexists; (split; [reflexivity|]).
      - split; [done|].
        destruct (Text.read_text w (meta a)) as [e'|];
          [destruct (FS.print_error w _)|]; split_and!; auto; done.
      - split_and!; auto; done. }
  destruct (guid_of_readable _ _ _ Hg) as [bytes Hbytes].
  unfold stage_asset.
  rewrite (bind_ok _ _ _ _ _ (extract_guid_Some _ _ _ s Hg)).
  rewrite (guid_of_truthy _ _ _ Hg). cbn [negb].
  assert (round_lines w a = [MsgAdding (path a) (Str.take 8 g)]) as Hlines
    by (unfold round_lines; by rewrite Hg).
  rewrite Hlines. cbn [first_print_error].
  assert (∀ (s1 : state) e,
            tmp_dir s1 = <[g := e]> (tmp_dir s) →
            is_Some (tmp s1) →
            out s1 = out s →
            (is_Some (tmp s) → is_Some (tmp s1))
            ∧ (∀ g', Some g ≠ Some g' → tmp_dir s1 !! g' = tmp_dir s !! g')
            ∧ (∀ g', is_Some (tmp_dir s !! g') → is_Some (tmp_dir s1 !! g'))
            ∧ (∀ g', is_Some (tmp_dir s1 !! g') →
                 is_Some (tmp_dir s !! g') ∨ Some g = Some g')) as Hframe.
  { intros s1 e Ht Hs1 _. rewrite Ht. split_and!.
    - done.
    - intros g' Hne. apply lookup_insert_ne. congruence.
    - intros g'. destruct (decide (g = g')) as [->|Hne].
      + rewrite lookup_insert_eq. eauto.
      + by rewrite lookup_insert_ne.
    - intros g'. destruct (decide (g = g')) as [->|Hne]; [auto|].
      rewrite lookup_insert_ne by done. auto. }
  unfold print at 1. unfold bind at 1.
  destruct (FS.print_error w (MsgAdding (path a) (Str.take 8 g))) as [e|] eqn:Hp.
  { eexists. split; [reflexivity|]. split_and!; auto; done. }
  unfold bind at 1. rewrite makedirs_run.
  change (tmp_dir (add_console _ s)) with (tmp_dir s).
  destruct (NAME_MAX <? String.length g) eqn:Hlen.
  { eexists. split; [reflexivity|]. split_and!; auto; done. }
  set (e0 := default ∅ (tmp_dir s !! g)).
  set (cr := if bool_decide (is_Some (tmp_dir s !! g)) then created s
             else created s ++ [g]).
  set (s2 := set_created _ _).
  assert (tmp_dir s2 = <[g := e0]> (tmp_dir s)) as Ht2 by done.
  assert (tmp_dir s2 !! g = Some e0) as Hd2
    by (rewrite Ht2; apply lookup_insert_eq).
  assert (locked s2 g "pathname" = locked s g "pathname") as Hl1.
  { unfold locked. by rewrite Hd2. }
  unfold bind at 1. rewrite (write_text_run _ _ _ _ _ Hd2), Hl1.
  destruct (locked s g "pathname") eqn:Hlk1.
  { eexists. split; [reflexivity|]. split; [done|].
    split; [done|]. apply (Hframe s2 e0); [done | by eexists | done]. }
  destruct (Text.encodable (path a)) eqn:Henc; cbn [negb].
  2:{ eexists. split; [reflexivity|]. split; [done|]. split; [done|].
      eapply (Hframe _ _); [|by eexists|done].
      unfold tmp_dir at 1. simpl. rewrite Ht2. apply insert_insert_eq. }
  set (s3 := set_tmp _ s2).
  set (e3 := <["pathname" := path a]> e0).
  assert (tmp_dir s3 = <[g := e3]> (tmp_dir s)) as Ht3.
  { unfold tmp_dir at 1. simpl. rewrite Ht2. apply insert_insert_eq. }
  assert (tmp_dir s3 !! g = Some e3) as Hd3
    by (rewrite Ht3; apply lookup_insert_eq).
  assert (locked s3 g "asset.meta" = locked s g "asset.meta") as Hl2.
  { unfold locked. rewrite Hd3. simpl. unfold e3.
    by rewrite lookup_insert_ne. }
  unfold bind at 1. rewrite (copy2_run _ _ _ _ _ _ Hd3), Hbytes, Hl2.
  destruct (locked s g "asset.meta") eqn:Hlk2.
  { eexists. split; [reflexivity|]. split; [done|]. split; [done|].
    eapply (Hframe _ _); [exact Ht3 | by eexists | done]. }
  set (ro4 := if FS.owner_write w (meta a) then read_only s3 ∖ {[(g, "asset.meta")]}
              else read_only s3 ∪ {[(g, "asset.meta")]}).
  set (s4 := set_read_only ro4 _).
  set (e4 := <["asset.meta" := bytes]> e3).
  assert (tmp_dir s4 = <[g := e4]> (tmp_dir s)) as Ht4.
  { unfold tmp_dir at 1. simpl. rewrite Ht3. apply insert_insert_eq. }
  assert (tmp_dir s4 !! g = Some e4) as Hd4
    by (rewrite Ht4; apply lookup_insert_eq).
  assert (tmp s4 = Some (<[g := e4]> (tmp_dir s))) as Htmp4.
  { unfold s4. simpl. f_equal. rewrite Ht3. apply insert_insert_eq. }
  assert (tmp s4 = Some (<[g := e4]> (default ∅ (tmp s)))) as Htmp4' by done.
  assert (locked s4 g "asset" = locked s g "asset") as Hl3.
  { unfold locked. rewrite Hd4. simpl. unfold e4, e3.
    rewrite !lookup_insert_ne by done. fold e0.
    apply bool_decide_ext. unfold ro4.
    change (read_only s3) with (read_only s).
    rewrite elem_of_chmod by done. done. }
  assert (round_tmp w a (tmp s) = Some (<[g :=
            match wanted_asset a with
            | Some fp =>
                match Text.read_bytes w fp with
                | inr c => <["asset" := c]> e4
                | inl _ => e4
                end
            | None => e4
            end]> (tmp_dir s))) as Hround.
  { unfold round_tmp, round_files. rewrite Hg, Hbytes. simpl.
    fold (tmp_dir s). fold e0. fold e3. fold e4.
    destruct (wanted_asset a) as [fp|]; [destruct (Text.read_bytes w fp)|];
      done. }
  rewrite copy_wanted.
  destruct (wanted_asset a) as [fp|] eqn:Hw.
  2:{ exists s4. split; [reflexivity|]. split.
      - intros _. rewrite Hround. unfold round_read_only. rewrite Hw.
        unfold s4, set_read_only, set_tmp. simpl. f_equal. f_equal.
        rewrite Ht3. by rewrite insert_insert_eq.
      - split; [done|].
        eapply (Hframe _ _); [exact Ht4 | by eexists | done]. }
  rewrite (copy2_run _ _ _ _ _ _ Hd4), Hl3.
  destruct (Text.read_bytes w fp) as [e|c] eqn:Hc.
  { eexists. split; [reflexivity|]. split; [done|]. split; [done|].
    eapply (Hframe _ _); [exact Ht4 | by eexists | done]. }
  destruct (locked s g "asset") eqn:Hlk3.
  { eexists. split; [reflexivity|]. split; [done|]. split; [done|].
    eapply (Hframe _ _); [exact Ht4 | by eexists | done]. }
  eexists. split; [reflexivity|]. split.
  - intros _. rewrite Hround. unfold round_read_only. rewrite Hw.
    unfold set_read_only, set_tmp. simpl. f_equal. f_equal.
    rewrite Ht4. by rewrite !insert_insert_eq.
  - split; [done|].
    eapply (Hframe _ _); [|by eexists|done].
    unfold tmp_dir at 1. simpl. rewrite Ht4. apply insert_insert_eq.
Qed.

(** ** What [get_all_assets] returns *)

Lemma truthy_nonempty s : Str.truthy s = true ↔ s ≠ EmptyString.
Proof. destruct s; simpl; split; congruence. Qed.

Lemma append_nonempty a b : a ≠ EmptyString → a +:+ b ≠ EmptyString.
Proof. destruct a; [done | discriminate]. Qed.

Lemma join_nonempty a b :
  a ≠ EmptyString → OsPath.join a b ≠ EmptyString.
Proof.
  intros Ha. unfold OsPath.join.
  destruct (Str.startswith_char OsPath.sep b) eqn:Eb.
  - destruct b; [done | discriminate].
  - destruct (negb (Str.truthy a) || Str.endswith a "/"); by apply append_nonempty.
Qed.

Lemma walk_node_Dir top es :
  FS.walk_node top (FS.Dir es)
  = (top, FS.dirnames es, FS.filenames es) :: walk_entries top es.
Proof.
  simpl. f_equal. induction es as [|[name child] es IH]; simpl; [done|].
  destruct child; by rewrite IH.
Qed.

Lemma walk_node_roots n :
  ∀ top item,
    top ≠ EmptyString → item ∈ FS.walk_node top n → item.1.1 ≠ EmptyString.
Proof.
  induction n as [r ow c|es IH] using node_induction; intros top item Htop Hin.
  - by apply elem_of_nil in Hin.
  - rewrite walk_node_Dir in Hin. apply elem_of_cons in Hin as [->|Hin]; [done|].
    induction IH as [|[name child] es Hc _ IHes]; simpl in Hin.
    + by apply elem_of_nil in Hin.
    + destruct child as [|es'].
      * by apply IHes.
      * apply elem_of_app in Hin as [Hin|Hin]; [|by apply IHes].
        eapply Hc; [|exact Hin]. by apply join_nonempty.
Qed.

Lemma resolve_nonempty w p n :
  FS.resolve w p = Some n → p ≠ EmptyString.
Proof. unfold FS.resolve. destruct p; [done | discriminate]. Qed.

Lemma walk_roots w base item :
  item ∈ FS.walk w base → item.1.1 ≠ EmptyString.
Proof.
  unfold FS.walk. destruct (FS.resolve w base) as [n|] eqn:E.
  - apply walk_node_roots. by eapply resolve_nonempty.
  - by intros ?%elem_of_nil.
Qed.

Lemma elem_of_file_assets w root files a :
  a ∈ file_assets w root files ↔
  ∃ file, file ∈ files ∧ Str.endswith file ".meta" = false
    ∧ FS.exists_ w (OsPath.join root file +:+ ".meta") = true
    ∧ a = file_record (OsPath.join root file) (OsPath.join root file +:+ ".meta").
Proof.
  induction files as [|f files IH]; simpl.
  - rewrite elem_of_nil. split; [done|]. by intros (? & ?%elem_of_nil & _).
  - destruct (Str.endswith f ".meta") eqn:Ef;
      [|destruct (FS.exists_ w _) eqn:Ex; [rewrite elem_of_cons|]];
      rewrite IH; split.
    + intros (f' & ? & ?). exists f'. by rewrite elem_of_cons; auto.
    + intros (f' & [->|?]%elem_of_cons & ? & ?); [congruence|eauto].
    + intros [->|(f' & ? & ?)]; [exists f | exists f'];
        rewrite elem_of_cons; auto.
    + intros (f' & [->|?]%elem_of_cons & ? & ? & ?); eauto 8.
    + intros (f' & ? & ?). exists f'. by rewrite elem_of_cons; auto.
    + intros (f' & [->|?]%elem_of_cons & ? & ? & ?); [congruence|eauto 8].
Qed.

Lemma elem_of_walked_assets w root dirs files a :
  a ∈ walked_assets w (root, dirs, files) ↔
  (FS.exists_ w (root +:+ ".meta") = true
   ∧ a = folder_record root (root +:+ ".meta"))
  ∨ a ∈ file_assets w root files.
Proof.
  unfold walked_assets. rewrite elem_of_app.
  destruct (FS.exists_ w (root +:+ ".meta")).
  - rewrite list_elem_of_singleton. tauto.
  - rewrite elem_of_nil. intuition congruence.
Qed.

(** The sequence is the entry for the root, if any, in front of the
    records of the walk. *)
Lemma get_all_assets_decomposition w base :
  get_all_assets w base
  = (if FS.exists_ w (base +:+ ".meta")
     then [folder_record base (base +:+ ".meta")] else [])
    ++ concat (map (walked_assets w) (FS.walk w base)).
Proof. unfold get_all_assets. by destruct (FS.exists_ w _). Qed.

(** The records come from the walk, or from the entry put in front. *)
Lemma elem_of_get_all_assets w base a :
  a ∈ get_all_assets w base ↔
  (FS.exists_ w (base +:+ ".meta") = true
   ∧ a = folder_record base (base +:+ ".meta"))
  ∨ ∃ item, item ∈ FS.walk w base ∧ a ∈ walked_assets w item.
Proof.
  unfold get_all_assets.
  assert (a ∈ concat (map (walked_assets w) (FS.walk w base))
          ↔ ∃ item, item ∈ FS.walk w base ∧ a ∈ walked_assets w item) as Hc.
  { rewrite list_elem_of_In, in_concat. split.
    - intros (l & (item & <- & Hi)%in_map_iff & Ha).
      exists item. by rewrite !list_elem_of_In.
    - intros (item & Hi & Ha). exists (walked_assets w item).
      rewrite in_map_iff, <- !list_elem_of_In. split; [|done].
      exists item. by rewrite <- list_elem_of_In. }
  destruct (FS.exists_ w (base +:+ ".meta")).
  - rewrite elem_of_cons, Hc. tauto.
  - rewrite Hc. intuition congruence.
Qed.

(** Every record is a folder without content path, or a file whose
    content path is not empty. *)
Lemma get_all_assets_shape w base a :
  a ∈ get_all_assets w base →
  ∃ raw, meta a = raw +:+ ".meta"
    ∧ path a = Str.replace backslash slash raw
    ∧ (is_folder a = true ∧ asset a = None ∧ wanted_asset a = None
        ∧ (raw = base ∨ ∃ item, item ∈ FS.walk w base ∧ raw = item.1.1)
       ∨ is_folder a = false ∧ asset a = Some raw ∧ wanted_asset a = Some raw
         ∧ ∃ root dirs files file, (root, dirs, files) ∈ FS.walk w base
             ∧ file ∈ files ∧ raw = OsPath.join root file).
Proof.
  intros [[_ ->]|([[root dirs] files] & Hw & Ha)]%elem_of_get_all_assets.
  - exists base. simpl. split_and!; auto. left. split_and!; auto.
  - apply elem_of_walked_assets in Ha as [[_ ->]|Ha].
    + exists root. simpl. split_and!; auto. left. split_and!; auto.
      right. by exists (root, dirs, files).
    + apply elem_of_file_assets in Ha as (file & Hf & _ & _ & ->).
      exists (OsPath.join root file). simpl. split_and!; auto.
      right. split_and!; auto.
      * unfold wanted_asset. simpl.
        assert (Str.truthy (OsPath.join root file) = true) as ->; [|done].
        apply truthy_nonempty, join_nonempty. by apply (walk_roots w base (root, dirs, files)).
      * by exists root, dirs, files, file.
Qed.

(** ** The staging loop *)

Lemma stage_asset_Ok w a s s' :
  stage_asset w a s = (Ok tt, s') →
  round_error w a s = None ∧ s' = round_state w a s.
Proof.
  intros Hrun. destruct (stage_asset_run w a s) as (s1 & Hrun1 & Hs1 & _).
  rewrite Hrun in Hrun1.
  destruct (round_error w a s); [done|].
  injection Hrun1 as ->. auto.
Qed.

Lemma stage_asset_returns w a s :
  round_error w a s = None → stage_asset w a s = (Ok tt, round_state w a s).
Proof.
  intros He. destruct (stage_asset_run w a s) as (s1 & Hrun1 & Hs1 & _).
  rewrite He in Hrun1. by rewrite Hrun1, (Hs1 He).
Qed.

Lemma stage_asset_raises w a s e :
  round_error w a s = Some e → ∃ s', stage_asset w a s = (Raise e, s').
Proof.
  intros He. destruct (stage_asset_run w a s) as (s1 & Hrun1 & _).
  rewrite He in Hrun1. eauto.
Qed.

Lemma round_state_tmp w a s : tmp (round_state w a s) = round_tmp w a (tmp s).
Proof.
  unfold round_state, round_tmp. by destruct (guid_of w (meta a)).
Qed.

Lemma round_state_out w a s : out (round_state w a s) = out s.
Proof. unfold round_state. by destruct (guid_of w (meta a)). Qed.

Lemma round_state_console w a s :
  console (round_state w a s) = console s ++ round_lines w a.
Proof. unfold round_state. by destruct (guid_of w (meta a)). Qed.

Lemma round_error_lines w a s :
  round_error w a s = None → prints w (round_lines w a) = true.
Proof.
  unfold round_error. intros He. apply first_print_error_None.
  by destruct (first_print_error w (round_lines w a)).
Qed.

Lemma round_error_content w a s :
  round_error w a s = None → content_read w a = Ok tt.
Proof.
  unfold round_error, content_read.
  destruct (first_print_error w (round_lines w a)); [done|].
  destruct (guid_of w (meta a)) as [g|]; [|done].
  destruct (NAME_MAX <? String.length g); [done|].
  destruct (locked s g "pathname"); [done|].
  destruct (negb (Text.encodable (path a))); [done|].
  destruct (locked s g "asset.meta"); [done|].
  destruct (wanted_asset a) as [fp|]; [|done].
  by destruct (Text.read_bytes w fp).
Qed.

Lemma for_each_cons {A} (x : A) l (f : A → M unit) s :
  for_each (x :: l) f s
  = match f x s with
    | (Ok _, s1) => for_each l f s1
    | (Raise e, s1) => (Raise e, s1)
    end.
Proof. reflexivity. Qed.

Lemma for_each_app {A} (l1 l2 : list A) (f : A → M unit) s s' :
  for_each (l1 ++ l2) f s = (Ok tt, s') ↔
  ∃ s1, for_each l1 f s = (Ok tt, s1) ∧ for_each l2 f s1 = (Ok tt, s').
Proof.
  revert s. induction l1 as [|x l1 IH]; intros s.
  - simpl. unfold ret. split; [eauto | by intros (? & [= <-] & ?)].
  - simpl app. rewrite !for_each_cons.
    destruct (f x s) as [[[]|e] s1]; [apply IH|].
    split; [done | by intros (? & ? & _)].
Qed.

Lemma staging_cons_Ok w a assets s s' :
  staging w (a :: assets) s = (Ok tt, s') ↔
  round_error w a s = None ∧ staging w assets (round_state w a s) = (Ok tt, s').
Proof.
  unfold staging. rewrite for_each_cons. split.
  - destruct (stage_asset w a s) as [[[]|e] s1] eqn:E; [|done].
    apply stage_asset_Ok in E as [He ->]. auto.
  - intros [He Hrun]. by rewrite (stage_asset_returns _ _ _ He).
Qed.

(** A loop that runs to its end has run every round: the temporary
    directory, the archive and the console are those the rounds leave, one
    after the other, and every content asked for could be read. *)
Lemma staging_Ok w assets s s' :
  staging w assets s = (Ok tt, s') →
  tmp s' = foldl (λ o a, round_tmp w a o) (tmp s) assets
  ∧ out s' = out s
  ∧ console s' = console s ++ concat (map (round_lines w) assets)
  ∧ prints w (concat (map (round_lines w) assets)) = true
  ∧ ∀ a, a ∈ assets → content_read w a = Ok tt.
Proof.
  revert s. induction assets as [|a assets IH]; intros s.
  - unfold staging. simpl. unfold ret. intros [= <-].
    rewrite app_nil_r. split_and!; try done.
    intros a Ha. by apply elem_of_nil in Ha.
  - intros [He Hrun]%staging_cons_Ok.
    destruct (IH _ Hrun) as (Ht & Ho & Hc & Hp & Hr).
    rewrite round_state_tmp in Ht. rewrite round_state_out in Ho.
    rewrite round_state_console in Hc. simpl.
    split_and!; try done.
    + by rewrite Hc, app_assoc.
    + apply prints_app. split; [by eapply round_error_lines | done].
    + intros b [->|Hb]%elem_of_cons; [by eapply round_error_content | auto].
Qed.

(** The loop does not touch the archive, however it ends. *)
Lemma staging_out w assets s r s' :
  staging w assets s = (r, s') → out s' = out s.
Proof.
  unfold staging. revert s. induction assets as [|a assets IH]; intros s.
  - simpl. unfold ret. by intros [= _ <-].
  - rewrite for_each_cons.
    destruct (stage_asset_run w a s) as (s1 & -> & _ & Ho & _).
    destruct (round_error w a s).
    + by intros [= _ <-].
    + intros Hrun. by rewrite (IH _ Hrun).
Qed.

Lemma staging_tmp_is_Some w assets s r s' :
  staging w assets s = (r, s') → is_Some (tmp s) → is_Some (tmp s').
Proof.
  unfold staging. revert s. induction assets as [|a assets IH]; intros s.
  - simpl. unfold ret. by intros [= _ <-].
  - rewrite for_each_cons.
    destruct (stage_asset_run w a s) as (s1 & -> & _ & _ & Hs & _).
    destruct (round_error w a s).
    + intros [= _ <-]. exact Hs.
    + intros Hrun H. eapply IH; eauto.
Qed.

(** The sub-directories of the temporary directory after the loop: those
    it had, and one for each identifier met; all of them when the loop
    runs to its end. *)
Lemma staging_entries w assets s r s' :
  staging w assets s = (r, s') →
  (∀ g, is_Some (tmp_dir s' !! g) →
        is_Some (tmp_dir s !! g)
        ∨ ∃ a, a ∈ assets ∧ guid_of w (meta a) = Some g)
  ∧ (∀ g, is_Some (tmp_dir s !! g) → is_Some (tmp_dir s' !! g))
  ∧ (r = Ok tt → ∀ a g, a ∈ assets → guid_of w (meta a) = Some g →
       is_Some (tmp_dir s' !! g)).
Proof.
  unfold staging. revert s. induction assets as [|a assets IH]; intros s.
  - simpl. unfold ret. intros [= <- <-]. split_and!; auto.
    intros _ a g Ha. by apply elem_of_nil in Ha.
  - rewrite for_each_cons.
    destruct (stage_asset_run w a s)
      as (s1 & -> & Hs1 & _ & _ & _ & H2 & H1).
    destruct (round_error w a s) as [e|] eqn:He.
    + intros [= <- <-]. split_and!; [|done|done].
      intros g Hg. destruct (H1 g Hg); [auto|].
      right. exists a. split; [apply elem_of_cons; auto | done].
    + intros Hrun. destruct (IH _ Hrun) as (I1 & I2 & I3).
      split_and!; auto.
      * intros g Hg. destruct (I1 g Hg) as [Hs|(b & Hb & Hgb)].
        -- destruct (H1 g Hs) as [?|?]; [auto|].
           right. exists a. split; [apply elem_of_cons; auto | done].
        -- right. exists b. split; [apply elem_of_cons; auto | done].
      * intros -> b g [->|Hb]%elem_of_cons Hgb; [|by eapply I3].
        apply I2. rewrite (Hs1 eq_refl). unfold round_state. rewrite Hgb.
        unfold tmp_dir, round_tmp. simpl. rewrite Hgb. simpl.
        rewrite lookup_insert_eq. eauto.
Qed.

(** Rounds for other identifiers leave a sub-directory as it is. *)
Lemma stage_asset_frame w a s r s' g :
  stage_asset w a s = (r, s') → guid_of w (meta a) ≠ Some g →
  tmp_dir s' !! g = tmp_dir s !! g.
Proof.
  intros Hrun Hne.
  destruct (stage_asset_run w a s) as (s1 & Hrun' & _ & _ & _ & Hf & _).
  rewrite Hrun in Hrun'. injection Hrun' as _ <-. by apply Hf.
Qed.

Lemma staging_frame w assets s r s' g :
  staging w assets s = (r, s') →
  (∀ a, a ∈ assets → guid_of w (meta a) ≠ Some g) →
  tmp_dir s' !! g = tmp_dir s !! g.
Proof.
  unfold staging. revert s. induction assets as [|a assets IH]; intros s.
  - simpl. unfold ret. by intros [= <- <-].
  - rewrite for_each_cons. intros Hrun Hne.
    destruct (stage_asset w a s) as [r1 s1] eqn:E1.
    assert (tmp_dir s1 !! g = tmp_dir s !! g) as <-.
    { eapply stage_asset_frame; [exact E1|]. apply Hne, elem_of_cons; auto. }
    destruct r1 as [[]|e].
    + apply IH; [done|]. intros b Hb. apply Hne, elem_of_cons; auto.
    + by injection Hrun as <- <-.
Qed.

(** ** What a round leaves in its entry *)

Lemma round_files_lookup w a e0 f :
  is_Some (round_files w a e0 !! f) → entry_name f ∨ is_Some (e0 !! f).
Proof.
  unfold round_files, entry_name.
  destruct (wanted_asset a) as [fp|]; [destruct (Text.read_bytes w fp)|];
    destruct (decide (f = "asset"));
    destruct (decide (f = "asset.meta"));
    destruct (decide (f = "pathname"));
    simplify_map_eq; auto.
Qed.

Lemma round_files_pathname w a e0 bytes :
  Text.read_bytes w (meta a) = inr bytes →
  round_files w a e0 !! "pathname" = Some (path a)
  ∧ round_files w a e0 !! "asset.meta" = Some bytes.
Proof.
  intros Hb. unfold round_files. rewrite Hb.
  destruct (wanted_asset a) as [fp|]; [destruct (Text.read_bytes w fp)|];
    by simplify_map_eq.
Qed.

Lemma round_files_asset w a e0 :
  round_files w a e0 !! "asset"
  = match wanted_asset a with
    | Some file_path =>
        match Text.read_bytes w file_path with
        | inr c => Some c
        | inl _ => e0 !! "asset"
        end
    | None => e0 !! "asset"
    end.
Proof.
  unfold round_files.
  destruct (wanted_asset a) as [fp|]; [destruct (Text.read_bytes w fp)|];
    by simplify_map_eq.
Qed.

Lemma round_state_entry w a s g :
  guid_of w (meta a) = Some g →
  tmp_dir (round_state w a s) !! g
  = Some (round_files w a (default ∅ (tmp_dir s !! g))).
Proof.
  intros Hg. unfold tmp_dir at 1. rewrite round_state_tmp.
  unfold round_tmp. rewrite Hg. simpl. apply lookup_insert_eq.
Qed.

Lemma first_print_error_Some w ms e :
  first_print_error w ms = Some e →
  ∃ m, m ∈ ms ∧ FS.print_error w m = Some e.
Proof.
  induction ms as [|m ms IH]; [done|]. simpl.
  destruct (FS.print_error w m) as [e'|] eqn:Hm.
  - intros [= ->]. exists m. split; [apply elem_of_cons; auto | done].
  - intros (m' & Hm' & He)%IH. exists m'.
    split; [apply elem_of_cons; auto | done].
Qed.

(** Claim C2, as worded, fails on the last part: the round of an asset
    without identifier prints its path, and standard output refuses a
    path that is not UTF-8; the exception leaves the loop. *)
Lemma skipped_asset_continues_counterexample :
  ¬ skipped_asset_continues unprintable_world unprintable_asset.
Proof.
  intros H. destruct (H eq_refl initial_state) as [s' Hs'].
  vm_compute in Hs'. discriminate Hs'.
Qed.

(** Claim C2, amended.  After a staging phase that ran to its end on an
    empty temporary directory, an asset of the sequence has a staging
    entry (the sub-directory named by its identifier) if and only if
    [extract_guid] gave it a non-empty identifier, and every sub-directory
    belongs to such an asset.  The round of an asset without identifier
    leaves the temporary directory and the archive as they are, whatever
    its outcome; it returns, having printed its diagnostics, when standard
    output takes them, and otherwise raises the exception of the line that
    could not be printed. *)
Theorem staging_entry_iff_identifier w assets s :
  (∀ s', staging w assets s = (Ok tt, s') → tmp s = Some ∅ →
     (∀ a, a ∈ assets →
        (∃ g, guid_of w (meta a) = Some g ∧ is_Some (tmp_dir s' !! g))
        ↔ (∃ g, guid_of w (meta a) = Some g ∧ g ≠ EmptyString))
     ∧ (∀ g, is_Some (tmp_dir s' !! g) →
          ∃ a, a ∈ assets ∧ guid_of w (meta a) = Some g))
  ∧ (∀ a s0, guid_of w (meta a) = None →
       let lines := read_diagnostics w (meta a) ++ [MsgSkipping (path a)] in
       (prints w lines = true →
        stage_asset w a s0 = (Ok tt, add_console lines s0))
       ∧ ∀ r s1, stage_asset w a s0 = (r, s1) →
           tmp s1 = tmp s0 ∧ out s1 = out s0
           ∧ (r = Ok tt
              ∨ ∃ m e, m ∈ lines ∧ FS.print_error w m = Some e
                  ∧ r = Raise e)).
Proof.
  split.
  - intros s' Hrun Hs.
    destruct (staging_entries _ _ _ _ _ Hrun) as (H1 & _ & H3).
    split.
    + intros a Ha. split.
      * intros (g & Hg & _). exists g. split; [done|]. by eapply guid_of_nonempty.
      * intros (g & Hg & _). exists g. split; [done|]. by eapply H3.
    + intros g Hg. destruct (H1 g Hg) as [Hold|?]; [|done].
      unfold tmp_dir in Hold. rewrite Hs in Hold. simpl in Hold.
      rewrite lookup_empty in Hold. by destruct Hold.
  - intros a s0 Hg lines.
    assert (round_lines w a = lines) as Hlines
      by (unfold round_lines; by rewrite Hg).
    pose proof (stage_asset_skip w a s0 Hg) as Hrun. rewrite Hlines in Hrun.
    split.
    + intros Hp%first_print_error_None. by rewrite Hrun, Hp.
    + intros r s1. rewrite Hrun.
      destruct (first_print_error w lines) as [e|] eqn:He.
      * intros [= <- <-]. split_and!.
        -- destruct (Text.read_text w (meta a)) as [e'|];
             [destruct (FS.print_error w _)|]; done.
        -- destruct (Text.read_text w (meta a)) as [e'|];
             [destruct (FS.print_error w _)|]; done.
        -- right. apply first_print_error_Some in He as (m & Hm & He).
           by exists m, e.
      * intros [= <- <-]. auto.
Qed.

Lemma staging_entry_iff_identifier_witness :
  let assets := get_all_assets sample_world "Assets/Deffatest" in
  let s' := (staging sample_world assets fresh_state).2 in
  (∀ a, a ∈ assets →
     (∃ g, guid_of sample_world (meta a) = Some g ∧ is_Some (tmp_dir s' !! g))
     ↔ (∃ g, guid_of sample_world (meta a) = Some g ∧ g ≠ EmptyString))
  ∧ (∀ g, is_Some (tmp_dir s' !! g) →
       ∃ a, a ∈ assets ∧ guid_of sample_world (meta a) = Some g).
Proof.
  intros assets s'.
  apply (proj1 (staging_entry_iff_identifier sample_world assets fresh_state) s');
    vm_compute; reflexivity.
Defined.

(** The round of [Broken.cs], whose side-car has no [guid:] line. *)
Example skipped_round :
  stage_asset sample_world
    (file_record "Assets/Deffatest/Broken.cs" "Assets/Deffatest/Broken.cs.meta")
    fresh_state
  = (Ok tt, add_console [MsgSkipping "Assets/Deffatest/Broken.cs"] fresh_state).
Proof. vm_compute. reflexivity. Qed.

(** Claim C3.  When the round of a directory asset returns, it has
    created no [asset] file: the [asset] file of its entry is the one the
    sub-directory had before, none in a new one.  When the round of a
    file asset returns, the [asset] file of its entry holds the bytes of
    the source file; the round does not return when the source cannot be
    read. *)
Theorem asset_file_only_for_file_assets w base a g s :
  a ∈ get_all_assets w base →
  guid_of w (meta a) = Some g →
  (∀ s', stage_asset w a s = (Ok tt, s') →
     ∃ e', tmp_dir s' !! g = Some e'
       ∧ if is_folder a
         then e' !! "asset" = default ∅ (tmp_dir s !! g) !! "asset"
         else ∃ file_path c,
                asset a = Some file_path
                ∧ Text.read_bytes w file_path = inr c
                ∧ e' !! "asset" = Some c)
  ∧ (∀ file_path e, asset a = Some file_path →
       Text.read_bytes w file_path = inl e →
       ∃ e' s', stage_asset w a s = (Raise e', s')).
Proof.
  intros Ha Hg.
  destruct (get_all_assets_shape _ _ _ Ha)
    as (raw & _ & _ & [(Hf & _ & Hw & _)|(Hf & Hfp & Hw & _)]).
  - split.
    + intros s' [He ->]%stage_asset_Ok. eexists.
      split; [by apply round_state_entry|].
      rewrite Hf, round_files_asset, Hw. done.
    + intros fp e Hfp. destruct (get_all_assets_shape _ _ _ Ha)
        as (raw' & _ & _ & [(_ & Hnone & _)|(Hf' & _)]); congruence.
  - assert (∀ s', stage_asset w a s = (Ok tt, s') →
              ∃ c, Text.read_bytes w raw = inr c
                ∧ tmp_dir s' !! g
                  = Some (round_files w a (default ∅ (tmp_dir s !! g)))
                ∧ round_files w a (default ∅ (tmp_dir s !! g)) !! "asset"
                  = Some c) as Hok.
    { intros s' [He ->]%stage_asset_Ok.
      pose proof (round_error_content _ _ _ He) as Hc.
      unfold content_read in Hc. rewrite Hg, Hw in Hc.
      destruct (Text.read_bytes w raw) as [e|c] eqn:Hr; [done|].
      exists c. split; [done|]. split; [by apply round_state_entry|].
      by rewrite round_files_asset, Hw, Hr. }
    split.
    + intros s' (c & Hc & He' & Hasset)%Hok. eexists. split; [exact He'|].
      rewrite Hf. by exists raw, c.
    + intros fp e Hfp' Hr. assert (fp = raw) as -> by congruence.
      destruct (stage_asset w a s) as [[[]|e'] s'] eqn:E; [|eauto].
      destruct (Hok s' eq_refl) as (c & Hc & _). congruence.
Qed.

Lemma asset_file_only_for_file_assets_witness :
  ∃ e', tmp_dir (stage_asset sample_world foo_cs fresh_state).2 !! "abc123"
        = Some e'
    ∧ ∃ file_path c,
        asset foo_cs = Some file_path
        ∧ Text.read_bytes sample_world file_path = inr c
        ∧ e' !! "asset" = Some c.
Proof.
  destruct (asset_file_only_for_file_assets sample_world "Assets/Deffatest"
              foo_cs "abc123" fresh_state) as [H _].
  - vm_compute. repeat constructor.
  - vm_compute. reflexivity.
  - apply H. vm_compute. reflexivity.
Defined.

(** What [Str.replace] leaves: no [old] character where [new] differs. *)
Lemma replace_get old new s i :
  String.get i (Str.replace old new s)
  = (λ c, if Ascii.eqb c old then new else c) <$> String.get i s.
Proof.
  revert i. induction s as [|c s IH]; intros i; simpl; [done|].
  destruct i; [done | apply IH].
Qed.

Lemma replace_length old new s :
  String.length (Str.replace old new s) = String.length s.
Proof. induction s as [|c s IH]; simpl; [done|]. by rewrite IH. Qed.

Lemma replace_absent old new s :
  old ≠ new → old ∉ chars (Str.replace old new s).
Proof.
  intros Hne. unfold chars. induction s as [|c s IH]; simpl.
  - apply not_elem_of_nil.
  - apply not_elem_of_cons. split; [|exact IH].
    destruct (Ascii.eqb_spec c old) as [->|Hc]; congruence.
Qed.

Lemma replace_id old new s :
  old ∉ chars s → Str.replace old new s = s.
Proof.
  unfold chars. induction s as [|c s IH]; simpl; [done|].
  intros [Hc Hs]%not_elem_of_cons.
  destruct (Ascii.eqb_spec c old) as [->|_]; [done|]. by rewrite IH.
Qed.

(** Claim C4.  When the round of an asset whose side-car gives an
    identifier returns, the [pathname] file of its entry holds the path of
    the asset (the side-car path without [.meta]: the walked directory, or
    the file) with every backslash replaced by a slash: it has the length
    of that path, a slash wherever that path has a backslash, and the
    character of that path everywhere else.  Nothing is appended. *)
Theorem pathname_is_normalized_path w base a g s s' :
  a ∈ get_all_assets w base →
  guid_of w (meta a) = Some g →
  stage_asset w a s = (Ok tt, s') →
  ∃ raw pathname,
    meta a = raw +:+ ".meta"
    ∧ (if is_folder a
       then raw = base ∨ ∃ item, item ∈ FS.walk w base ∧ raw = item.1.1
       else asset a = Some raw)
    ∧ (∃ e', tmp_dir s' !! g = Some e' ∧ e' !! "pathname" = Some pathname)
    ∧ String.length pathname = String.length raw
    ∧ ∀ i,
        String.get i pathname
        = (λ c, if Ascii.eqb c "\"%char then "/"%char else c)
            <$> String.get i raw.
Proof.
  intros Ha Hg [He ->]%stage_asset_Ok.
  destruct (get_all_assets_shape _ _ _ Ha) as (raw & Hmeta & Hpath & Hkind).
  destruct (guid_of_readable _ _ _ Hg) as [bytes Hbytes].
  exists raw, (path a). split; [done|]. split.
  { destruct Hkind as [(-> & _ & _ & ?)|(-> & ? & _)]; done. }
  split.
  { eexists. split; [by apply round_state_entry|].
    by eapply round_files_pathname. }
  rewrite Hpath. split; [apply replace_length|].
  intros i. apply replace_get.
Qed.

Lemma pathname_is_normalized_path_witness :
  ∃ raw pathname,
    meta backslash_asset = raw +:+ ".meta"
    ∧ asset backslash_asset = Some raw
    ∧ (∃ e', tmp_dir (stage_asset backslash_world backslash_asset
                        fresh_state).2 !! "5c" = Some e'
         ∧ e' !! "pathname" = Some pathname)
    ∧ String.length pathname = String.length raw
    ∧ ∀ i,
        String.get i pathname
        = (λ c, if Ascii.eqb c "\"%char then "/"%char else c)
            <$> String.get i raw.
Proof.
  apply (pathname_is_normalized_path backslash_world "A" backslash_asset "5c"
           fresh_state).
  - vm_compute. repeat constructor.
  - vm_compute. reflexivity.
  - vm_compute. reflexivity.
Defined.

(** The [pathname] of a file whose name holds a backslash. *)
Example backslash_pathname :
  get_all_assets backslash_world "A" = [backslash_asset]
  ∧ tmp_dir (stage_asset backslash_world backslash_asset fresh_state).2
      !! "5c" ≫= (.!! "pathname")
    = Some "A/b/c.cs".
Proof. split; vm_compute; reflexivity. Qed.

(** ** Two assets with one identifier *)

Example collision_assets :
  get_all_assets collision_world "A"
  = [file_record "A/f.txt" "A/f.txt.meta"; folder_record "A/sub" "A/sub.meta"].
Proof. reflexivity. Qed.

(** The entry [abc] keeps the [asset] file of [A/f.txt] under the
    [pathname] of the directory [A/sub]. *)
Example collision_entry :
  tmp_dir (staging collision_world (get_all_assets collision_world "A")
             fresh_state).2 !! "abc"
  = Some (<["asset" := "data"]>
          (<["asset.meta" := "guid: abc"]> {["pathname" := "A/sub"]})).
Proof. vm_compute. reflexivity. Qed.

(** On the same tree without write permission the second round cannot
    overwrite the copy of the first side-car, which has the mode of its
    source: the loop raises. *)
Example collision_read_only :
  (staging read_only_collision_world
     (get_all_assets read_only_collision_world "A") fresh_state).1
  = Raise (PermissionError "abc/asset.meta").
Proof. vm_compute. reflexivity. Qed.

(** Claim C8, as worded, fails: a file asset followed by a directory
    asset with the same identifier leaves an entry that is not the entry
    of the later asset. *)
Lemma later_entry_survives_counterexample :
  ¬ later_entry_survives collision_world (get_all_assets collision_world "A").
Proof.
  intros H.
  specialize (H (staging collision_world (get_all_assets collision_world "A")
                   fresh_state).2
                0 1 (file_record "A/f.txt" "A/f.txt.meta")
                (folder_record "A/sub" "A/sub.meta") "abc").
  rewrite collision_entry in H.
  assert (entry_of collision_world (folder_record "A/sub" "A/sub.meta")
          = Some (<["asset.meta" := "guid: abc"]> {["pathname" := "A/sub"]}))
    as He by (vm_compute; reflexivity).
  rewrite He in H.
  assert (Some "data" = @None string) as Habs; [|discriminate].
  assert (∀ e1 e2 : gmap string string,
            Some e1 = Some e2 → e1 !! "asset" = e2 !! "asset") as Hlk
    by (intros ?? [= ->]; done).
  apply Hlk in H; [exact H | .. ].
  - vm_compute. reflexivity.
  - lia.
  - reflexivity.
  - reflexivity.
  - vm_compute. reflexivity.
  - vm_compute. reflexivity.
  - intros k c Hk Hc. destruct k as [|[|k]]; [lia | lia | discriminate].
Qed.

(** The files without write permission in the sub-directory of an
    identifier that the round does not touch stay the same. *)
Lemma round_state_read_only_frame w a s g f :
  guid_of w (meta a) ≠ Some g →
  (g, f) ∈ read_only (round_state w a s) ↔ (g, f) ∈ read_only s.
Proof.
  intros Hne. unfold round_state.
  destruct (guid_of w (meta a)) as [g'|]; [|done]. simpl.
  unfold round_read_only. cbv zeta.
  destruct (wanted_asset a); by rewrite !elem_of_chmod by congruence.
Qed.

Lemma staging_read_only_frame w assets s s' g f :
  staging w assets s = (Ok tt, s') →
  (∀ a, a ∈ assets → guid_of w (meta a) ≠ Some g) →
  (g, f) ∈ read_only s' ↔ (g, f) ∈ read_only s.
Proof.
  revert s. induction assets as [|a assets IH]; intros s.
  - unfold staging. simpl. unfold ret. by intros [= <-].
  - intros [He Hrun]%staging_cons_Ok Hne.
    rewrite (IH _ Hrun) by (intros b Hb; apply Hne, elem_of_cons; auto).
    apply round_state_read_only_frame, Hne, elem_of_cons. auto.
Qed.

(** The copy of the side-car has the write permission of the side-car. *)
Lemma round_state_read_only_meta w a s g :
  guid_of w (meta a) = Some g →
  (g, "asset.meta") ∈ read_only (round_state w a s)
  ↔ FS.owner_write w (meta a) = false.
Proof.
  intros Hg. unfold round_state. rewrite Hg. simpl. unfold round_read_only.
  cbv zeta.
  assert ((g, "asset.meta")
          ∈ (if FS.owner_write w (meta a)
             then read_only s ∖ {[(g, "asset.meta")]}
             else read_only s ∪ {[(g, "asset.meta")]})
          ↔ FS.owner_write w (meta a) = false) as Hmeta.
  { destruct (FS.owner_write w (meta a)).
    - rewrite elem_of_difference, elem_of_singleton. intuition congruence.
    - rewrite elem_of_union, elem_of_singleton. tauto. }
  destruct (wanted_asset a); [|exact Hmeta].
  by rewrite elem_of_chmod by congruence.
Qed.

Lemma round_files_keeps w a e0 f :
  is_Some (e0 !! f) → is_Some (round_files w a e0 !! f).
Proof.
  intros He. unfold round_files.
  destruct (wanted_asset a) as [fp|]; [destruct (Text.read_bytes w fp)|];
    rewrite !lookup_insert_is_Some; destruct (decide ("asset" = f));
    destruct (decide ("asset.meta" = f)); destruct (decide ("pathname" = f));
    auto 10.
Qed.

(** Files stay where they are: a round makes files, or writes to them. *)
Lemma round_state_keeps w a s g f :
  is_Some (default ∅ (tmp_dir s !! g) !! f) →
  is_Some (default ∅ (tmp_dir (round_state w a s) !! g) !! f).
Proof.
  intros Hf.
  destruct (decide (guid_of w (meta a) = Some g)) as [Hg|Hg].
  - rewrite (round_state_entry _ _ _ _ Hg). simpl. by apply round_files_keeps.
  - assert (tmp_dir (round_state w a s) !! g = tmp_dir s !! g) as ->; [|done].
    unfold tmp_dir at 1. rewrite round_state_tmp. unfold round_tmp.
    destruct (guid_of w (meta a)) as [g'|]; [|done]. simpl.
    apply lookup_insert_ne. congruence.
Qed.

Lemma staging_keeps w assets s s' g f :
  staging w assets s = (Ok tt, s') →
  is_Some (default ∅ (tmp_dir s !! g) !! f) →
  is_Some (default ∅ (tmp_dir s' !! g) !! f).
Proof.
  revert s. induction assets as [|a assets IH]; intros s.
  - unfold staging. simpl. unfold ret. by intros [= <-].
  - intros [He Hrun]%staging_cons_Ok Hf. apply (IH _ Hrun).
    by apply round_state_keeps.
Qed.

(** After a loop that ran to its end, the entry of each identifier met
    has its [asset.meta]. *)
Lemma staging_entry_has_meta w assets s s' a g :
  staging w assets s = (Ok tt, s') →
  a ∈ assets → guid_of w (meta a) = Some g →
  ∃ e, tmp_dir s' !! g = Some e ∧ is_Some (e !! "asset.meta").
Proof.
  revert s. induction assets as [|a0 assets IH]; intros s Hrun Ha Hg.
  - by apply elem_of_nil in Ha.
  - apply staging_cons_Ok in Hrun as [He Hrun].
    apply elem_of_cons in Ha as [->|Ha]; [|by eapply IH].
    destruct (guid_of_readable _ _ _ Hg) as [bytes Hbytes].
    assert (is_Some (default ∅ (tmp_dir s' !! g) !! "asset.meta")) as Hm.
    { apply (staging_keeps _ _ _ _ _ _ Hrun).
      rewrite (round_state_entry _ _ _ _ Hg). simpl.
      destruct (round_files_pathname w a0 (default ∅ (tmp_dir s !! g)) bytes
                  Hbytes) as [_ ->]. eauto. }
    destruct (tmp_dir s' !! g) as [e|]; simpl in Hm; [eauto|].
    rewrite lookup_empty in Hm. by destruct Hm.
Qed.

Lemma round_error_locked_meta w a s g :
  round_error w a s = None → guid_of w (meta a) = Some g →
  locked s g "asset.meta" = false.
Proof.
  unfold round_error. intros He Hg. rewrite Hg in He.
  destruct (first_print_error w (round_lines w a)); [done|].
  destruct (NAME_MAX <? String.length g); [done|].
  destruct (locked s g "pathname"); [done|].
  destruct (negb (Text.encodable (path a))); [done|].
  by destruct (locked s g "asset.meta").
Qed.

(** The entry of an identifier after a completed loop is the one left by
    the round of the last asset that has this identifier: [pathname] and
    [asset.meta] are its own, [asset] is its own if it is a file asset and
    the one the sub-directory had before otherwise. *)
Lemma staging_last_round w pre b post g s s' :
  staging w (pre ++ b :: post) s = (Ok tt, s') →
  guid_of w (meta b) = Some g →
  (∀ c, c ∈ post → guid_of w (meta c) ≠ Some g) →
  ∃ s1 bytes e',
    staging w pre s = (Ok tt, s1)
    ∧ round_error w b s1 = None
    ∧ stage_asset w b s1 = (Ok tt, round_state w b s1)
    ∧ Text.read_bytes w (meta b) = inr bytes
    ∧ tmp_dir s' !! g = Some e'
    ∧ e' !! "pathname" = Some (path b)
    ∧ e' !! "asset.meta" = Some bytes
    ∧ match wanted_asset b with
      | Some file_path =>
          ∃ c, Text.read_bytes w file_path = inr c ∧ e' !! "asset" = Some c
      | None => e' !! "asset" = default ∅ (tmp_dir s1 !! g) !! "asset"
      end.
Proof.
  intros Hrun Hgb Hpost. unfold staging in Hrun.
  apply for_each_app in Hrun as (s1 & Hrun1 & Hrun2).
  apply staging_cons_Ok in Hrun2 as [He Hrun2].
  destruct (guid_of_readable _ _ _ Hgb) as [bytes Hbytes].
  exists s1, bytes, (round_files w b (default ∅ (tmp_dir s1 !! g))).
  destruct (round_files_pathname w b (default ∅ (tmp_dir s1 !! g)) bytes Hbytes)
    as [Hp Hm].
  split_and!; try done.
  - by apply stage_asset_returns.
  - rewrite (staging_frame w post _ (Ok tt) s' g Hrun2 Hpost).
    by apply round_state_entry.
  - rewrite round_files_asset.
    pose proof (round_error_content _ _ _ He) as Hc.
    unfold content_read in Hc. rewrite Hgb in Hc.
    destruct (wanted_asset b) as [fp|]; [|done].
    destruct (Text.read_bytes w fp) as [e|c]; [done | eauto].
Qed.

(** Claim C8, amended.  Of two assets with one identifier in a loop that
    runs to its end, the round of the later one returns and prints the
    same single line as for a new identifier; in the entry that survives,
    [pathname] and [asset.meta] are those of the later asset, and [asset]
    is that of the later asset when it is a file asset, and otherwise the
    [asset] file the entry already had.  The loop runs to its end only if
    the files that the later round overwrites have write permission, which
    the copies take from their sources: when no asset between the two has
    the identifier, the side-car of the earlier one has write
    permission. *)
Theorem later_asset_rewrites_entry w pre a mid b post g s s' :
  staging w (pre ++ a :: mid ++ b :: post) s = (Ok tt, s') →
  guid_of w (meta a) = Some g →
  guid_of w (meta b) = Some g →
  (∀ c, c ∈ post → guid_of w (meta c) ≠ Some g) →
  ∃ s1 s2 e1 e' bytes,
    staging w (pre ++ a :: mid) s = (Ok tt, s1)
    ∧ tmp_dir s1 !! g = Some e1
    ∧ stage_asset w b s1 = (Ok tt, s2)
    ∧ console s2 = console s1 ++ [MsgAdding (path b) (Str.take 8 g)]
    ∧ Text.read_bytes w (meta b) = inr bytes
    ∧ tmp_dir s' !! g = Some e'
    ∧ e' !! "pathname" = Some (path b)
    ∧ e' !! "asset.meta" = Some bytes
    ∧ match wanted_asset b with
      | Some file_path =>
          ∃ c, Text.read_bytes w file_path = inr c ∧ e' !! "asset" = Some c
      | None => e' !! "asset" = e1 !! "asset"
      end
    ∧ is_Some (e1 !! "asset.meta")
    ∧ ((g, "asset.meta") ∉ read_only s1)
    ∧ ((∀ c, c ∈ mid → guid_of w (meta c) ≠ Some g) →
       FS.owner_write w (meta a) = true).
Proof.
  intros Hrun Hga Hgb Hpost.
  replace (pre ++ a :: mid ++ b :: post)
    with ((pre ++ a :: mid) ++ b :: post) in Hrun
    by (by rewrite <- app_assoc).
  destruct (staging_last_round _ _ _ _ _ _ _ Hrun Hgb Hpost)
    as (s1 & bytes & e' & Hpre & Herr & Hb & Hbytes & He' & Hp & Hm & Ha).
  destruct (staging_entry_has_meta w (pre ++ a :: mid) s s1 a g Hpre)
    as (e1 & He1 & Hmeta1); [apply elem_of_app; right; apply elem_of_cons; auto
                            | done |].
  assert ((g, "asset.meta") ∉ read_only s1) as Hro.
  { pose proof (round_error_locked_meta _ _ _ _ Herr Hgb) as Hl.
    unfold locked in Hl. rewrite He1 in Hl. simpl in Hl.
    apply bool_decide_eq_false in Hl. tauto. }
  exists s1, (round_state w b s1), e1, e', bytes.
  split_and!; try done.
  - rewrite round_state_console. unfold round_lines. by rewrite Hgb.
  - rewrite He1 in Ha. exact Ha.
  - intros Hmid.
    replace (pre ++ a :: mid) with ((pre ++ [a]) ++ mid) in Hpre
      by (by rewrite <- app_assoc).
    unfold staging in Hpre.
    apply for_each_app in Hpre as (s0 & Hpre0 & Hmid0).
    apply for_each_app in Hpre0 as (s00 & _ & Hlast).
    apply (staging_cons_Ok w a []) in Hlast as [_ Hnil].
    unfold staging in Hnil. simpl in Hnil. unfold ret in Hnil.
    injection Hnil as <-.
    rewrite (staging_read_only_frame w mid _ s1 g "asset.meta" Hmid0 Hmid) in Hro.
    rewrite (round_state_read_only_meta _ _ _ _ Hga) in Hro.
    by destruct (FS.owner_write w (meta a)).
Qed.

Lemma later_asset_rewrites_entry_witness :
  ∃ s1 s2 e1 e' bytes,
    staging collision_world [file_record "A/f.txt" "A/f.txt.meta"] fresh_state
    = (Ok tt, s1)
    ∧ tmp_dir s1 !! "abc" = Some e1
    ∧ stage_asset collision_world (folder_record "A/sub" "A/sub.meta") s1
      = (Ok tt, s2)
    ∧ console s2 = console s1 ++ [MsgAdding "A/sub" (Str.take 8 "abc")]
    ∧ Text.read_bytes collision_world "A/sub.meta" = inr bytes
    ∧ tmp_dir (staging collision_world (get_all_assets collision_world "A")
                 fresh_state).2 !! "abc" = Some e'
    ∧ e' !! "pathname" = Some "A/sub"
    ∧ e' !! "asset.meta" = Some bytes
    ∧ e' !! "asset" = e1 !! "asset"
    ∧ is_Some (e1 !! "asset.meta")
    ∧ (("abc", "asset.meta") ∉ read_only s1)
    ∧ ((∀ c, c ∈ [] → guid_of collision_world (meta c) ≠ Some "abc") →
       FS.owner_write collision_world "A/f.txt.meta" = true).
Proof.
  apply (later_asset_rewrites_entry collision_world []
           (file_record "A/f.txt" "A/f.txt.meta") []
           (folder_record "A/sub" "A/sub.meta") [] "abc" fresh_state).
  - vm_compute. reflexivity.
  - vm_compute. reflexivity.
  - vm_compute. reflexivity.
  - intros c Hc. by apply elem_of_nil in Hc.
Defined.

(** ** [extract_guid] *)

(** Claim C7, as worded, fails: [guid:abc] has no white space after the
    colon, so the pattern of the specification has no match, and
    [extract_guid] returns [abc]. *)
Lemma absent_without_spec_match_counterexample :
  ¬ absent_without_spec_match guid_world "tight.meta".
Proof.
  intros H.
  specialize (H (Text.bytes_of "guid:abc") initial_state eq_refl eq_refl).
  vm_compute in H. discriminate H.
Qed.

(** Claim C7, amended.  When the read fails, [extract_guid] prints the
    error and returns [None]; the [print] of the handler is not guarded,
    so that [extract_guid] raises, with the exception of [print], exactly
    when the read fails and standard output does not take the line.  When
    the file is read and no place of the text has [guid:], optional white
    space and a character of [[a-f0-9]], it returns [None] and prints
    nothing; otherwise it returns the token of the leftmost such place. *)
Theorem extract_guid_outcome w p s :
  match Text.read_text w p with
  | inl e =>
      match FS.print_error w (MsgErrorReading p e) with
      | None =>
          extract_guid w p s = (Ok None, add_console [MsgErrorReading p e] s)
      | Some e' => extract_guid w p s = (Raise e', s)
      end
  | inr text =>
      ∃ r, extract_guid w p s = (Ok r, s)
        ∧ ((∀ pre ws c rest, ¬ guid_occurrence text pre ws c rest) → r = None)
        ∧ (∀ pre ws tok rest,
             text = pre ++ guid_colon ++ ws ++ tok ++ rest →
             Forall (λ x, Re.is_space x = true) ws →
             tok ≠ [] → maximal_hex_run tok rest →
             (∀ pre' ws' c' rest',
                guid_occurrence text pre' ws' c' rest' →
                length pre ≤ length pre') →
             r = Some (Text.to_string tok))
  end.
Proof.
  rewrite extract_guid_run. unfold guid_of.
  destruct (Text.read_text w p) as [e|text].
  - by destruct (FS.print_error w (MsgErrorReading p e)).
  - eexists. split; [reflexivity|]. split.
    + intros Hno. apply first_guid_None in Hno. by rewrite Hno.
    + intros pre ws tok rest -> Hws Hne Hmax Hmin.
      by rewrite (first_guid_leftmost pre ws tok rest Hws Hne Hmax Hmin).
Qed.

Lemma extract_guid_outcome_witness :
  ∃ r, extract_guid guid_world "tight.meta" initial_state = (Ok r, initial_state)
    ∧ r = Some "abc".
Proof.
  pose proof (extract_guid_outcome guid_world "tight.meta" initial_state)
    as Hcase.
  change (Text.read_text guid_world "tight.meta")
    with (@inr exn _ (Text.bytes_of "guid:abc")) in Hcase.
  destruct Hcase as (r & Hrun & _ & Hsome).
  exists r. split; [exact Hrun|].
  apply (Hsome [] [] (Text.bytes_of "abc") []).
  - reflexivity.
  - constructor.
  - discriminate.
  - split; [repeat constructor | exact I].
  - intros. cbn. lia.
Defined.

(** Claim C9.  When the text read has [guid:], optional white space and
    a token that starts in [[a-f0-9]], [extract_guid] returns the longest
    run of [[a-f0-9]] at the start of the token of the leftmost such place,
    whatever follows the run, and prints nothing; when no [guid:] is
    followed, after optional white space, by a character of [[a-f0-9]], it
    returns [None]. *)
Theorem extract_guid_maximal_hex_prefix w p text s :
  Text.read_text w p = inr text →
  (∀ pre ws tok rest,
     text = pre ++ guid_colon ++ ws ++ tok ++ rest →
     Forall (λ x, Re.is_space x = true) ws →
     tok ≠ [] → maximal_hex_run tok rest →
     (∀ pre' ws' c' rest',
        guid_occurrence text pre' ws' c' rest' → length pre ≤ length pre') →
     extract_guid w p s = (Ok (Some (Text.to_string tok)), s))
  ∧ ((∀ pre ws c rest, ¬ guid_occurrence text pre ws c rest) →
     extract_guid w p s = (Ok None, s)).
Proof.
  intros Hr. rewrite extract_guid_run. unfold guid_of. rewrite Hr. split.
  - intros pre ws tok rest -> Hws Hne Hmax Hmin.
    by rewrite (first_guid_leftmost pre ws tok rest Hws Hne Hmax Hmin).
  - intros Hno. apply first_guid_None in Hno. by rewrite Hno.
Qed.

Lemma extract_guid_maximal_hex_prefix_witness :
  extract_guid guid_world "mixed.meta" initial_state
  = (Ok (Some "0a1b"), initial_state).
Proof.
  apply (proj1 (extract_guid_maximal_hex_prefix guid_world "mixed.meta"
                  (Text.bytes_of "guid: 0a1bCDEF") initial_state eq_refl)
           [] [32%N] (Text.bytes_of "0a1b") (Text.bytes_of "CDEF")).
  - reflexivity.
  - repeat constructor.
  - discriminate.
  - split; [repeat constructor | reflexivity].
  - intros. cbn. lia.
Defined.

(** An upper-case token is not a match at all. *)
Example extract_guid_upper :
  extract_guid guid_world "upper.meta" initial_state = (Ok None, initial_state).
Proof. reflexivity. Qed.

(** Read failures are reported and give [None]. *)
Example extract_guid_locked :
  extract_guid guid_world "locked.meta" initial_state
  = (Ok None,
     add_console [MsgErrorReading "locked.meta"
                    (PermissionError "locked.meta")] initial_state).
Proof. reflexivity. Qed.

Example extract_guid_folder :
  extract_guid guid_world "folder.meta" initial_state
  = (Ok None,
     add_console [MsgErrorReading "folder.meta"
                    (IsADirectoryError "folder.meta")] initial_state).
Proof. reflexivity. Qed.

(** [\s] is Unicode white space, and text mode reads [\r\n] as [\n]. *)
Example extract_guid_nbsp :
  extract_guid guid_world "nbsp.meta" initial_state
  = (Ok (Some "abc"), initial_state).
Proof. reflexivity. Qed.

Example extract_guid_crlf :
  extract_guid guid_world "crlf.meta" initial_state
  = (Ok (Some "abc"), initial_state)
  ∧ Text.read_text guid_world "crlf.meta"
    = inr (Text.bytes_of "guid:" ++ 10%N :: Text.bytes_of "abc").
Proof. split; reflexivity. Qed.

Example extract_guid_binary :
  extract_guid guid_world "binary.meta" initial_state
  = (Ok None,
     add_console [MsgErrorReading "binary.meta" UnicodeDecodeError]
       initial_state).
Proof. reflexivity. Qed.

Example extract_guid_missing :
  extract_guid guid_world "none.meta" initial_state
  = (Ok None,
     add_console [MsgErrorReading "none.meta"
                    (FileNotFoundError "none.meta")] initial_state).
Proof. reflexivity. Qed.

(** A missing side-car whose name is not UTF-8: the line of the handler
    cannot be printed, and its exception leaves [extract_guid]. *)
Example extract_guid_unprintable :
  extract_guid guid_world unprintable_meta initial_state
  = (Raise UnicodeEncodeError, initial_state).
Proof. reflexivity. Qed.

(** ** The archive *)

Lemma split_cons_length sep s : length (Str.split sep s) ≠ 0.
Proof.
  induction s as [|c s IH]; simpl; [done|].
  destruct (Ascii.eqb c sep); simpl; [done|].
  by destruct (Str.split sep s).
Qed.

Lemma split_no_sep s : has_sep s = false → Str.split OsPath.sep s = [s].
Proof.
  induction s as [|c s IH]; simpl; [done|].
  intros [Hc Hs]%orb_false_iff. rewrite Hc, (IH Hs). done.
Qed.

Lemma split_has_sep s : has_sep s = true → 2 ≤ length (Str.split OsPath.sep s).
Proof.
  induction s as [|c s IH]; simpl; [done|].
  destruct (Ascii.eqb c OsPath.sep); simpl.
  - intros _. pose proof (split_cons_length OsPath.sep s). lia.
  - intros Hs. specialize (IH Hs).
    destruct (Str.split OsPath.sep s); simpl in *; lia.
Qed.

Lemma has_sep_app a b : has_sep (a +:+ b) = has_sep a || has_sep b.
Proof. induction a as [|c a IH]; simpl; [done|]. by rewrite IH, orb_assoc. Qed.

Lemma substring_one_has_sep s i :
  String.substring i 1 s = "/" → has_sep s = true.
Proof.
  revert i. induction s as [|c s IH]; intros i; simpl.
  - by destruct i.
  - destruct i as [|i].
    + destruct s; intros [= ->]; done.
    + intros H. rewrite (IH i H). apply orb_true_r.
Qed.

Lemma endswith_slash_has_sep s : Str.endswith s "/" = true → has_sep s = true.
Proof.
  unfold Str.endswith. simpl String.length.
  destruct (Nat.leb 1 (String.length s)); [|done].
  intros H%String.eqb_eq. by eapply substring_one_has_sep.
Qed.

Lemma join_has_sep g f : file_name g → has_sep (OsPath.join g f) = true.
Proof.
  intros [Hne Hs]. unfold OsPath.join.
  destruct (Str.startswith_char OsPath.sep f) eqn:Ef.
  - destruct f as [|c f]; [done|]. simpl in *. by rewrite Ef.
  - destruct (Str.truthy g) eqn:Eg; [|by destruct g].
    simpl. destruct (Str.endswith g "/") eqn:Ee.
    + apply endswith_slash_has_sep in Ee. congruence.
    + rewrite !has_sep_app. simpl. apply orb_true_r.
Qed.

Lemma top_level_dir g : file_name g → top_level (MDir g) = true.
Proof. intros [_ Hs]. unfold top_level. simpl. by rewrite split_no_sep. Qed.

Lemma top_level_file g f c :
  file_name g → top_level (MFile (OsPath.join g f) c) = false.
Proof.
  intros Hg. unfold top_level. simpl.
  pose proof (split_has_sep _ (join_has_sep g f Hg)) as Hl.
  destruct (Str.split OsPath.sep (OsPath.join g f)) as [|? [|? ?]];
    simpl in Hl; [lia | lia | done].
Qed.

Lemma elem_of_tar_members g files m :
  m ∈ tar_members g files ↔
  m = MDir g ∨ ∃ f c, files !! f = Some c ∧ m = MFile (OsPath.join g f) c.
Proof.
  unfold tar_members. rewrite elem_of_cons. apply or_iff_compat_l.
  rewrite list_elem_of_In, in_map_iff. split.
  - intros (f & <- & Hf). rewrite <- list_elem_of_In, merge_sort_Permutation in Hf.
    apply list_elem_of_fmap in Hf as ([f' c] & -> & Hfc%elem_of_map_to_list).
    exists f', c. simpl. by rewrite Hfc.
  - intros (f & c & Hfc & ->). exists f. rewrite Hfc. simpl. split; [reflexivity|].
    rewrite <- list_elem_of_In, merge_sort_Permutation.
    apply list_elem_of_fmap. exists (f, c). split; [done|].
    by apply elem_of_map_to_list.
Qed.

Lemma filter_top_level_tar_members g files :
  file_name g →
  filter (λ m, top_level m = true) (tar_members g files) = [MDir g].
Proof.
  intros Hg. unfold tar_members.
  rewrite filter_cons_True by (by apply top_level_dir). f_equal.
  generalize (merge_sort string_le (map fst (map_to_list files))).
  intros l. induction l as [|f l IH]; [done|].
  simpl. rewrite filter_cons_False; [done|].
  by rewrite top_level_file.
Qed.

Lemma filter_top_level_archive (F : string → gmap string string)
    (l : list string) :
  (∀ g, g ∈ l → file_name g) →
  filter (λ m, top_level m = true) (flat_map (λ g, tar_members g (F g)) l)
  = MDir <$> l.
Proof.
  induction l as [|g l IH]; intros Hl; [done|].
  cbn [flat_map]. rewrite filter_app, filter_top_level_tar_members, IH.
  - done.
  - intros g' Hg'. apply Hl, elem_of_cons. auto.
  - apply Hl, elem_of_cons. auto.
Qed.

Lemma set_out_set_out o1 o2 s : set_out o2 (set_out o1 s) = set_out o2 s.
Proof. reflexivity. Qed.

(** The listing of a directory holds each of its names, once. *)
Lemma listing_Permutation w cr t : listing w cr t ≡ₚ (map_to_list t).*1.
Proof. unfold listing. apply merge_sort_Permutation. Qed.

Lemma elem_of_listing w cr t g : g ∈ listing w cr t ↔ is_Some (t !! g).
Proof.
  rewrite listing_Permutation, list_elem_of_fmap. split.
  - intros ([g' e] & -> & He%elem_of_map_to_list). simpl. eauto.
  - intros [e He]. exists (g, e). split; [done|]. by apply elem_of_map_to_list.
Qed.

Lemma NoDup_listing w cr t : NoDup (listing w cr t).
Proof. rewrite listing_Permutation. apply NoDup_fst_map_to_list. Qed.

Lemma elem_of_archive_of w cr t m :
  m ∈ archive_of w cr t ↔
  ∃ g files, t !! g = Some files ∧ m ∈ tar_members g files.
Proof.
  unfold archive_of. rewrite list_elem_of_In, in_flat_map. split.
  - intros (g & Hg & Hm). apply list_elem_of_In in Hg, Hm.
    apply elem_of_listing in Hg as [files Hg]. exists g, files.
    rewrite Hg in Hm. done.
  - intros (g & files & Hg & Hm). exists g. rewrite <- !list_elem_of_In.
    split; [apply elem_of_listing; eauto|]. by rewrite Hg.
Qed.

Lemma for_each_tar_add t p (l : list string) ms0 s :
  tmp s = Some t → out s = Some (p, ms0) →
  (∀ g, g ∈ l → is_Some (t !! g)) →
  for_each l tar_add s
  = (Ok tt,
     set_out (Some (p, ms0 ++ flat_map (λ g, tar_members g (default ∅ (t !! g))) l))
       s).
Proof.
  revert ms0 s. induction l as [|g l IH]; intros ms0 s Ht Ho Hl.
  - simpl. unfold ret. rewrite app_nil_r, <- Ho. by destruct s.
  - rewrite for_each_cons.
    destruct (Hl g) as [files Hg]; [apply elem_of_cons; auto|].
    unfold tar_add at 1. rewrite Ht, Ho, Hg.
    rewrite (IH (ms0 ++ tar_members g files)); [| done | done |].
    + cbn [flat_map]. rewrite Hg. simpl.
      by rewrite set_out_set_out, <- app_assoc.
    + intros g' Hg'. apply Hl, elem_of_cons. auto.
Qed.

Lemma archiver_run w output_path s t :
  tmp s = Some t →
  archiver w output_path s
  = if FS.can_write w output_path
    then (Ok tt,
          set_out (Some (output_path, archive_of w (created s) t)) s)
    else (Raise (OSError output_path), s).
Proof.
  intros Ht. unfold archiver, bind, tar_open.
  destruct (FS.can_write w output_path); [|done].
  unfold listdir. simpl. rewrite Ht.
  rewrite (for_each_tar_add t output_path (listing w (created s) t) []); try done.
  intros g Hg. by apply elem_of_listing in Hg.
Qed.

(** Claim C5.  On a temporary directory whose sub-directories have
    names of one path component, and an output path that can be created,
    the archiver writes one archive at the output path; its top-level
    members are the sub-directories, each once; every file of a
    sub-directory is a member under the name of the sub-directory, with
    its content, and the archive has no other member. *)
Theorem archive_members_are_staging_children w output_path s t :
  tmp s = Some t →
  FS.can_write w output_path = true →
  (∀ g, is_Some (t !! g) → file_name g) →
  ∃ ms,
    archiver w output_path s = (Ok tt, set_out (Some (output_path, ms)) s)
    ∧ (∀ g, is_Some (t !! g)
            ↔ ∃ m, m ∈ ms ∧ top_level m = true ∧ member_name m = g)
    ∧ NoDup (filter (λ m, top_level m = true) ms)
    ∧ (∀ g files, t !! g = Some files →
         MDir g ∈ ms
         ∧ ∀ f c, files !! f = Some c → MFile (OsPath.join g f) c ∈ ms)
    ∧ (∀ m, m ∈ ms →
         ∃ g files, t !! g = Some files
           ∧ (m = MDir g
              ∨ ∃ f c, files !! f = Some c ∧ m = MFile (OsPath.join g f) c)).
Proof.
  intros Ht Hw Hnames. exists (archive_of w (created s) t).
  split; [by rewrite (archiver_run _ _ _ _ Ht), Hw|].
  pose proof (elem_of_archive_of w (created s) t) as Hin.
  assert (filter (λ m, top_level m = true) (archive_of w (created s) t)
          = MDir <$> listing w (created s) t) as Htop.
  { apply filter_top_level_archive. intros g Hg%elem_of_listing. auto. }
  split_and!.
  - intros g. split.
    + intros [files Hg]. exists (MDir g). split_and!; [|by apply top_level_dir; eauto|done].
      apply Hin. exists g, files. split; [done|]. apply elem_of_tar_members. auto.
    + intros (m & Hm & Htl & <-).
      assert (m ∈ filter (λ m, top_level m = true) (archive_of w (created s) t))
        as Hf by (by apply list_elem_of_filter).
      rewrite Htop in Hf.
      apply list_elem_of_fmap in Hf as (g & -> & Hg). simpl.
      by apply elem_of_listing in Hg.
  - rewrite Htop. apply NoDup_fmap_2; [by intros ?? [= ->]|].
    apply NoDup_listing.
  - intros g files Hg. split.
    + apply Hin. exists g, files. split; [done|]. apply elem_of_tar_members. auto.
    + intros f c Hf. apply Hin. exists g, files. split; [done|].
      apply elem_of_tar_members. right. eauto.
  - intros m (g & files & Hg & Hm)%Hin. exists g, files. split; [done|].
    by apply elem_of_tar_members.
Qed.

(** Identifiers are names of directory entries. *)
Lemma hex_not_sep c : Re.is_hex c = true → Ascii.eqb (ascii_of_N c) OsPath.sep = false.
Proof.
  intros Hc. apply Ascii.eqb_neq. intros Heq.
  assert (c < 256)%N as Hlt.
  { unfold Re.is_hex in Hc.
    repeat first [ rewrite orb_true_iff in Hc | rewrite andb_true_iff in Hc
                 | rewrite N.leb_le in Hc ]. lia. }
  apply (f_equal N_of_ascii) in Heq.
  rewrite N_ascii_embedding in Heq by exact Hlt. subst c. discriminate Hc.
Qed.

Lemma hex_token_file_name tok :
  tok ≠ [] → Forall (λ x, Re.is_hex x = true) tok →
  file_name (Text.to_string tok).
Proof.
  intros Hne Hhex. split.
  - destruct tok; [done | discriminate].
  - clear Hne. induction Hhex as [|c tok Hc _ IH]; [done|].
    change (Text.to_string (c :: tok))
      with (String (ascii_of_N c) (Text.to_string tok)).
    simpl. by rewrite (hex_not_sep c Hc), IH.
Qed.

Lemma guid_of_file_name w p g : guid_of w p = Some g → file_name g.
Proof.
  intros (text & tok & _ & Hf & ->)%guid_of_Some.
  apply first_guid_Some in Hf as (_ & _ & rest & _ & _ & Hne & [Hhex _] & _).
  by apply hex_token_file_name.
Qed.

(** After the loop on an empty temporary directory, every sub-directory is
    named by an identifier. *)
Lemma staging_names w assets s r s' :
  tmp s = Some ∅ → staging w assets s = (r, s') →
  ∀ g, is_Some (tmp_dir s' !! g) → file_name g.
Proof.
  intros Hs Hrun g Hg.
  destruct (staging_entries _ _ _ _ _ Hrun) as (H1 & _).
  destruct (H1 g Hg) as [Hold|(a & _ & Ha)].
  - unfold tmp_dir in Hold. rewrite Hs in Hold. simpl in Hold.
    rewrite lookup_empty in Hold. by destruct Hold.
  - by eapply guid_of_file_name.
Qed.

Lemma archive_members_are_staging_children_witness :
  ∃ ms,
    archiver sample_world PACKAGE_NAME sample_staged
    = (Ok tt, set_out (Some (PACKAGE_NAME, ms)) sample_staged)
    ∧ (∀ g, is_Some (tmp_dir sample_staged !! g)
            ↔ ∃ m, m ∈ ms ∧ top_level m = true ∧ member_name m = g)
    ∧ NoDup (filter (λ m, top_level m = true) ms)
    ∧ (∀ g files, tmp_dir sample_staged !! g = Some files →
         MDir g ∈ ms
         ∧ ∀ f c, files !! f = Some c → MFile (OsPath.join g f) c ∈ ms)
    ∧ (∀ m, m ∈ ms →
         ∃ g files, tmp_dir sample_staged !! g = Some files
           ∧ (m = MDir g
              ∨ ∃ f c, files !! f = Some c ∧ m = MFile (OsPath.join g f) c)).
Proof.
  apply (archive_members_are_staging_children sample_world PACKAGE_NAME
           sample_staged (tmp_dir sample_staged)).
  - vm_compute. reflexivity.
  - reflexivity.
  - apply (staging_names sample_world
             (get_all_assets sample_world "Assets/Deffatest")
             fresh_state (Ok tt)); [reflexivity | vm_compute; reflexivity].
Defined.

(** The archive of the sample run, on a file system that lists the
    sub-directories in the order of their creation, and on one that lists
    the newest first: the order of the assets reaches the archive. *)
Example sample_archive :
  out (main sample_world).2
  = Some (PACKAGE_NAME,
          [MDir "0007ee789";
           MFile "0007ee789/asset.meta" "guid: 0007ee789";
           MFile "0007ee789/pathname" "Assets/Deffatest";
           MDir "def456";
           MFile "def456/asset.meta" "guid: def456";
           MFile "def456/pathname" "Assets/Deffatest/Scripts";
           MDir "abc123";
           MFile "abc123/asset" "class Foo {}";
           MFile "abc123/asset.meta" "guid: abc123";
           MFile "abc123/pathname" "Assets/Deffatest/Scripts/Foo.cs"])
  ∧ out (main newest_first_world).2
    = Some (PACKAGE_NAME,
            [MDir "abc123";
             MFile "abc123/asset" "class Foo {}";
             MFile "abc123/asset.meta" "guid: abc123";
             MFile "abc123/pathname" "Assets/Deffatest/Scripts/Foo.cs";
             MDir "def456";
             MFile "def456/asset.meta" "guid: def456";
             MFile "def456/pathname" "Assets/Deffatest/Scripts";
             MDir "0007ee789";
             MFile "0007ee789/asset.meta" "guid: 0007ee789";
             MFile "0007ee789/pathname" "Assets/Deffatest"]).
Proof. split; vm_compute; reflexivity. Qed.

(** ** Cleaning up *)

Lemma try_finally_rmtree {A} (body : M A) s :
  tmp (try_finally body rmtree s).2 = None.
Proof.
  unfold try_finally, rmtree. destruct (body s) as [r s1].
  destruct (tmp s1) eqn:E; simpl; [done | exact E].
Qed.

Lemma create_unitypackage_run w output_path assets_folder s :
  match prelude_error w output_path assets_folder with
  | Some e =>
      ∃ s0, create_unitypackage w output_path assets_folder s = (Raise e, s0)
        ∧ tmp s0 = tmp s ∧ out s0 = out s
  | None =>
      create_unitypackage w output_path assets_folder s
      = if FS.tmp_available w
        then try_finally
               (try_block w output_path (get_all_assets w assets_folder)) rmtree
               (started (announced w output_path assets_folder s))
        else (Raise (OSError "mkdtemp"),
              announced w output_path assets_folder s)
  end.
Proof.
  unfold prelude_error, create_unitypackage, bind, print, call_get_all_assets,
    mkdtemp, announced.
  destruct (FS.print_error w (MsgCreating output_path)); [by eexists|].
  destruct (FS.print_error w (MsgAssetsFolder assets_folder)); [by eexists|].
  destruct (Str.has_nul assets_folder); [by eexists|]. simpl.
  destruct (FS.print_error w (MsgFound _)); [by eexists|].
  rewrite !add_console_app. simpl.
  by destruct (FS.tmp_available w).
Qed.

(** Claim C6.  Whatever the run does once [tempfile.mkdtemp] has made
    the temporary directory, returning or raising, the directory is gone
    when [create_unitypackage] is left.  The runs that leave the state of
    the temporary directory untouched are the one in which [mkdtemp]
    itself raises, and those that do not come to call it: a [print]
    before it raises, or [os.walk] does. *)
Theorem staging_directory_removed w output_path assets_folder s :
  let result := create_unitypackage w output_path assets_folder s in
  match prelude_error w output_path assets_folder with
  | Some e => result.1 = Raise e ∧ tmp result.2 = tmp s
  | None =>
      if FS.tmp_available w then tmp result.2 = None
      else result.1 = Raise (OSError "mkdtemp") ∧ tmp result.2 = tmp s
  end.
Proof.
  intros result. subst result.
  pose proof (create_unitypackage_run w output_path assets_folder s) as Hrun.
  destruct (prelude_error w output_path assets_folder).
  - destruct Hrun as (s0 & -> & Ht & _). done.
  - rewrite Hrun. destruct (FS.tmp_available w).
    + apply try_finally_rmtree.
    + split; reflexivity.
Qed.

Example abort_at_archive :
  let result := main readonly_world in
  result.1 = Raise (OSError PACKAGE_NAME)
  ∧ tmp result.2 = None ∧ out result.2 = None.
Proof. vm_compute. done. Qed.

Example abort_in_loop :
  let result := main locked_world in
  result.1 = Raise (PermissionError "Assets/Deffatest/a.txt")
  ∧ tmp result.2 = None ∧ out result.2 = None.
Proof. vm_compute. done. Qed.

Example sample_run_completes :
  let result := main sample_world in
  result.1 = Ok tt ∧ tmp result.2 = None
  ∧ out result.2
    = Some (PACKAGE_NAME,
            archive_of sample_world (created sample_staged)
              (tmp_dir sample_staged)).
Proof. vm_compute. done. Qed.

(** On a console that takes ASCII only, the line that follows the
    archive cannot be printed: the run raises when the archive is
    written. *)
Example abort_at_summary :
  let result := main ascii_world in
  result.1 = Raise UnicodeEncodeError
  ∧ tmp result.2 = None
  ∧ out result.2 = out (main sample_world).2.
Proof. vm_compute. done. Qed.

(** The record of the root is in the sequence twice: when its side-car
    has no write permission, the second round cannot overwrite the copy
    that the first has made. *)
Example abort_at_root_twice :
  let result := main read_only_root_world in
  result.1 = Raise (PermissionError "0007ee789/asset.meta")
  ∧ tmp result.2 = None ∧ out result.2 = None.
Proof. vm_compute. done. Qed.

(** ** Whole runs *)

(** The lines after the loop. *)
Lemma closing_run w output_path s t :
  tmp s = Some t →
  (print w MsgCreatingArchive >>
   archiver w output_path >>
   print w MsgCreated >>
   print w (MsgOutput output_path) >>
   print w MsgSize) s
  = match FS.print_error w MsgCreatingArchive with
    | Some e => (Raise e, s)
    | None =>
        if FS.can_write w output_path then
          let s2 :=
            set_out (Some (output_path, archive_of w (created s) t))
              (add_console [MsgCreatingArchive] s) in
          match FS.print_error w MsgCreated with
          | Some e => (Raise e, s2)
          | None =>
              match FS.print_error w (MsgOutput output_path) with
              | Some e => (Raise e, add_console [MsgCreated] s2)
              | None =>
                  match FS.print_error w MsgSize with
                  | Some e =>
                      (Raise e,
                       add_console [MsgCreated; MsgOutput output_path] s2)
                  | None =>
                      (Ok tt,
                       add_console
                         [MsgCreated; MsgOutput output_path; MsgSize] s2)
                  end
              end
          end
        else (Raise (OSError output_path), add_console [MsgCreatingArchive] s)
    end.
Proof.
  intros Ht. unfold bind at 1. unfold print at 1.
  destruct (FS.print_error w MsgCreatingArchive); [done|].
  unfold bind at 1.
  rewrite (archiver_run w output_path (add_console [MsgCreatingArchive] s) t Ht).
  destruct (FS.can_write w output_path); [|done].
  cbv zeta. unfold bind, print.
  destruct (FS.print_error w MsgCreated); [done|].
  destruct (FS.print_error w (MsgOutput output_path)); [done|].
  rewrite add_console_app.
  destruct (FS.print_error w MsgSize); [done|].
  by rewrite add_console_app.
Qed.

Lemma try_block_after_staging w output_path assets s :
  try_block w output_path assets s
  = match staging w assets s with
    | (Ok _, s1) =>
        (print w MsgCreatingArchive >>
         archiver w output_path >>
         print w MsgCreated >>
         print w (MsgOutput output_path) >>
         print w MsgSize) s1
    | (Raise e, s1) => (Raise e, s1)
    end.
Proof. reflexivity. Qed.

Lemma prints_closing w output_path :
  prints w [MsgCreatingArchive; MsgCreated; MsgOutput output_path; MsgSize]
  = true ↔
  FS.print_error w MsgCreatingArchive = None
  ∧ FS.print_error w MsgCreated = None
  ∧ FS.print_error w (MsgOutput output_path) = None
  ∧ FS.print_error w MsgSize = None.
Proof. rewrite !prints_cons. unfold prints. simpl. tauto. Qed.

(** The run completes when the lines before the loop can be printed, the
    temporary directory can be made, the loop does not raise, and the
    archive and the lines after it can be written; the archive holds what
    was staged. *)
Lemma create_unitypackage_completes w output_path assets_folder s s1 :
  prelude_error w output_path assets_folder = None →
  FS.tmp_available w = true →
  staging w (get_all_assets w assets_folder)
    (started (announced w output_path assets_folder s)) = (Ok tt, s1) →
  FS.can_write w output_path = true →
  prints w [MsgCreatingArchive; MsgCreated; MsgOutput output_path; MsgSize]
  = true →
  ∃ s', create_unitypackage w output_path assets_folder s = (Ok tt, s')
    ∧ tmp s' = None
    ∧ out s' = Some (output_path, archive_of w (created s1) (tmp_dir s1))
    ∧ console s'
      = console s1
        ++ [MsgCreatingArchive; MsgCreated; MsgOutput output_path; MsgSize].
Proof.
  intros Hpre Htmp Hstage Hw (Hp1 & Hp2 & Hp3 & Hp4)%prints_closing.
  pose proof (create_unitypackage_run w output_path assets_folder s) as Hrun.
  rewrite Hpre, Htmp in Hrun. rewrite Hrun.
  destruct (staging_tmp_is_Some _ _ _ _ _ Hstage) as [t Ht]; [by eexists|].
  unfold try_finally. rewrite try_block_after_staging, Hstage.
  rewrite (closing_run _ _ _ t Ht), Hp1, Hw, Hp2, Hp3, Hp4.
  cbv zeta. unfold rmtree. simpl. rewrite Ht. simpl.
  eexists. split; [reflexivity|]. simpl. unfold tmp_dir. rewrite Ht. simpl.
  split_and!; [done | done |]. by rewrite <- !app_assoc.
Qed.

(** A run that returns has printed the lines before the loop, made the
    temporary directory, run the loop to its end, and written the archive
    of what the loop staged and the lines after it. *)
Lemma returned_run w output_path assets_folder s :
  (create_unitypackage w output_path assets_folder s).1 = Ok tt →
  prelude_error w output_path assets_folder = None
  ∧ FS.tmp_available w = true
  ∧ FS.can_write w output_path = true
  ∧ prints w [MsgCreatingArchive; MsgCreated; MsgOutput output_path; MsgSize]
    = true
  ∧ ∃ s1,
      staging w (get_all_assets w assets_folder)
        (started (announced w output_path assets_folder s)) = (Ok tt, s1)
      ∧ tmp (create_unitypackage w output_path assets_folder s).2 = None
      ∧ out (create_unitypackage w output_path assets_folder s).2
        = Some (output_path, archive_of w (created s1) (tmp_dir s1))
      ∧ console (create_unitypackage w output_path assets_folder s).2
        = console s1
          ++ [MsgCreatingArchive; MsgCreated; MsgOutput output_path; MsgSize].
Proof.
  intros Hok.
  pose proof (create_unitypackage_run w output_path assets_folder s) as Hrun.
  destruct (prelude_error w output_path assets_folder) as [e|] eqn:Hpre.
  { destruct Hrun as (s0 & Hrun & _). by rewrite Hrun in Hok. }
  destruct (FS.tmp_available w) eqn:Htmp; [|by rewrite Hrun in Hok].
  set (s0 := started (announced w output_path assets_folder s)) in *.
  destruct (staging w (get_all_assets w assets_folder) s0) as [r s1] eqn:Hstage.
  destruct (staging_tmp_is_Some _ _ _ _ _ Hstage) as [t Ht]; [by eexists|].
  assert (try_finally
            (try_block w output_path (get_all_assets w assets_folder)) rmtree s0
          = create_unitypackage w output_path assets_folder s) as Hdef by done.
  unfold try_finally in Hdef. rewrite try_block_after_staging, Hstage in Hdef.
  destruct r as [[]|e].
  2:{ unfold rmtree in Hdef. rewrite Ht in Hdef. by rewrite <- Hdef in Hok. }
  rewrite (closing_run _ _ _ t Ht) in Hdef.
  destruct (FS.print_error w MsgCreatingArchive) eqn:Hp1.
  { unfold rmtree in Hdef. rewrite Ht in Hdef. by rewrite <- Hdef in Hok. }
  destruct (FS.can_write w output_path) eqn:Hw.
  2:{ unfold rmtree in Hdef. simpl in Hdef. rewrite Ht in Hdef.
      by rewrite <- Hdef in Hok. }
  cbv zeta in Hdef.
  destruct (FS.print_error w MsgCreated) eqn:Hp2.
  { unfold rmtree in Hdef. simpl in Hdef. rewrite Ht in Hdef.
    by rewrite <- Hdef in Hok. }
  destruct (FS.print_error w (MsgOutput output_path)) eqn:Hp3.
  { unfold rmtree in Hdef. simpl in Hdef. rewrite Ht in Hdef.
    by rewrite <- Hdef in Hok. }
  destruct (FS.print_error w MsgSize) eqn:Hp4.
  { unfold rmtree in Hdef. simpl in Hdef. rewrite Ht in Hdef.
    by rewrite <- Hdef in Hok. }
  unfold rmtree in Hdef. simpl in Hdef. rewrite Ht in Hdef.
  split; [done|]. split; [done|]. split; [done|].
  split; [by apply prints_closing|].
  exists s1. split; [done|]. rewrite <- Hdef. simpl.
  unfold tmp_dir. rewrite Ht. simpl.
  split_and!; [done | done |]. by rewrite <- !app_assoc.
Qed.

Lemma walk_missing w base : FS.resolve w base = None → FS.walk w base = [].
Proof. unfold FS.walk. by intros ->. Qed.

Lemma archive_of_empty w cr : archive_of w cr ∅ = [].
Proof.
  unfold archive_of.
  assert (listing w cr ∅ = []) as ->; [|done].
  apply Permutation_nil_r. rewrite listing_Permutation.
  by rewrite map_to_list_empty.
Qed.

Lemma archive_of_singleton w cr g files :
  archive_of w cr {[g := files]} = tar_members g files.
Proof.
  unfold archive_of.
  assert (listing w cr {[g := files]} = [g]) as ->.
  { apply Permutation_singleton_r. rewrite listing_Permutation.
    by rewrite map_to_list_singleton. }
  cbn [flat_map]. rewrite app_nil_r. by rewrite lookup_singleton_eq.
Qed.

Lemma locked_started s g f : locked (started s) g f = false.
Proof.
  unfold locked. apply bool_decide_eq_false. intros [_ H].
  by apply elem_of_empty in H.
Qed.

(** Claim C10, as worded, fails: the assets folder is missing and its
    side-car gives an identifier of 256 digits, which is too long for the
    name of a directory; [os.makedirs] raises and the run aborts. *)
Lemma missing_folder_run_returns_counterexample :
  ¬ missing_folder_run_returns long_identifier_world PACKAGE_NAME ASSETS_FOLDER.
Proof.
  intros H.
  destruct (H eq_refl eq_refl eq_refl initial_state) as [s' Hs'].
  vm_compute in Hs'. discriminate Hs'.
Qed.

(** Claim C10, amended.  When the assets folder does not exist and its
    path has no NUL character, the enumeration returns the empty
    sequence, or the record of the folder alone when its side-car exists.
    The run then returns, removes the temporary directory, and writes an
    archive that holds the entry of that record, if its side-car gives an
    identifier, and nothing else, provided that the temporary directory
    and the output file can be made, the lines of the run can be printed,
    and the identifier of the record is no longer than a name may be and
    its path can be written as UTF-8. *)
Theorem missing_assets_folder w output_path assets_folder s :
  FS.resolve w assets_folder = None →
  Str.has_nul assets_folder = false →
  let root_meta := assets_folder +:+ ".meta" in
  let root := folder_record assets_folder root_meta in
  let assets := if FS.exists_ w root_meta then [root] else [] in
  call_get_all_assets w assets_folder s = (Ok assets, s)
  ∧ (FS.tmp_available w = true →
     FS.can_write w output_path = true →
     prints w
       ([MsgCreating output_path; MsgAssetsFolder assets_folder;
         MsgFound (length assets)]
        ++ concat (map (round_lines w) assets)
        ++ [MsgCreatingArchive; MsgCreated; MsgOutput output_path; MsgSize])
     = true →
     (∀ g, guid_of w root_meta = Some g →
        String.length g ≤ NAME_MAX ∧ Text.encodable (path root) = true) →
     ∃ s', create_unitypackage w output_path assets_folder s = (Ok tt, s')
       ∧ tmp s' = None
       ∧ out s'
         = Some (output_path,
                 match guid_of w root_meta, Text.read_bytes w root_meta with
                 | Some g, inr bytes =>
                     tar_members g
                       (<["asset.meta" := bytes]>
                          {["pathname" := Str.replace backslash slash assets_folder]})
                 | _, _ => []
                 end)).
Proof.
  intros Hmiss Hnul root_meta root assets.
  assert (get_all_assets w assets_folder = assets) as Hassets.
  { unfold get_all_assets. rewrite (walk_missing _ _ Hmiss). simpl.
    fold root_meta. subst assets. by destruct (FS.exists_ w root_meta). }
  split; [unfold call_get_all_assets; by rewrite Hnul, Hassets|].
  intros Htmp Hw Hprints Hid.
  apply prints_app in Hprints as [Hopen Hprints].
  apply prints_app in Hprints as [Hrounds Hclose].
  assert (prelude_error w output_path assets_folder = None) as Hpre.
  { unfold prelude_error. rewrite Hnul, Hassets.
    apply prints_cons in Hopen as [-> Hopen].
    apply prints_cons in Hopen as [-> Hopen].
    by apply prints_cons in Hopen as [-> _]. }
  set (s0 := started (announced w output_path assets_folder s)).
  assert (∃ s1, staging w (get_all_assets w assets_folder) s0 = (Ok tt, s1)
            ∧ tmp_dir s1
              = match guid_of w root_meta, Text.read_bytes w root_meta with
                | Some g, inr bytes =>
                    {[g := <["asset.meta" := bytes]>
                             {["pathname" := Str.replace backslash slash assets_folder]}]}
                | _, _ => ∅
                end) as (s1 & Hstage & Hdir).
  { rewrite Hassets. subst assets.
    destruct (FS.exists_ w root_meta) eqn:Hex.
    - simpl in Hrounds. rewrite app_nil_r in Hrounds.
      assert (round_error w root s0 = None) as Herr.
      { unfold round_error.
        apply first_print_error_None in Hrounds. rewrite Hrounds.
        change (meta root) with root_meta.
        destruct (guid_of w root_meta) as [g|] eqn:Hg; [|done].
        destruct (Hid g eq_refl) as [Hlen Henc].
        apply Nat.ltb_ge in Hlen. rewrite Hlen, Henc.
        unfold s0. by rewrite !locked_started. }
      exists (round_state w root s0). split.
      { apply (staging_cons_Ok w root []). split; [done|]. reflexivity. }
      unfold tmp_dir. rewrite round_state_tmp. unfold round_tmp.
      change (meta root) with root_meta.
      destruct (guid_of w root_meta) as [g|] eqn:Hg.
      + destruct (guid_of_readable _ _ _ Hg) as [bytes Hb]. rewrite Hb.
        simpl. rewrite lookup_empty. simpl. unfold round_files.
        change (meta root) with root_meta. rewrite Hb. simpl.
        by rewrite insert_empty.
      + done.
    - exists s0. split; [done|].
      assert (guid_of w root_meta = None) as ->; [|done].
      unfold guid_of, Text.read_text, Text.read_bytes.
      unfold FS.exists_ in Hex.
      by destruct (FS.resolve w root_meta). }
  destruct (create_unitypackage_completes w output_path assets_folder s s1
              Hpre Htmp Hstage Hw Hclose) as (s' & Hrun & Ht & Ho & _).
  exists s'. split; [exact Hrun|]. split; [exact Ht|].
  rewrite Ho, Hdir.
  destruct (guid_of w root_meta); [|by rewrite archive_of_empty].
  destruct (Text.read_bytes w root_meta); [by rewrite archive_of_empty|].
  by rewrite archive_of_singleton.
Qed.

Lemma missing_assets_folder_witness :
  call_get_all_assets orphan_world ASSETS_FOLDER initial_state
  = (Ok [folder_record ASSETS_FOLDER "Assets/Deffatest.meta"], initial_state)
  ∧ ∃ s', main orphan_world = (Ok tt, s')
      ∧ tmp s' = None
      ∧ out s'
        = Some (PACKAGE_NAME,
                [MDir "0abc";
                 MFile "0abc/asset.meta" "guid: 0abc";
                 MFile "0abc/pathname" "Assets/Deffatest"]).
Proof.
  destruct (missing_assets_folder orphan_world PACKAGE_NAME ASSETS_FOLDER
              initial_state eq_refl eq_refl) as [Hassets Hrun].
  split; [exact Hassets|].
  apply Hrun; try reflexivity.
  intros g [= <-]. split; [vm_compute; lia | reflexivity].
Defined.

(** The run on the missing folder whose side-car gives 256 digits. *)
Example abort_at_makedirs :
  let result := main long_identifier_world in
  result.1 = Raise (OSError (zeros 256))
  ∧ tmp result.2 = None ∧ out result.2 = None.
Proof. vm_compute. done. Qed.

(** ** The record of the root folder *)

(** The sequence for the scenario of the specification. *)
Example sample_assets :
  get_all_assets sample_world ASSETS_FOLDER
  = [folder_record "Assets/Deffatest" "Assets/Deffatest.meta";
     folder_record "Assets/Deffatest" "Assets/Deffatest.meta";
     file_record "Assets/Deffatest/Broken.cs" "Assets/Deffatest/Broken.cs.meta";
     folder_record "Assets/Deffatest/Scripts" "Assets/Deffatest/Scripts.meta";
     file_record "Assets/Deffatest/Scripts/Foo.cs"
                 "Assets/Deffatest/Scripts/Foo.cs.meta"].
Proof. reflexivity. Qed.

(** Claim C1 fails on the root.  When the assets folder is a directory
    with a side-car, [os.walk] yields the folder itself first, so the loop
    appends the record of the folder, and the insertion after the loop puts
    the same record in front of it: the sequence starts with the record of
    the root folder twice, followed by the records of the files of the
    folder and of the walks of its sub-directories. *)
Theorem root_folder_listed_twice w base es :
  FS.resolve w base = Some (FS.Dir es) →
  FS.exists_ w (base +:+ ".meta") = true →
  let root := folder_record base (base +:+ ".meta") in
  get_all_assets w base
  = root :: root
      :: file_assets w base (FS.filenames es)
      ++ concat (map (walked_assets w) (walk_entries base es)).
Proof.
  intros Hdir Hex root. unfold get_all_assets, FS.walk.
  rewrite Hex, Hdir, walk_node_Dir.
  cbn [map concat]. unfold walked_assets at 1. rewrite Hex.
  reflexivity.
Qed.

Lemma root_folder_listed_twice_witness :
  ∃ rest,
    get_all_assets sample_world ASSETS_FOLDER
    = folder_record ASSETS_FOLDER "Assets/Deffatest.meta"
      :: folder_record ASSETS_FOLDER "Assets/Deffatest.meta" :: rest.
Proof.
  eexists.
  exact (root_folder_listed_twice sample_world ASSETS_FOLDER _ eq_refl eq_refl).
Defined.

(** * Further properties *)

(** ** The identifier *)

Lemma hex_lt_256 c : Re.is_hex c = true → (c < 256)%N.
Proof.
  unfold Re.is_hex. intros Hc.
  repeat first [ rewrite orb_true_iff in Hc | rewrite andb_true_iff in Hc
               | rewrite N.leb_le in Hc ]. lia.
Qed.

Lemma chars_to_string tok : chars (Text.to_string tok) = map ascii_of_N tok.
Proof. unfold chars, Text.to_string. apply String.list_ascii_of_string_of_list_ascii. Qed.

(** Property X1.  What [extract_guid] returns, when it returns an identifier, is
    not empty, is made of characters of [[a-f0-9]] only, and is therefore
    one path component that is neither [.] nor [..]: joined to the
    temporary directory it names a direct child of it. *)
Theorem identifier_is_hex_component w p s g :
  (extract_guid w p s).1 = Ok (Some g) →
  g ≠ EmptyString
  ∧ Forall hex_char (chars g)
  ∧ file_name g
  ∧ g ≠ "." ∧ g ≠ "..".
Proof.
  rewrite extract_guid_run. intros Hrun.
  assert (guid_of w p = Some g) as Hg.
  { destruct (Text.read_text w p) as [e|text]; [|by injection Hrun].
    by destruct (FS.print_error w (MsgErrorReading p e)). }
  clear Hrun.
  pose proof (guid_of_file_name _ _ _ Hg) as Hname.
  apply guid_of_Some in Hg as (text & tok & _ & Hf & ->).
  apply first_guid_Some in Hf as (_ & _ & rest & _ & _ & Hne & [Hhex _] & _).
  assert (Forall hex_char (chars (Text.to_string tok))) as Hchars.
  { rewrite chars_to_string. apply Forall_fmap. eapply Forall_impl; [exact Hhex|].
    intros c Hc. unfold hex_char. simpl.
    by rewrite N_ascii_embedding by (by apply hex_lt_256). }
  split_and!; [by destruct Hname | exact Hchars | exact Hname | |].
  - intros Heq. rewrite Heq in Hchars. by inversion Hchars.
  - intros Heq. rewrite Heq in Hchars. by inversion Hchars.
Qed.

Lemma identifier_is_hex_component_witness :
  "0a1b" ≠ EmptyString
  ∧ Forall hex_char (chars "0a1b")
  ∧ file_name "0a1b"
  ∧ "0a1b" ≠ "." ∧ "0a1b" ≠ "..".
Proof.
  exact (identifier_is_hex_component guid_world "mixed.meta" initial_state
           "0a1b" eq_refl).
Defined.

(** ** The records *)

(** Property X2.  Every record of [get_all_assets] has a side-car that exists; it
    is a folder record exactly when it has no content path; the content
    path of a file record is a file that the walk listed, whose name does
    not end in [.meta], and the side-car is that path with [.meta]. *)
Theorem record_has_sidecar w base a :
  a ∈ get_all_assets w base →
  FS.exists_ w (meta a) = true
  ∧ (is_folder a = true ↔ asset a = None)
  ∧ ∀ file_path, asset a = Some file_path →
      meta a = file_path +:+ ".meta"
      ∧ ∃ root dirs files file,
          (root, dirs, files) ∈ FS.walk w base
          ∧ file ∈ files
          ∧ Str.endswith file ".meta" = false
          ∧ file_path = OsPath.join root file.
Proof.
  intros [[Hex ->]|([[root dirs] files] & Hw & Ha)]%elem_of_get_all_assets.
  - simpl. split_and!; [done | done | done].
  - apply elem_of_walked_assets in Ha as [[Hex ->]|Ha].
    + simpl. split_and!; [done | done | done].
    + apply elem_of_file_assets in Ha as (file & Hf & Hend & Hex & ->).
      simpl. split_and!; [done | split; done |].
      intros fp [= <-]. split; [done|]. by exists root, dirs, files, file.
Qed.

Lemma record_has_sidecar_witness :
  FS.exists_ sample_world (meta foo_cs) = true
  ∧ (is_folder foo_cs = true ↔ asset foo_cs = None)
  ∧ ∀ file_path, asset foo_cs = Some file_path →
      meta foo_cs = file_path +:+ ".meta"
      ∧ ∃ root dirs files file,
          (root, dirs, files) ∈ FS.walk sample_world ASSETS_FOLDER
          ∧ file ∈ files
          ∧ Str.endswith file ".meta" = false
          ∧ file_path = OsPath.join root file.
Proof.
  apply (record_has_sidecar sample_world ASSETS_FOLDER foo_cs).
  vm_compute. repeat constructor.
Defined.

(** Property X3.  The ['path'] of every record holds no backslash and has the
    length of the path it was made from (the side-car path without
    [.meta]); it is that path itself when that has no backslash, and
    otherwise differs from it only where that has a backslash, which is a
    slash in ['path']. *)
Theorem record_path_normalized w base a :
  a ∈ get_all_assets w base →
  ∃ raw,
    meta a = raw +:+ ".meta"
    ∧ (backslash ∉ chars (path a))
    ∧ String.length (path a) = String.length raw
    ∧ (backslash ∉ chars raw → path a = raw)
    ∧ ∀ i c, String.get i raw = Some c →
        String.get i (path a) = Some (if Ascii.eqb c backslash then slash else c).
Proof.
  intros Ha.
  destruct (get_all_assets_shape _ _ _ Ha) as (raw & Hmeta & Hpath & _).
  exists raw. rewrite Hpath. split_and!.
  - done.
  - by apply replace_absent.
  - apply replace_length.
  - apply replace_id.
  - intros i c Hi. by rewrite replace_get, Hi.
Qed.

Lemma record_path_normalized_witness :
  ∃ raw,
    meta foo_cs = raw +:+ ".meta"
    ∧ (backslash ∉ chars (path foo_cs))
    ∧ String.length (path foo_cs) = String.length raw
    ∧ (backslash ∉ chars raw → path foo_cs = raw)
    ∧ ∀ i c, String.get i raw = Some c →
        String.get i (path foo_cs)
        = Some (if Ascii.eqb c backslash then slash else c).
Proof.
  apply (record_path_normalized sample_world ASSETS_FOLDER foo_cs).
  vm_compute. repeat constructor.
Defined.

(** ** What a staging entry holds *)

Lemma staged_by_nil w : staged_by w [] ∅.
Proof.
  split.
  - intros a g Ha. by apply elem_of_nil in Ha.
  - intros g e He. by rewrite lookup_empty in He.
Qed.

Lemma staged_by_skip w l a t :
  guid_of w (meta a) = None → staged_by w l t → staged_by w (l ++ [a]) t.
Proof.
  intros Ha [H1 H2]. split.
  - intros b g [Hb|Hb%list_elem_of_singleton]%elem_of_app Hg;
      [by eapply H1 | congruence].
  - intros g e He. destruct (H2 g e He) as (Hp & Hn & Hc & Hs).
    split_and!.
    + destruct Hp as (b & bytes & Hb & ?). exists b, bytes.
      split; [apply elem_of_app; auto | done].
    + done.
    + intros c Hec. destruct (Hc c Hec) as (b & fp & Hb & ?).
      exists b, fp. split; [apply elem_of_app; auto | done].
    + intros (b & [Hb|Hb%list_elem_of_singleton]%elem_of_app & Hg & Hw).
      * apply Hs. eauto.
      * congruence.
Qed.

Lemma staged_by_add w l a g t :
  guid_of w (meta a) = Some g →
  content_read w a = Ok tt →
  staged_by w l t →
  staged_by w (l ++ [a]) (<[g := round_files w a (default ∅ (t !! g))]> t).
Proof.
  intros Ha Hok [H1 H2].
  destruct (guid_of_readable _ _ _ Ha) as [bytes Hbytes].
  split.
  - intros b h [Hb|Hb%list_elem_of_singleton]%elem_of_app Hh.
    + destruct (decide (g = h)) as [->|Hne].
      * rewrite lookup_insert_eq. eauto.
      * rewrite lookup_insert_ne by done. by eapply H1.
    + subst b. assert (h = g) as -> by congruence.
      rewrite lookup_insert_eq. eauto.
  - intros h e. destruct (decide (g = h)) as [<-|Hne].
    + rewrite lookup_insert_eq. intros [= <-].
      destruct (round_files_pathname w a (default ∅ (t !! g)) bytes Hbytes)
        as [Hp Hm].
      assert (∀ e0, t !! g = Some e0 → default ∅ (t !! g) = e0) as Hdef
        by (by intros e0 ->).
      split_and!.
      * exists a, bytes. split_and!; try done.
        apply elem_of_app. right. by apply list_elem_of_singleton.
      * intros f [Hf|Hf]%round_files_lookup; [done|].
        destruct (t !! g) as [e0|] eqn:Et; simpl in Hf.
        -- destruct (H2 g e0 Et) as (_ & Hn & _). by apply Hn.
        -- rewrite lookup_empty in Hf. by destruct Hf.
      * intros c. rewrite round_files_asset.
        destruct (wanted_asset a) as [fp|] eqn:Hw.
        -- unfold content_read in Hok. rewrite Ha, Hw in Hok.
           destruct (Text.read_bytes w fp) as [err|c'] eqn:Hr; [done|].
           intros [= <-]. exists a, fp. split_and!; try done.
           apply elem_of_app. right. by apply list_elem_of_singleton.
        -- destruct (t !! g) as [e0|] eqn:Et; simpl.
           ++ intros Hc. destruct (H2 g e0 Et) as (_ & _ & Hc0 & _).
              destruct (Hc0 c Hc) as (b & fp & Hb & ?).
              exists b, fp. split; [apply elem_of_app; auto | done].
           ++ by rewrite lookup_empty.
      * intros (b & Hb & Hg & Hw). rewrite round_files_asset.
        destruct (wanted_asset a) as [fp|] eqn:Hwa.
        -- unfold content_read in Hok. rewrite Ha, Hwa in Hok.
           destruct (Text.read_bytes w fp) as [err|c'] eqn:Hr; [done|].
           by eexists.
        -- apply elem_of_app in Hb as [Hb|Hb%list_elem_of_singleton].
           ++ destruct (H1 b g Hb Hg) as [e0 Et]. rewrite Et. simpl.
              destruct (H2 g e0 Et) as (_ & _ & _ & Hs). apply Hs. eauto.
           ++ subst b. rewrite Hwa in Hw. by destruct Hw.
    + rewrite lookup_insert_ne by done. intros He.
      destruct (H2 h e He) as (Hp & Hn & Hc & Hs). split_and!.
      * destruct Hp as (b & bs & Hb & ?). exists b, bs.
        split; [apply elem_of_app; auto | done].
      * done.
      * intros c Hec. destruct (Hc c Hec) as (b & fp & Hb & ?).
        exists b, fp. split; [apply elem_of_app; auto | done].
      * intros (b & [Hb|Hb%list_elem_of_singleton]%elem_of_app & Hg & Hw).
        -- apply Hs. eauto.
        -- congruence.
Qed.

Lemma foldl_round_tmp_staged w l :
  (∀ a, a ∈ l → content_read w a = Ok tt) →
  ∃ t, foldl (λ o a, round_tmp w a o) (Some ∅) l = Some t ∧ staged_by w l t.
Proof.
  induction l as [|a l IH] using rev_ind; intros Hok.
  - exists ∅. split; [done | apply staged_by_nil].
  - destruct IH as (t & Ht & Hst).
    { intros b Hb. apply Hok, elem_of_app. auto. }
    rewrite foldl_app. simpl. rewrite Ht. unfold round_tmp.
    destruct (guid_of w (meta a)) as [g|] eqn:Hg.
    + eexists. split; [reflexivity|]. simpl.
      apply staged_by_add; [done | | done].
      apply Hok, elem_of_app. right. by apply list_elem_of_singleton.
    + exists t. split; [done|]. by apply staged_by_skip.
Qed.

Lemma staging_staged_by w assets s s' :
  tmp s = Some ∅ → staging w assets s = (Ok tt, s') →
  staged_by w assets (tmp_dir s').
Proof.
  intros Hs (Ht & _ & _ & _ & Hread)%staging_Ok.
  destruct (foldl_round_tmp_staged w assets Hread) as (t & Hfold & Hst).
  unfold tmp_dir. by rewrite Ht, Hs, Hfold.
Qed.

(** Property X8.  After a loop that ran to its end on an empty temporary
    directory, every entry holds [pathname] and [asset.meta], both of one
    and the same asset with the identifier of the entry, and no file
    other than these two and [asset]; it holds [asset] exactly when some
    file asset of the sequence has this identifier, and [asset] is then
    the content of such an asset. *)
Theorem staged_entry_contents w assets s s' g e :
  tmp s = Some ∅ →
  staging w assets s = (Ok tt, s') →
  tmp_dir s' !! g = Some e →
  (∃ a bytes, a ∈ assets ∧ guid_of w (meta a) = Some g
     ∧ Text.read_bytes w (meta a) = inr bytes
     ∧ e !! "pathname" = Some (path a)
     ∧ e !! "asset.meta" = Some bytes)
  ∧ (∀ f, is_Some (e !! f) →
       f = "pathname" ∨ f = "asset.meta" ∨ f = "asset")
  ∧ (is_Some (e !! "asset") ↔
     ∃ b, b ∈ assets ∧ guid_of w (meta b) = Some g
       ∧ is_Some (wanted_asset b))
  ∧ ∀ c, e !! "asset" = Some c →
      ∃ b file_path, b ∈ assets ∧ guid_of w (meta b) = Some g
        ∧ wanted_asset b = Some file_path
        ∧ Text.read_bytes w file_path = inr c.
Proof.
  intros Hs Hrun He.
  destruct (staging_staged_by _ _ _ _ Hs Hrun) as [_ H2].
  destruct (H2 g e He) as (Hp & Hn & Hc & Hsome).
  split_and!; [done | done | | done].
  split; [|done]. intros [c Hec].
  destruct (Hc c Hec) as (b & fp & Hb & Hg & Hw & _).
  exists b. by rewrite Hw.
Qed.

Lemma staged_entry_contents_witness :
  let e : gmap string string :=
    <["asset" := "data"]>
      (<["asset.meta" := "guid: abc"]> {["pathname" := "A/sub"]}) in
  (∃ a bytes, a ∈ get_all_assets collision_world "A"
     ∧ guid_of collision_world (meta a) = Some "abc"
     ∧ Text.read_bytes collision_world (meta a) = inr bytes
     ∧ e !! "pathname" = Some (path a)
     ∧ e !! "asset.meta" = Some bytes)
  ∧ (∀ f, is_Some (e !! f) →
       f = "pathname" ∨ f = "asset.meta" ∨ f = "asset")
  ∧ (is_Some (e !! "asset") ↔
     ∃ b, b ∈ get_all_assets collision_world "A"
       ∧ guid_of collision_world (meta b) = Some "abc"
       ∧ is_Some (wanted_asset b))
  ∧ ∀ c, e !! "asset" = Some c →
      ∃ b file_path, b ∈ get_all_assets collision_world "A"
        ∧ guid_of collision_world (meta b) = Some "abc"
        ∧ wanted_asset b = Some file_path
        ∧ Text.read_bytes collision_world file_path = inr c.
Proof.
  intros e.
  apply (staged_entry_contents collision_world
           (get_all_assets collision_world "A") fresh_state
           (staging collision_world (get_all_assets collision_world "A")
              fresh_state).2 "abc" e).
  - reflexivity.
  - vm_compute. reflexivity.
  - vm_compute. reflexivity.
Defined.

(** ** The layout of the archive *)

Lemma entry_name_no_sep f : entry_name f → has_sep f = false.
Proof. by intros [->|[->| ->]]. Qed.

Lemma no_sep_startswith f :
  has_sep f = false → Str.startswith_char OsPath.sep f = false.
Proof. destruct f as [|c f]; simpl; [done|]. by intros [? _]%orb_false_iff. Qed.

(** Joining a directory name and a file name puts a separator between
    them. *)
Lemma join_names g f :
  file_name g → has_sep f = false → OsPath.join g f = g +:+ "/" +:+ f.
Proof.
  intros [Hne Hg] Hf. unfold OsPath.join.
  rewrite (no_sep_startswith f Hf).
  destruct (Str.truthy g) eqn:Et; [|by destruct g]. simpl.
  destruct (Str.endswith g "/") eqn:Ee; [|done].
  apply endswith_slash_has_sep in Ee. congruence.
Qed.

Lemma append_inj_l g x y : g +:+ x = g +:+ y → x = y.
Proof. induction g as [|c g IH]; simpl; [done|]. intros [= H]. auto. Qed.

Lemma split_app_sep g x :
  has_sep g = false →
  Str.split OsPath.sep (g +:+ String OsPath.sep x) = g :: Str.split OsPath.sep x.
Proof.
  induction g as [|c g IH]; simpl.
  - intros _. reflexivity.
  - intros [Hc Hg]%orb_false_iff. rewrite Hc, (IH Hg). done.
Qed.

(** The first component of the name of a member. *)
Lemma first_component_dir g :
  has_sep g = false → head (Str.split OsPath.sep g) = Some g.
Proof. intros Hg. by rewrite split_no_sep. Qed.

Lemma first_component_file g f :
  has_sep g = false →
  head (Str.split OsPath.sep (g +:+ "/" +:+ f)) = Some g.
Proof.
  intros Hg. change (g +:+ "/" +:+ f) with (g +:+ String OsPath.sep f).
  by rewrite (split_app_sep g f Hg).
Qed.

Lemma tar_member_names g files :
  file_name g →
  (∀ f, is_Some (files !! f) → has_sep f = false) →
  NoDup (member_name <$> tar_members g files)
  ∧ ∀ n, n ∈ member_name <$> tar_members g files →
      head (Str.split OsPath.sep n) = Some g.
Proof.
  intros Hg Hfiles.
  set (keys := merge_sort string_le (map fst (map_to_list files))).
  assert (NoDup keys) as Hnd.
  { subst keys. rewrite merge_sort_Permutation. apply NoDup_fst_map_to_list. }
  assert (∀ f, f ∈ keys → has_sep f = false) as Hkeys.
  { intros f Hf. subst keys. rewrite merge_sort_Permutation in Hf.
    apply list_elem_of_fmap in Hf as ([f' c] & -> & Hfc%elem_of_map_to_list).
    apply Hfiles. simpl. eauto. }
  assert (member_name <$> tar_members g files
          = g :: ((λ f, g +:+ "/" +:+ f) <$> keys)) as ->.
  { unfold tar_members. fold keys. simpl. f_equal.
    clearbody keys. clear Hnd. induction keys as [|f keys IH]; [done|].
    simpl. rewrite join_names; [|done|apply Hkeys, elem_of_cons; auto].
    f_equal. apply IH. intros f' Hf'. apply Hkeys, elem_of_cons. auto. }
  split.
  - apply NoDup_cons. split.
    + intros (f & Heq & _)%list_elem_of_fmap.
      apply (f_equal has_sep) in Heq. rewrite !has_sep_app in Heq.
      destruct Hg as [_ Hg]. rewrite Hg in Heq. simpl in Heq. discriminate.
    + apply NoDup_fmap_2; [|done]. intros f f' Heq%append_inj_l. by injection Heq.
  - intros n [->|(f & -> & _)%list_elem_of_fmap]%elem_of_cons.
    + apply first_component_dir, (proj2 Hg).
    + apply first_component_file, (proj2 Hg).
Qed.

Lemma archive_names_NoDup (F : string → gmap string string) (l : list string) :
  NoDup l →
  (∀ g, g ∈ l → file_name g
     ∧ ∀ f, is_Some (F g !! f) → has_sep f = false) →
  NoDup (member_name <$> flat_map (λ g, tar_members g (F g)) l).
Proof.
  induction l as [|g l IH]; intros Hnd Hl.
  - constructor.
  - cbn [flat_map]. rewrite fmap_app.
    apply NoDup_cons in Hnd as [Hg Hnd].
    destruct (Hl g) as [Hname Hfiles]; [apply elem_of_cons; auto|].
    destruct (tar_member_names g (F g) Hname Hfiles) as [Hnd1 Hfirst].
    apply NoDup_app. split_and!.
    + exact Hnd1.
    + intros n Hn Hn'. apply Hfirst in Hn.
      apply list_elem_of_fmap in Hn' as (m & -> & Hm).
      apply list_elem_of_In, in_flat_map in Hm as (g' & He & Hm).
      apply list_elem_of_In in He, Hm.
      destruct (Hl g') as [Hname' Hfiles']; [apply elem_of_cons; auto|].
      destruct (tar_member_names g' (F g') Hname' Hfiles') as [_ Hfirst'].
      rewrite (Hfirst' (member_name m)) in Hn
        by (by apply list_elem_of_fmap_2).
      injection Hn as ->. by apply Hg.
    + apply IH; [done|]. intros g' Hg'. apply Hl, elem_of_cons. auto.
Qed.

(** Property X9.  The archive of a run that returns has one directory for each
    identifier met, holding [pathname] and [asset.meta]; its members are
    such directories and, inside them, files named [pathname],
    [asset.meta] or [asset], and nothing else; no two members have the
    same name. *)
Theorem archive_layout w output_path assets_folder s :
  (create_unitypackage w output_path assets_folder s).1 = Ok tt →
  ∃ ms,
    out (create_unitypackage w output_path assets_folder s).2
    = Some (output_path, ms)
    ∧ NoDup (member_name <$> ms)
    ∧ (∀ a g, a ∈ get_all_assets w assets_folder →
         guid_of w (meta a) = Some g →
         MDir g ∈ ms
         ∧ (∃ c, MFile (g +:+ "/pathname") c ∈ ms)
         ∧ (∃ c, MFile (g +:+ "/asset.meta") c ∈ ms))
    ∧ ∀ m, m ∈ ms →
        ∃ a g, a ∈ get_all_assets w assets_folder
          ∧ guid_of w (meta a) = Some g
          ∧ (m = MDir g
             ∨ ∃ c,
                 m = MFile (g +:+ "/pathname") c
                 ∨ m = MFile (g +:+ "/asset.meta") c
                 ∨ m = MFile (g +:+ "/asset") c).
Proof.
  intros Hok.
  destruct (returned_run _ _ _ _ Hok)
    as (_ & _ & _ & _ & s1 & Hstage & _ & Hout & _).
  exists (archive_of w (created s1) (tmp_dir s1)). split; [exact Hout|].
  assert (tmp (started (announced w output_path assets_folder s)) = Some ∅)
    as Hs0 by done.
  pose proof (staging_names _ _ _ _ _ Hs0 Hstage) as Hnames.
  destruct (staging_staged_by _ _ _ _ Hs0 Hstage) as [Hdom Hent].
  split_and!.
  - apply archive_names_NoDup; [apply NoDup_listing|].
    intros g [e He]%elem_of_listing. split.
    + apply Hnames. eauto.
    + rewrite He. simpl. intros f Hf. apply entry_name_no_sep.
      destruct (Hent g e He) as (_ & Hn & _). by apply Hn.
  - intros a g Ha Hg. destruct (Hdom a g Ha Hg) as [e He].
    destruct (Hent g e He) as ((b & bytes & _ & _ & _ & Hp & Hm) & _).
    assert (file_name g) as Hname by (apply Hnames; eauto).
    split_and!.
    + apply elem_of_archive_of. exists g, e. split; [done|].
      apply elem_of_tar_members. auto.
    + exists (path b). apply elem_of_archive_of. exists g, e. split; [done|].
      apply elem_of_tar_members. right. exists "pathname", (path b).
      split; [done|]. by rewrite join_names.
    + exists bytes. apply elem_of_archive_of. exists g, e. split; [done|].
      apply elem_of_tar_members. right. exists "asset.meta", bytes.
      split; [done|]. by rewrite join_names.
  - intros m (g & e & He & Hm)%elem_of_archive_of.
    destruct (Hent g e He) as ((a & bytes & Ha & Hg & _) & Hn & _).
    assert (file_name g) as Hname by (apply Hnames; eauto).
    exists a, g. split; [done|]. split; [done|].
    apply elem_of_tar_members in Hm as [->|(f & c & Hf & ->)]; [auto|].
    right. exists c.
    destruct (Hn f) as [->|[->| ->]]; [by eexists| | |];
      rewrite join_names by done; auto.
Qed.

Lemma archive_layout_witness :
  ∃ ms,
    out (main sample_world).2 = Some (PACKAGE_NAME, ms)
    ∧ NoDup (member_name <$> ms)
    ∧ (∀ a g, a ∈ get_all_assets sample_world ASSETS_FOLDER →
         guid_of sample_world (meta a) = Some g →
         MDir g ∈ ms
         ∧ (∃ c, MFile (g +:+ "/pathname") c ∈ ms)
         ∧ (∃ c, MFile (g +:+ "/asset.meta") c ∈ ms))
    ∧ ∀ m, m ∈ ms →
        ∃ a g, a ∈ get_all_assets sample_world ASSETS_FOLDER
          ∧ guid_of sample_world (meta a) = Some g
          ∧ (m = MDir g
             ∨ ∃ c,
                 m = MFile (g +:+ "/pathname") c
                 ∨ m = MFile (g +:+ "/asset.meta") c
                 ∨ m = MFile (g +:+ "/asset") c).
Proof.
  apply (archive_layout sample_world PACKAGE_NAME ASSETS_FOLDER initial_state).
  vm_compute. reflexivity.
Defined.

(** ** What a run prints *)

Lemma round_lines_progress w a :
  List.filter progress (round_lines w a) = [progress_line w a]
  ∧ ∀ m, m ∈ round_lines w a → progress m = false →
      ∃ e, Text.read_text w (meta a) = inl e ∧ m = MsgErrorReading (meta a) e.
Proof.
  unfold round_lines, progress_line, read_diagnostics.
  destruct (guid_of w (meta a)) as [g|].
  - split; [done|]. by intros m ->%list_elem_of_singleton.
  - destruct (Text.read_text w (meta a)) as [e|c]; simpl.
    + split; [done|].
      intros m [->|[->|[]%elem_of_nil]%elem_of_cons]%elem_of_cons; [eauto|done].
    + split; [done|]. by intros m ->%list_elem_of_singleton.
Qed.

Lemma rounds_progress w assets :
  List.filter progress (concat (map (round_lines w) assets))
  = progress_line w <$> assets
  ∧ ∀ m, m ∈ concat (map (round_lines w) assets) → progress m = false →
      ∃ a e, a ∈ assets ∧ Text.read_text w (meta a) = inl e
        ∧ m = MsgErrorReading (meta a) e.
Proof.
  induction assets as [|a assets [IH1 IH2]]; simpl.
  - split; [done|]. by intros m []%elem_of_nil.
  - destruct (round_lines_progress w a) as [H1 H2]. split.
    + by rewrite List.filter_app, H1, IH1.
    + intros m [Hm|Hm]%elem_of_app Hp.
      * destruct (H2 m Hm Hp) as (e & ? & ?). exists a, e.
        split; [apply elem_of_cons; auto|done].
      * destruct (IH2 m Hm Hp) as (b & e & ? & ?). exists b, e.
        split; [apply elem_of_cons; auto|done].
Qed.

(** Property X10.  What a run that returns prints: the three opening lines, the
    last of which counts the assets found; then one progress line for
    each asset found, in the order of the sequence, [Adding] when the
    side-car gave an identifier and [Skipping] when it did not, with
    nothing between them but the errors of side-cars that could not be
    read; then the four closing lines. *)
Theorem console_of_a_run w output_path assets_folder s :
  (create_unitypackage w output_path assets_folder s).1 = Ok tt →
  ∃ body,
    console (create_unitypackage w output_path assets_folder s).2
    = console s
      ++ [MsgCreating output_path; MsgAssetsFolder assets_folder;
          MsgFound (length (get_all_assets w assets_folder))]
      ++ body
      ++ [MsgCreatingArchive; MsgCreated; MsgOutput output_path; MsgSize]
    ∧ List.filter progress body
      = progress_line w <$> get_all_assets w assets_folder
    ∧ ∀ m, m ∈ body → progress m = false →
        ∃ a e, a ∈ get_all_assets w assets_folder
          ∧ Text.read_text w (meta a) = inl e
          ∧ m = MsgErrorReading (meta a) e.
Proof.
  intros Hok.
  destruct (returned_run _ _ _ _ Hok)
    as (_ & _ & _ & _ & s1 & Hstage & _ & _ & Hc).
  exists (concat (map (round_lines w) (get_all_assets w assets_folder))).
  split; [|apply rounds_progress].
  apply staging_Ok in Hstage as (_ & _ & Hc1 & _).
  rewrite Hc, Hc1. simpl. by rewrite <- !app_assoc.
Qed.

Lemma console_of_a_run_witness :
  ∃ body,
    console (main sample_world).2
    = console initial_state
      ++ [MsgCreating PACKAGE_NAME; MsgAssetsFolder ASSETS_FOLDER;
          MsgFound (length (get_all_assets sample_world ASSETS_FOLDER))]
      ++ body
      ++ [MsgCreatingArchive; MsgCreated; MsgOutput PACKAGE_NAME; MsgSize]
    ∧ List.filter progress body
      = progress_line sample_world <$> get_all_assets sample_world ASSETS_FOLDER
    ∧ ∀ m, m ∈ body → progress m = false →
        ∃ a e, a ∈ get_all_assets sample_world ASSETS_FOLDER
          ∧ Text.read_text sample_world (meta a) = inl e
          ∧ m = MsgErrorReading (meta a) e.
Proof.
  apply (console_of_a_run sample_world PACKAGE_NAME ASSETS_FOLDER initial_state).
  vm_compute. reflexivity.
Defined.

(** ** The records lie under the assets folder *)

Lemma relative_names_Dir es :
  relative_names (FS.Dir es) = true ↔
  Forall (λ e, Str.startswith_char OsPath.sep e.1 = false
               ∧ relative_names e.2 = true) es.
Proof.
  simpl. induction es as [|[name child] es IH].
  - split; [constructor|done].
  - rewrite Forall_cons, <- IH, !andb_true_iff, negb_true_iff. simpl. tauto.
Qed.

Lemma lookup_entry_relative c es n :
  relative_names (FS.Dir es) = true →
  FS.lookup_entry c es = Some n → relative_names n = true.
Proof.
  rewrite relative_names_Dir. induction 1 as [|[name child] es [_ Hc] _ IH];
    simpl; [done|].
  destruct (String.eqb name c); [by intros [= <-]|exact IH].
Qed.

Lemma resolve_from_relative comps :
  ∀ stack cur n,
    Forall (λ x, relative_names x = true) stack →
    relative_names cur = true →
    FS.resolve_from stack cur comps = Some n → relative_names n = true.
Proof.
  induction comps as [|c cs IH]; intros stack cur n Hs Hc; simpl.
  - congruence.
  - destruct cur as [|es]; [done|].
    destruct (String.eqb c EmptyString || String.eqb c "."); [by apply IH|].
    destruct (String.eqb c "..").
    + destruct Hs as [|up stack' Hup Hs']; apply IH; auto.
    + destruct (FS.lookup_entry c es) as [child|] eqn:El; [|done].
      apply IH; [by constructor|]. by eapply lookup_entry_relative.
Qed.

Lemma resolve_relative w p n :
  relative_names (FS.Dir (FS.cwd w)) = true →
  FS.resolve w p = Some n → relative_names n = true.
Proof.
  intros Hw. unfold FS.resolve. destruct (Str.truthy p); [|done].
  by apply resolve_from_relative.
Qed.

Lemma append_empty_r s : s +:+ EmptyString = s.
Proof.
  induction s as [|c s IH]; [done|].
  change (String c (s +:+ EmptyString) = String c s). by rewrite IH.
Qed.

Lemma append_assoc a b c : (a +:+ b) +:+ c = a +:+ (b +:+ c).
Proof.
  induction a as [|x a IH]; [done|].
  change (String x ((a +:+ b) +:+ c) = String x (a +:+ (b +:+ c))).
  by rewrite IH.
Qed.

Lemma replace_app old new a b :
  Str.replace old new (a +:+ b)
  = Str.replace old new a +:+ Str.replace old new b.
Proof.
  induction a as [|x a IH]; [done|].
  change (String (if Ascii.eqb x old then new else x)
            (Str.replace old new (a +:+ b))
          = String (if Ascii.eqb x old then new else x)
              (Str.replace old new a +:+ Str.replace old new b)).
  by rewrite IH.
Qed.

Lemma join_extends top name :
  Str.startswith_char OsPath.sep name = false →
  ∃ rest, OsPath.join top name = top +:+ rest.
Proof.
  intros Hn. unfold OsPath.join. rewrite Hn.
  destruct (negb (Str.truthy top) || Str.endswith top "/"); eauto.
Qed.

Lemma elem_of_filenames f es :
  f ∈ FS.filenames es → ∃ n, (f, n) ∈ es.
Proof.
  unfold FS.filenames. rewrite list_elem_of_In, in_map_iff.
  intros ([f' n] & <- & Hin). exists n.
  by apply list_elem_of_In, list_elem_of_filter in Hin as [_ Hin].
Qed.

(** The walk of a directory yields paths that extend [top], and file
    names that [join] appends. *)
Lemma walk_node_under n :
  ∀ top item,
    relative_names n = true → item ∈ FS.walk_node top n →
    (∃ rest, item.1.1 = top +:+ rest)
    ∧ ∀ f, f ∈ item.2 → Str.startswith_char OsPath.sep f = false.
Proof.
  induction n as [r ow c|es IH] using node_induction; intros top item Hn Hin.
  - by apply elem_of_nil in Hin.
  - rewrite walk_node_Dir in Hin. rewrite relative_names_Dir in Hn.
    apply elem_of_cons in Hin as [->|Hin].
    + simpl. split; [exists EmptyString; by rewrite append_empty_r|].
      intros f (n & Hf)%elem_of_filenames.
      rewrite Forall_forall in Hn. by destruct (Hn _ Hf).
    + clear -IH Hn Hin.
      induction IH as [|[name child] es Hc _ IHes]; simpl in Hin.
      * by apply elem_of_nil in Hin.
      * apply Forall_cons in Hn as [[Hname Hchild] Hn]. simpl in *.
        destruct child as [|es'].
        -- by apply IHes.
        -- apply elem_of_app in Hin as [Hin|Hin]; [|by apply IHes].
           destruct (Hc _ _ Hchild Hin) as [[rest Hrest] Hfiles].
           split; [|done].
           destruct (join_extends top name Hname) as [rest' Hj].
           exists (rest' +:+ rest). by rewrite Hrest, Hj, append_assoc.
Qed.

Lemma walk_under w base item :
  relative_names (FS.Dir (FS.cwd w)) = true →
  item ∈ FS.walk w base →
  (∃ rest, item.1.1 = base +:+ rest)
  ∧ ∀ f, f ∈ item.2 → Str.startswith_char OsPath.sep f = false.
Proof.
  intros Hw. unfold FS.walk.
  destruct (FS.resolve w base) as [n|] eqn:E; [|by intros ?%elem_of_nil].
  apply walk_node_under. by eapply resolve_relative.
Qed.

(** Property X12.  In a tree whose names do not begin with a separator, every
    record lies under the assets folder: its side-car is [base_path],
    followed by the rest of a path, followed by [.meta]; its path is the
    same with every backslash replaced, so it begins with the assets
    folder so normalized; and the content of a file asset is read at
    [base_path] followed by that rest. *)
Theorem records_under_base w base_path a :
  relative_names (FS.Dir (FS.cwd w)) = true →
  a ∈ get_all_assets w base_path →
  ∃ rest,
    meta a = base_path +:+ rest +:+ ".meta"
    ∧ path a
      = Str.replace backslash slash base_path
        +:+ Str.replace backslash slash rest
    ∧ ∀ file_path, asset a = Some file_path → file_path = base_path +:+ rest.
Proof.
  intros Hw Ha.
  destruct (get_all_assets_shape _ _ _ Ha) as (raw & Hmeta & Hpath & Hshape).
  assert (∃ rest, raw = base_path +:+ rest) as [rest ->].
  { destruct Hshape
      as [(_ & _ & _ & [->|(item & Hi & ->)])
         |(_ & _ & _ & root & dirs & files & file & Hi & Hf & ->)].
    - exists EmptyString. by rewrite append_empty_r.
    - by destruct (walk_under _ _ _ Hw Hi).
    - destruct (walk_under _ _ _ Hw Hi) as [[rest Hrest] Hfiles].
      simpl in Hrest, Hfiles.
      destruct (join_extends root file (Hfiles file Hf)) as [rest' Hj].
      exists (rest +:+ rest'). by rewrite Hj, Hrest, append_assoc. }
  exists rest. rewrite Hmeta, Hpath, append_assoc, replace_app.
  split_and!; [done..|].
  intros fp Hfp.
  destruct Hshape as [(_ & ? & _)|(_ & ? & _)]; congruence.
Qed.

Lemma records_under_base_witness :
  ∃ rest,
    meta foo_cs = "Assets/Deffatest" +:+ rest +:+ ".meta"
    ∧ path foo_cs
      = Str.replace backslash slash "Assets/Deffatest"
        +:+ Str.replace backslash slash rest
    ∧ ∀ file_path,
        asset foo_cs = Some file_path → file_path = "Assets/Deffatest" +:+ rest.
Proof.
  apply (records_under_base sample_world "Assets/Deffatest" foo_cs).
  - vm_compute. reflexivity.
  - vm_compute. repeat first [apply list_elem_of_here | apply list_elem_of_further].
Defined.

(** ** When a round returns *)

Lemma round_error_None w a s g :
  guid_of w (meta a) = Some g →
  round_error w a s = None ↔
  FS.print_error w (MsgAdding (path a) (Str.take 8 g)) = None
  ∧ String.length g ≤ NAME_MAX
  ∧ Text.encodable (path a) = true
  ∧ locked s g "pathname" = false
  ∧ locked s g "asset.meta" = false
  ∧ ∀ file_path, wanted_asset a = Some file_path →
      (∃ c, Text.read_bytes w file_path = inr c) ∧ locked s g "asset" = false.
Proof.
  intros Hg. unfold round_error, round_lines. rewrite Hg. simpl.
  destruct (FS.print_error w (MsgAdding (path a) (Str.take 8 g)));
    [split; [done | by intros [? _]]|].
  destruct (NAME_MAX <? String.length g) eqn:Hlen.
  { apply Nat.ltb_lt in Hlen. split; [done|]. intros (_ & ? & _). lia. }
  apply Nat.ltb_ge in Hlen.
  destruct (locked s g "pathname"); [split; [done | by intros (_ & _ & _ & ? & _)]|].
  destruct (Text.encodable (path a)); simpl;
    [|split; [done | by intros (_ & _ & ? & _)]].
  destruct (locked s g "asset.meta");
    [split; [done | by intros (_ & _ & _ & _ & ? & _)]|].
  destruct (wanted_asset a) as [fp|].
  - destruct (Text.read_bytes w fp) as [e|c] eqn:Hr.
    + split; [done|]. intros (_ & _ & _ & _ & _ & H).
      destruct (H fp eq_refl) as [[c Hc] _]. congruence.
    + destruct (locked s g "asset").
      * split; [done|]. intros (_ & _ & _ & _ & _ & H).
        destruct (H fp eq_refl) as [_ ?]. done.
      * split; [|done]. intros _. split_and!; try done.
        intros fp' [= <-]. eauto.
  - split; [|done]. intros _. split_and!; done.
Qed.

Lemma locked_false s g f : (g, f) ∉ read_only s → locked s g f = false.
Proof.
  intros H. unfold locked. apply bool_decide_eq_false. by intros [_ ?].
Qed.

Lemma wanted_asset_Some a file_path :
  wanted_asset a = Some file_path → asset a = Some file_path.
Proof.
  unfold wanted_asset. destruct (asset a) as [fp|]; [|done].
  by destruct (negb (is_folder a) && Str.truthy fp).
Qed.

Lemma wanted_asset_record w base a file_path :
  a ∈ get_all_assets w base →
  asset a = Some file_path → wanted_asset a = Some file_path.
Proof.
  intros Ha Hfp. destruct (get_all_assets_shape _ _ _ Ha)
    as (raw & _ & _ & [(_ & ? & _)|(_ & ? & ? & _)]); congruence.
Qed.

(** The copy of the content has the write permission of the content. *)
Lemma round_state_read_only_asset w a s g file_path :
  guid_of w (meta a) = Some g →
  wanted_asset a = Some file_path →
  (g, "asset") ∈ read_only (round_state w a s)
  ↔ FS.owner_write w file_path = false.
Proof.
  intros Hg Hw. unfold round_state. rewrite Hg. simpl.
  unfold round_read_only. cbv zeta. rewrite Hw.
  destruct (FS.owner_write w file_path).
  - rewrite elem_of_difference, elem_of_singleton. intuition congruence.
  - rewrite elem_of_union, elem_of_singleton. tauto.
Qed.

(** ** A record that is in the sequence twice *)

Lemma round_files_idempotent w a e0 :
  round_files w a (round_files w a e0) = round_files w a e0.
Proof.
  unfold round_files.
  destruct (wanted_asset a) as [fp|]; [destruct (Text.read_bytes w fp)|];
    apply map_eq; intros k;
    destruct (decide (k = "asset"));
    destruct (decide (k = "asset.meta"));
    destruct (decide (k = "pathname"));
    by simplify_map_eq.
Qed.

Lemma round_tmp_idempotent w a o :
  round_tmp w a (round_tmp w a o) = round_tmp w a o.
Proof.
  unfold round_tmp. destruct (guid_of w (meta a)) as [g|]; [|done].
  simpl. rewrite lookup_insert_eq. simpl.
  by rewrite round_files_idempotent, insert_insert_eq.
Qed.

Lemma round_read_only_idempotent w a g ro :
  round_read_only w a g (round_read_only w a g ro) = round_read_only w a g ro.
Proof.
  unfold round_read_only. cbv zeta.
  destruct (wanted_asset a) as [fp|];
    [destruct (FS.owner_write w fp)|]; destruct (FS.owner_write w (meta a));
    apply set_eq; intros x;
    repeat (rewrite elem_of_difference || rewrite elem_of_union
            || rewrite elem_of_singleton);
    tauto.
Qed.

(** Property X4.  A record that is in the sequence twice in a row, as
    the record of the assets folder is when the folder is there with its
    side-car.  When its first round returns in a temporary directory that
    has no file without write permission, the second round changes nothing
    but the console if the side-car, and the content of a file asset, have
    the owner's write permission; otherwise it raises [PermissionError] on
    the copy it cannot overwrite, [asset.meta] or [asset]: the copies take
    the mode of their source. *)
Theorem repeated_record w a g s s1 :
  read_only s = ∅ →
  guid_of w (meta a) = Some g →
  stage_asset w a s = (Ok tt, s1) →
  if FS.owner_write w (meta a) then
    match wanted_asset a with
    | Some file_path =>
        if FS.owner_write w file_path
        then stage_asset w a s1
             = (Ok tt, add_console [MsgAdding (path a) (Str.take 8 g)] s1)
        else ∃ s2, stage_asset w a s1
                   = (Raise (PermissionError (OsPath.join g "asset")), s2)
    | None =>
        stage_asset w a s1
        = (Ok tt, add_console [MsgAdding (path a) (Str.take 8 g)] s1)
    end
  else ∃ s2, stage_asset w a s1
             = (Raise (PermissionError (OsPath.join g "asset.meta")), s2).
Proof.
  intros Hro Hg [He ->]%stage_asset_Ok.
  pose proof (proj1 (round_error_None w a s g Hg) He)
    as (Hp & Hlen & Henc & _ & _ & Hwanted).
  destruct (guid_of_readable _ _ _ Hg) as [bytes Hbytes].
  set (s1 := round_state w a s).
  assert (locked s1 g "pathname" = false) as Hl1.
  { apply locked_false. unfold s1, round_state. rewrite Hg. simpl.
    unfold round_read_only. cbv zeta. rewrite Hro.
    destruct (wanted_asset a); rewrite !elem_of_chmod by congruence;
      apply not_elem_of_empty. }
  assert (tmp_dir s1 !! g
          = Some (round_files w a (default ∅ (tmp_dir s !! g)))) as Hentry
    by (by apply round_state_entry).
  assert (locked s1 g "asset.meta" = negb (FS.owner_write w (meta a))) as Hl2.
  { unfold locked. rewrite Hentry. simpl.
    destruct (round_files_pathname w a (default ∅ (tmp_dir s !! g)) bytes
                Hbytes) as [_ ->].
    pose proof (round_state_read_only_meta w a s g Hg) as Hm. fold s1 in Hm.
    destruct (FS.owner_write w (meta a)); simpl.
    - apply bool_decide_eq_false. intros [_ H%Hm]. done.
    - apply bool_decide_eq_true. split; [eauto | by apply Hm]. }
  assert (∀ fp, wanted_asset a = Some fp →
            locked s1 g "asset" = negb (FS.owner_write w fp)) as Hl3.
  { intros fp Hw. destruct (Hwanted fp Hw) as [[c Hc] _].
    unfold locked. rewrite Hentry. simpl. rewrite round_files_asset, Hw, Hc.
    pose proof (round_state_read_only_asset w a s g fp Hg Hw) as Hm.
    fold s1 in Hm.
    destruct (FS.owner_write w fp); simpl.
    - apply bool_decide_eq_false. intros [_ H%Hm]. done.
    - apply bool_decide_eq_true. split; [eauto | by apply Hm]. }
  assert (round_error w a s1
          = if FS.owner_write w (meta a) then
              match wanted_asset a with
              | Some fp =>
                  if FS.owner_write w fp then None
                  else Some (PermissionError (OsPath.join g "asset"))
              | None => None
              end
            else Some (PermissionError (OsPath.join g "asset.meta"))) as Herr.
  { unfold round_error, round_lines. rewrite Hg. cbn [first_print_error].
    rewrite Hp. apply Nat.ltb_ge in Hlen. rewrite Hlen, Hl1, Henc, Hl2.
    cbn [negb].
    destruct (FS.owner_write w (meta a)); [|done]. cbn [negb].
    destruct (wanted_asset a) as [fp|] eqn:Hw; [|done].
    destruct (Hwanted fp eq_refl) as [[c ->] _].
    rewrite (Hl3 fp eq_refl). by destruct (FS.owner_write w fp). }
  assert (round_state w a s1
          = add_console [MsgAdding (path a) (Str.take 8 g)] s1) as Hstate.
  { unfold round_state at 1. rewrite Hg. unfold add_console. f_equal.
    - unfold s1. rewrite round_state_tmp. apply round_tmp_idempotent.
    - unfold s1, round_state. rewrite Hg. simpl.
      apply round_read_only_idempotent.
    - rewrite bool_decide_eq_true_2; [done|]. rewrite Hentry. eauto.
    - unfold round_lines. by rewrite Hg. }
  destruct (FS.owner_write w (meta a)).
  - destruct (wanted_asset a) as [fp|].
    + destruct (FS.owner_write w fp).
      * rewrite <- Hstate. by apply stage_asset_returns.
      * by apply stage_asset_raises.
    + rewrite <- Hstate. by apply stage_asset_returns.
  - by apply stage_asset_raises.
Qed.

Lemma repeated_record_witness :
  ∃ s2,
    stage_asset read_only_root_world
      (folder_record "Assets/Deffatest" "Assets/Deffatest.meta")
      (stage_asset read_only_root_world
         (folder_record "Assets/Deffatest" "Assets/Deffatest.meta")
         fresh_state).2
    = (Raise (PermissionError "0007ee789/asset.meta"), s2).
Proof.
  apply (repeated_record read_only_root_world
           (folder_record "Assets/Deffatest" "Assets/Deffatest.meta")
           "0007ee789" fresh_state).
  - reflexivity.
  - vm_compute. reflexivity.
  - vm_compute. reflexivity.
Defined.

(** ** When a run returns *)

Lemma staging_Ok_names w assets s s' :
  staging w assets s = (Ok tt, s') →
  ∀ a g, a ∈ assets → guid_of w (meta a) = Some g →
    String.length g ≤ NAME_MAX ∧ Text.encodable (path a) = true.
Proof.
  revert s. induction assets as [|a assets IH]; intros s.
  - intros _ a g Ha. by apply elem_of_nil in Ha.
  - intros [He Hrun]%staging_cons_Ok b g [->|Hb]%elem_of_cons Hg.
    + apply (round_error_None _ _ _ _ Hg) in He as (_ & ? & ? & _). done.
    + by eapply IH.
Qed.

(** Where every source that is copied has the owner's write permission,
    no file of the temporary directory lacks it, and the loop runs to its
    end when each round can print, name its directory, write its path and
    read its content. *)
Lemma staging_returns w assets s :
  (∀ x, x ∉ read_only s) →
  (∀ a, a ∈ assets → prints w (round_lines w a) = true) →
  (∀ a g, a ∈ assets → guid_of w (meta a) = Some g →
     String.length g ≤ NAME_MAX ∧ Text.encodable (path a) = true
     ∧ FS.owner_write w (meta a) = true
     ∧ ∀ file_path, wanted_asset a = Some file_path →
         (∃ c, Text.read_bytes w file_path = inr c)
         ∧ FS.owner_write w file_path = true) →
  ∃ s', staging w assets s = (Ok tt, s').
Proof.
  revert s. induction assets as [|a assets IH]; intros s Hro Hprints Hok.
  - by exists s.
  - assert (round_error w a s = None) as He.
    { destruct (guid_of w (meta a)) as [g|] eqn:Hg.
      - destruct (Hok a g) as (Hlen & Henc & _ & Hwanted);
          [apply elem_of_cons; auto | done |].
        apply (round_error_None _ _ _ _ Hg).
        pose proof (Hprints a (list_elem_of_here _ _)) as Hp.
        unfold round_lines in Hp. rewrite Hg in Hp.
        apply prints_cons in Hp as [Hp _].
        split_and!; try done; try (by apply locked_false).
        intros fp Hfp. destruct (Hwanted fp Hfp) as [Hc _].
        split; [done | by apply locked_false].
      - unfold round_error. rewrite Hg.
        by rewrite (proj2 (first_print_error_None w _)
                      (Hprints a (list_elem_of_here _ _))). }
    destruct (IH (round_state w a s)) as [s' Hs'].
    + intros x. unfold round_state.
      destruct (guid_of w (meta a)) as [g|] eqn:Hg; [|apply Hro]. simpl.
      destruct (Hok a g) as (_ & _ & Hm & Hwanted);
        [apply elem_of_cons; auto | done |].
      unfold round_read_only. cbv zeta. rewrite Hm.
      destruct (wanted_asset a) as [fp|].
      * destruct (Hwanted fp eq_refl) as [_ ->].
        rewrite !elem_of_difference. intros [[? _] _]. by eapply Hro.
      * rewrite elem_of_difference. intros [? _]. by eapply Hro.
    + intros b Hb. apply Hprints, elem_of_cons. auto.
    + intros b g Hb. apply Hok, elem_of_cons. auto.
    + exists s'. by apply staging_cons_Ok.
Qed.

Lemma prelude_error_None w output_path assets_folder :
  prelude_error w output_path assets_folder = None ↔
  Str.has_nul assets_folder = false
  ∧ prints w [MsgCreating output_path; MsgAssetsFolder assets_folder;
              MsgFound (length (get_all_assets w assets_folder))] = true.
Proof.
  unfold prelude_error. rewrite !prints_cons.
  destruct (FS.print_error w (MsgCreating output_path));
    [split; [done | by intros (_ & ? & _)]|].
  destruct (FS.print_error w (MsgAssetsFolder assets_folder));
    [split; [done | by intros (_ & _ & ? & _)]|].
  destruct (Str.has_nul assets_folder); [split; [done | by intros [? _]]|].
  destruct (FS.print_error w (MsgFound _));
    [split; [done | by intros (_ & _ & _ & ? & _)]|].
  done.
Qed.

Lemma prints_concat w (ls : list (list message)) :
  prints w (concat ls) = true ↔ ∀ l, l ∈ ls → prints w l = true.
Proof.
  induction ls as [|l ls IH]; simpl.
  - split; [|done]. intros _ l Hl. by apply elem_of_nil in Hl.
  - rewrite prints_app, IH. split.
    + intros [H1 H2] l' [->|Hl']%elem_of_cons; auto.
    + intros H. split; [apply H, list_elem_of_here|].
      intros l' Hl'. apply H, elem_of_cons. auto.
Qed.

(** Property X6.  Where every side-car and every content that the run
    copies has the owner's write permission, [create_unitypackage] returns
    normally exactly when the path of the assets folder has no NUL
    character, the temporary directory can be made, the archive can be
    created, every line of the run can be printed and, for every asset
    whose side-car gives an identifier, the identifier is no longer than a
    name may be, the path can be written as UTF-8, and the content of a
    file asset can be read.  A content that cannot be read does no harm
    when the side-car gives no identifier: that asset is skipped before
    its content is opened. *)
Theorem run_returns_iff w output_path assets_folder s :
  let assets := get_all_assets w assets_folder in
  (∀ a g, a ∈ assets → guid_of w (meta a) = Some g →
     FS.owner_write w (meta a) = true
     ∧ ∀ file_path, asset a = Some file_path →
         FS.owner_write w file_path = true) →
  (create_unitypackage w output_path assets_folder s).1 = Ok tt ↔
  Str.has_nul assets_folder = false
  ∧ FS.tmp_available w = true
  ∧ FS.can_write w output_path = true
  ∧ prints w
      ([MsgCreating output_path; MsgAssetsFolder assets_folder;
        MsgFound (length assets)]
       ++ concat (map (round_lines w) assets)
       ++ [MsgCreatingArchive; MsgCreated; MsgOutput output_path; MsgSize])
    = true
  ∧ ∀ a g, a ∈ assets → guid_of w (meta a) = Some g →
      String.length g ≤ NAME_MAX
      ∧ Text.encodable (path a) = true
      ∧ ∀ file_path, asset a = Some file_path →
          ∃ c, Text.read_bytes w file_path = inr c.
Proof.
  intros assets Hwr. subst assets. split.
  - intros Hok.
    destruct (returned_run _ _ _ _ Hok)
      as ([Hnul Hopen]%prelude_error_None & Htmp & Hw & Hclose
          & s1 & Hstage & _).
    pose proof (staging_Ok_names _ _ _ _ Hstage) as Hnames.
    apply staging_Ok in Hstage as (_ & _ & _ & Hlines & Hread).
    split_and!; try done.
    + apply prints_app. split; [done|]. by apply prints_app.
    + intros a g Ha Hg. destruct (Hnames a g Ha Hg) as [Hlen Henc].
      split_and!; try done. intros fp Hfp.
      pose proof (Hread a Ha) as Hc. unfold content_read in Hc.
      rewrite Hg, (wanted_asset_record _ _ _ _ Ha Hfp) in Hc.
      destruct (Text.read_bytes w fp); [done | eauto].
  - intros (Hnul & Htmp & Hw & Hprints & Hok).
    apply prints_app in Hprints as [Hopen Hprints].
    apply prints_app in Hprints as [Hlines Hclose].
    assert (prelude_error w output_path assets_folder = None) as Hpre
      by (by apply prelude_error_None).
    destruct (staging_returns w (get_all_assets w assets_folder)
                (started (announced w output_path assets_folder s)))
      as [s1 Hstage].
    + intros x. apply not_elem_of_empty.
    + intros a Ha. apply (proj1 (prints_concat w _) Hlines).
      apply list_elem_of_fmap. by exists a.
    + intros a g Ha Hg. destruct (Hok a g Ha Hg) as (Hlen & Henc & Hread).
      destruct (Hwr a g Ha Hg) as [Hm Hc].
      split_and!; try done. intros fp Hfp%wanted_asset_Some. auto.
    + destruct (create_unitypackage_completes _ _ _ s s1 Hpre Htmp Hstage Hw
                  Hclose) as (s' & -> & _). done.
Qed.

Lemma run_returns_iff_witness :
  (main sample_world).1 = Ok tt ↔
  Str.has_nul ASSETS_FOLDER = false
  ∧ FS.tmp_available sample_world = true
  ∧ FS.can_write sample_world PACKAGE_NAME = true
  ∧ prints sample_world
      ([MsgCreating PACKAGE_NAME; MsgAssetsFolder ASSETS_FOLDER;
        MsgFound (length (get_all_assets sample_world ASSETS_FOLDER))]
       ++ concat (map (round_lines sample_world)
                    (get_all_assets sample_world ASSETS_FOLDER))
       ++ [MsgCreatingArchive; MsgCreated; MsgOutput PACKAGE_NAME; MsgSize])
    = true
  ∧ ∀ a g, a ∈ get_all_assets sample_world ASSETS_FOLDER →
      guid_of sample_world (meta a) = Some g →
      String.length g ≤ NAME_MAX
      ∧ Text.encodable (path a) = true
      ∧ ∀ file_path, asset a = Some file_path →
          ∃ c, Text.read_bytes sample_world file_path = inr c.
Proof.
  apply (run_returns_iff sample_world PACKAGE_NAME ASSETS_FOLDER initial_state).
  intros a g Ha Hg. vm_compute in Ha.
  repeat (apply elem_of_cons in Ha as [->|Ha]);
    [| | | | | by apply elem_of_nil in Ha];
    (split; [reflexivity|]); intros fp [= <-]; reflexivity.
Defined.

(** Property X7.  A file asset whose side-car gives an identifier and
    whose content cannot be read: no run returns, and none writes an
    archive, for the loop cannot get past the round of that asset and the
    archive is opened after the loop. *)
Theorem unreadable_content_aborts w output_path assets_folder s
    a g file_path e :
  a ∈ get_all_assets w assets_folder →
  guid_of w (meta a) = Some g →
  asset a = Some file_path →
  Text.read_bytes w file_path = inl e →
  ∃ e', (create_unitypackage w output_path assets_folder s).1 = Raise e'
    ∧ out (create_unitypackage w output_path assets_folder s).2 = out s.
Proof.
  intros Ha Hg Hfp Hr.
  assert (∀ s0 s1, staging w (get_all_assets w assets_folder) s0
                   ≠ (Ok tt, s1)) as Hloop.
  { intros s0 s1 (_ & _ & _ & _ & Hread)%staging_Ok.
    pose proof (Hread a Ha) as Hc. unfold content_read in Hc.
    by rewrite Hg, (wanted_asset_record _ _ _ _ Ha Hfp), Hr in Hc. }
  pose proof (create_unitypackage_run w output_path assets_folder s) as Hrun.
  destruct (prelude_error w output_path assets_folder) as [e0|].
  { destruct Hrun as (s0 & -> & _ & Ho). eauto. }
  rewrite Hrun. destruct (FS.tmp_available w); [|eauto].
  set (s0 := started (announced w output_path assets_folder s)).
  unfold try_finally. rewrite try_block_after_staging.
  destruct (staging w (get_all_assets w assets_folder) s0)
    as [[[]|e1] s1] eqn:Hstage.
  { by apply Hloop in Hstage. }
  pose proof (staging_out _ _ _ _ _ Hstage) as Ho.
  destruct (staging_tmp_is_Some _ _ _ _ _ Hstage) as [t Ht]; [by eexists|].
  unfold rmtree. rewrite Ht. simpl. eauto.
Qed.

Lemma unreadable_content_aborts_witness :
  ∃ e', (main locked_world).1 = Raise e'
    ∧ out (main locked_world).2 = out initial_state.
Proof.
  apply (unreadable_content_aborts locked_world PACKAGE_NAME ASSETS_FOLDER
           initial_state
           (file_record "Assets/Deffatest/a.txt" "Assets/Deffatest/a.txt.meta")
           "0123" "Assets/Deffatest/a.txt"
           (PermissionError "Assets/Deffatest/a.txt")).
  - vm_compute. repeat constructor.
  - vm_compute. reflexivity.
  - reflexivity.
  - reflexivity.
Defined.
